(** * aws-service-quotas-exporter: the quota/usage package, embedded and verified

    A shallow embedding of [pkg/service_quotas]: the label normalisation of
    [tags.go], the usage checks of the [*_limits.go] files and the aggregator
    of [service_quotas.go], followed by the properties proved about them.

    Conventions of the embedding.
    - A Go [string] is a sequence of bytes: Rocq's [string] (one [ascii] per
      byte).
    - A Go [int]/[int64] is a [Z], every arithmetic result passed through
      [wrap64].
    - A Go [float64] is a primitive binary64 [float].
    - A Go function returning [([]QuotaUsage, error)] returns a pair of two
      options ([None] is Go's [nil]), inside [outcome], which adds the
      run-time panic.
    - A [*string] the code only copies is an [option string]; the one
      pointer the code compares by address ([JobRun.JobRunState]) is an
      address into an explicit [store].
    - A field the provider fills in every reply is a value.  A field that
      replies leave nil and the code dereferences (the job name of a trigger
      action, the Flink description chain of an application) is an option,
      and dereferencing [None] panics. *)

From Stdlib Require Import ZArith List String Ascii Bool Lia Floats.
From stdpp Require Import base option list strings gmap.

Local Open Scope Z_scope.

(* ===================================================================== *)
(** ** Go run-time model *)
(* ===================================================================== *)

Module Go.

(** Error values.  The four sentinels are the package's [Err...] variables;
    [ApiError] stands for whatever a provider client reports; [NumError],
    [ErrSyntax] and [ErrRange] are [strconv]'s; [Wrapf err arg] is
    [errors.Wrapf(err, "%w", arg)] for a non-nil [err]. *)
#[local] Set Warnings "-register-all".
Inductive error : Type :=
| ErrInvalidRegion
| ErrFailedToListQuotas
| ErrFailedToGetUsage
| ErrFailedToConvertCidr
| ApiError (msg : string)
| ErrSyntax
| ErrRange
| NumError (fn num : string) (err : error)
| Wrapf (err : error) (arg : option error).

(** [errors.Cause]: the innermost wrapped error. *)
Fixpoint Cause (e : error) : error :=
  match e with
  | Wrapf err _ => Cause err
  | _ => e
  end.

(** What a call does: it returns, or it panics with a value. *)
Inductive outcome (A : Type) : Type :=
| Returns (a : A)
| Panics (v : error).
Arguments Returns {A} a.
Arguments Panics {A} v.

(** Sequencing: a panic propagates to the caller. *)
#[export] Instance outcome_ret : MRet outcome := fun A a => Returns a.
#[export] Instance outcome_bind : MBind outcome := fun A B k m =>
  match m with
  | Returns a => k a
  | Panics v => Panics v
  end.

(** The run-time error of an out-of-range slice expression. *)
Definition sliceBoundsPanic : error := ApiError "slice bounds out of range".

(** The run-time error of dereferencing a nil pointer. *)
Definition nilDereferencePanic : error :=
  ApiError "invalid memory address or nil pointer dereference".

(** [*p], and [p.f] for a pointer [p] to a struct. *)
Definition indirect {A} (p : option A) : outcome A :=
  match p with
  | Some a => Returns a
  | None => Panics nilDereferencePanic
  end.

Fixpoint dropBytes (n : nat) (s : string) : string :=
  match n, s with
  | S k, String _ rest => dropBytes k rest
  | _, _ => s
  end.

(** The slice expression [s[i:]] on a string. *)
Definition sliceFrom (s : string) (i : Z) : outcome string :=
  if (i <? 0) || (Z.of_nat (String.length s) <? i)
  then Panics sliceBoundsPanic
  else Returns (dropBytes (Z.to_nat i) s).

(** Two's-complement wrap-around of a 64-bit signed integer. *)
Definition wrap64 (z : Z) : Z := (z + 2 ^ 63) mod 2 ^ 64 - 2 ^ 63.

Definition int_add (a b : Z) : Z := wrap64 (a + b).
Definition int_mul (a b : Z) : Z := wrap64 (a * b).
(** Go's [/] on integers truncates toward zero. *)
Definition int_div (a b : Z) : Z := wrap64 (Z.quot a b).

(** [len] of a slice. *)
Definition len {A} (l : list A) : Z := Z.of_nat (length l).

(** [float64(n)] for an integer [n]: round to nearest, ties to even. *)
Definition float64_of_int (n : Z) : float :=
  SF2Prim (binary_normalize prec emax n 0 false).

(** [math.Pow(2, y)] at an integer-valued [y]: the exact power of two. *)
Definition Pow2 (y : Z) : float := Z.ldexp 1%float y.

(** [int(f)] for a [float64]: truncation toward zero.  Outside the range of
    [int] (and for NaN) Go leaves the result to the implementation; the
    value here is the one amd64 produces. *)
Definition int_of_float64 (f : float) : Z :=
  match Prim2SF f with
  | S754_zero _ => 0
  | S754_finite sign m e =>
      let magnitude := Z.shiftl (Z.pos m) e in
      let n := if sign then - magnitude else magnitude in
      if (- 2 ^ 63 <=? n) && (n <? 2 ^ 63) then n else - 2 ^ 63
  | _ => - 2 ^ 63
  end.

(** Go's [==] on two [float64]. *)
Definition float64_eq (x y : float) : bool := PrimFloat.eqb x y.

End Go.
Export Go.

(** Package [strconv], as far as the checks use it. *)
Module strconv.

(** The digit loop of [Atoi]: [ch -= '0'; if ch > 9 { fail }; n = n*10 + ch]. *)
Fixpoint digits (n : Z) (s : string) : option Z :=
  match s with
  | EmptyString => Some n
  | String ch rest =>
      let d := Z.of_nat (nat_of_ascii ch) - 48 in
      if (0 <=? d) && (d <=? 9) then digits (n * 10 + d) rest else None
  end.

Definition isSign (ch : ascii) : bool :=
  bool_decide (ch = "-"%char) || bool_decide (ch = "+"%char).

(** [Atoi(s)]: an optional sign, then one or more decimal digits; a value
    outside [int] is a range error.  The result is Go's pair [(int, error)]. *)
Definition Atoi (s0 : string) : Z * option error :=
  let syntaxError := (0, Some (NumError "Atoi" s0 ErrSyntax)) in
  match s0 with
  | EmptyString => syntaxError
  | String c rest =>
      let s := if isSign c then rest else s0 in
      match s with
      | EmptyString => syntaxError
      | _ =>
          match digits 0 s with
          | None => syntaxError
          | Some n =>
              let n := if bool_decide (c = "-"%char) then - n else n in
              if n <? - 2 ^ 63
              then (- 2 ^ 63, Some (NumError "Atoi" s0 ErrRange))
              else if 2 ^ 63 <=? n
              then (2 ^ 63 - 1, Some (NumError "Atoi" s0 ErrRange))
              else (n, None)
          end
      end
  end.

End strconv.

(* ===================================================================== *)
(** ** Bytes, runes and the two regular expressions of tags.go *)
(* ===================================================================== *)

Module Bytes.

Definition code (c : ascii) : nat := nat_of_ascii c.

Definition between (lo hi : nat) (c : ascii) : bool :=
  (lo <=? code c)%nat && (code c <=? hi)%nat.

Definition isLower (c : ascii) : bool := between 97 122 c.
Definition isUpper (c : ascii) : bool := between 65 90 c.
Definition isDigit (c : ascii) : bool := between 48 57 c.
Definition isUnderscore (c : ascii) : bool := (code c =? 95)%nat.

(** The complement of the class [[^a-zA-Z0-9_]]. *)
Definition isLabelChar (c : ascii) : bool :=
  isLower c || isUpper c || isDigit c || isUnderscore c.

(** The class [[a-z0-9]], first group of [matchAllCap]. *)
Definition isLowerOrDigit (c : ascii) : bool := isLower c || isDigit c.

(** [unicode.ToLower] on a byte below [utf8.RuneSelf]. *)
Definition toLowerByte (c : ascii) : ascii :=
  if isUpper c then ascii_of_nat (code c + 32) else c.

(** Number of bytes [utf8.DecodeRuneInString] consumes for the rune that
    starts with byte [c] and is followed by [rest]: the table [first] and
    the [acceptRanges] of package [unicode/utf8].  An invalid or truncated
    encoding is one byte wide (it decodes to [RuneError]). *)
Definition continuation (c : ascii) : bool := between 128 191 c.

Definition runeWidth (c : ascii) (rest : string) : nat :=
  let n := code c in
  if (n <? 194)%nat then 1%nat                      (* ASCII, or invalid lead *)
  else if (n <? 224)%nat then                       (* C2..DF: two bytes *)
    match rest with
    | String c1 _ => if continuation c1 then 2%nat else 1%nat
    | _ => 1%nat
    end
  else if (n <? 240)%nat then                       (* E0..EF: three bytes *)
    match rest with
    | String c1 (String c2 _) =>
        let lo := if (n =? 224)%nat then 160%nat else 128%nat in
        let hi := if (n =? 237)%nat then 159%nat else 191%nat in
        if between lo hi c1 && continuation c2 then 3%nat else 1%nat
    | _ => 1%nat
    end
  else if (n <? 245)%nat then                       (* F0..F4: four bytes *)
    match rest with
    | String c1 (String c2 (String c3 _)) =>
        let lo := if (n =? 240)%nat then 144%nat else 128%nat in
        let hi := if (n =? 244)%nat then 143%nat else 191%nat in
        if between lo hi c1 && continuation c2 && continuation c3
        then 4%nat else 1%nat
    | _ => 1%nat
    end
  else 1%nat.                                       (* F5..FF: invalid *)

End Bytes.
Export Bytes.

Module Tags.

(** [invalidLabelCharactersRE.ReplaceAllString(s, "_")]: every rune outside
    [[a-zA-Z0-9_]] becomes one underscore.  [skip] counts the bytes of the
    rune being replaced that are still to be dropped. *)
Fixpoint replaceInvalidFrom (skip : nat) (s : string) : string :=
  match s with
  | EmptyString => EmptyString
  | String c rest =>
      match skip with
      | S k => replaceInvalidFrom k rest
      | O =>
          if isLabelChar c then String c (replaceInvalidFrom 0 rest)
          else String "_" (replaceInvalidFrom (runeWidth c rest - 1) rest)
      end
  end.

Definition replaceInvalid (s : string) : string := replaceInvalidFrom 0 s.

(** [matchAllCap.ReplaceAllString(s, "${1}_${2}")]: leftmost,
    non-overlapping matches of [([a-z0-9])([A-Z])]. *)
Fixpoint insertUnderscores (s : string) : string :=
  match s with
  | String a ((String b rest') as rest) =>
      if isLowerOrDigit a && isUpper b
      then String a (String "_" (String b (insertUnderscores rest')))
      else String a (insertUnderscores rest)
  | _ => s
  end.

(** [strings.ToLower], on the bytes below [utf8.RuneSelf]. *)
Fixpoint ToLower (s : string) : string :=
  match s with
  | EmptyString => EmptyString
  | String c rest => String (toLowerByte c) (ToLower rest)
  end.

Definition toSnakeCase (s : string) : string :=
  let snake := insertUnderscores s in
  ToLower snake.

Definition ToPrometheusNamingFormat (s : string) : string :=
  toSnakeCase (replaceInvalid s).

End Tags.
Export Tags.

(* ===================================================================== *)
(** ** service_quotas.go: the record and the interface *)
(* ===================================================================== *)

(** [QuotaUsage].  [ResourceName] is a [*string] and [Tags] a map, both
    possibly [nil]. *)
Record QuotaUsage : Type := {
  Name : string;
  ResourceName : option string;
  Description : string;
  Usage : float;
  Quota : float;
  Tags : option (gmap string string);
}.

(** The assignment [q.Quota = v] on a copy of [q]. *)
Definition setQuota (v : float) (q : QuotaUsage) : QuotaUsage :=
  {| Name := Name q; ResourceName := ResourceName q;
     Description := Description q; Usage := Usage q;
     Quota := v; Tags := Tags q |}.

Definition Identifier (q : QuotaUsage) : string :=
  match ResourceName q with
  | Some name => name
  | None => Name q
  end.

(** What [Usage() ([]QuotaUsage, error)] yields. *)
Definition usage_result : Type :=
  outcome (option (list QuotaUsage) * option error).

(** The interface [UsageCheck]: a value is its method. *)
Record UsageCheck : Type := { check_Usage : unit -> usage_result }.

(** [for _, q := range quotas] over a possibly nil slice. *)
Definition elements {A} (s : option (list A)) : list A := default [] s.

(** The package wraps every provider failure the same way. *)
Definition failedToGetUsage (err : error) : error :=
  Wrapf ErrFailedToGetUsage (Some err).

(* ===================================================================== *)
(** ** The paginated enumerator (the SDK's [...Pages] methods) *)
(* ===================================================================== *)

(** What a provider has to say to one paginated request: the pages it
    delivers, in order, and the error of the request that follows them if that
    request fails.  A page is a pointer, so it may be nil. *)
Record listing (P : Type) : Type := {
  pages : list (option P);
  failure : option error;
}.
Arguments pages {P} _.
Arguments failure {P} _.

(** A single, unpaginated call. *)
Inductive reply (A : Type) : Type :=
| Reply (a : A)
| Failure (e : error).
Arguments Reply {A} a.
Arguments Failure {A} e.

Section Enumerator.
Context {P St : Type}.
Variable fn : option P -> bool -> St -> outcome (bool * St).

(** The loop of [XxxPages(params, fn)]: [fn] gets each page and whether it
    is the last one; the walk ends when [fn] returns false, when the
    provider has no further page, or when a request fails.  The result is
    the state the callback left in its captured variables and the error
    [XxxPages] returns. *)
Fixpoint walkPages (failed : option error) (ps : list (option P)) (st : St)
  : outcome (St * option error) :=
  match ps with
  | [] => mret (st, failed)
  | page :: rest =>
      let lastPage :=
        match rest, failed with
        | [], None => true
        | _, _ => false
        end in
      '(continue, st) ← fn page lastPage st;
      if continue : bool then walkPages failed rest st else mret (st, None)
  end.

Definition Pages (src : listing P) (st : St) : outcome (St * option error) :=
  walkPages (failure src) (pages src) st.
End Enumerator.

(* ===================================================================== *)
(** ** The provider clients, as far as the checks use them *)
(* ===================================================================== *)

Module ec2.
Record Tag := { Key : string; Value : string }.
Record Filter := { Name : string; Values : list string }.
Record IpPermission := {
  IpRanges : list string;
  UserIdGroupPairs : list string;
}.
Record SecurityGroup := {
  GroupId : option string;
  sg_Tags : list Tag;
  IpPermissions : list IpPermission;
  IpPermissionsEgress : list IpPermission;
}.
Record NetworkInterface := {
  NetworkInterfaceId : option string;
  Groups : list string;
  TagSet : list Tag;
}.
Record CpuOptions := {
  CoreCount : option Z;
  ThreadsPerCore : option Z;
}.
Record Instance := {
  InstanceLifecycle : option string;
  instance_CpuOptions : CpuOptions;
}.
Record Reservation := { Instances : list Instance }.
Record Subnet := {
  SubnetId : option string;
  CidrBlock : string;
  AvailableIpAddressCount : Z;
  subnet_Tags : list Tag;
}.
Record Volume := { Size : Z; Iops : Z }.
Record Snapshot := { SnapshotId : option string }.

Record DescribeSecurityGroupsOutput := { SecurityGroups : list SecurityGroup }.
Record DescribeNetworkInterfacesOutput :=
  { NetworkInterfaces : list NetworkInterface }.
Record DescribeInstancesOutput := { Reservations : list Reservation }.
Record DescribeSubnetsOutput := { Subnets : list Subnet }.
Record DescribeVolumesOutput := { Volumes : list Volume }.
Record DescribeSnapshotsOutput := { Snapshots : list Snapshot }.

(** [ec2iface.EC2API]; a request is identified by its filters. *)
Record EC2API := {
  DescribeSecurityGroupsPages : listing DescribeSecurityGroupsOutput;
  DescribeNetworkInterfacesPages : listing DescribeNetworkInterfacesOutput;
  DescribeInstancesPages : list Filter -> listing DescribeInstancesOutput;
  DescribeSubnetsPages : listing DescribeSubnetsOutput;
  DescribeVolumesPages : list Filter -> listing DescribeVolumesOutput;
  DescribeSnapshotsPages : listing DescribeSnapshotsOutput;
}.
End ec2.

Module ecr.
Record Repository := { RepositoryName : option string }.
Record ImageIdentifier := { ImageDigest : option string }.
Record DescribeRepositoriesOutput := { Repositories : list Repository }.
Record ListImagesOutput := { ImageIds : list ImageIdentifier }.
Record ECRAPI := {
  DescribeRepositoriesPages : listing DescribeRepositoriesOutput;
  ListImagesPages : option string -> listing ListImagesOutput;
}.
End ecr.

Module cloudwatchlogs.
Record LogGroup := { LogGroupName : option string }.
Record DescribeLogGroupsOutput := { LogGroups : list LogGroup }.
Record CloudWatchLogsAPI := {
  DescribeLogGroupsPages : listing DescribeLogGroupsOutput;
}.
End cloudwatchlogs.

Module sesv2.
Record SendQuota := { SentLast24Hours : float; Max24HourSend : float }.
Record GetAccountOutput := { output_SendQuota : SendQuota }.
Record SESV2API := { GetAccount : reply GetAccountOutput }.
End sesv2.

Module rds.
Record DBClusterMember := { IsClusterWriter : bool }.
Record DBCluster := {
  DBClusterIdentifier : option string;
  DBClusterMembers : list DBClusterMember;
}.
Record DBInstance := { AllocatedStorage : Z }.
Record DescribeDBClustersOutput := { DBClusters : list DBCluster }.
Record DescribeDBInstancesOutput := { DBInstances : list DBInstance }.
Record RDSAPI := {
  DescribeDBClustersPages : listing DescribeDBClustersOutput;
  DescribeDBInstancesPages : listing DescribeDBInstancesOutput;
}.
End rds.

Module kinesisanalyticsv2.
Record ApplicationSummary := { ApplicationName : option string }.
Record ListApplicationsOutput :=
  { ApplicationSummaries : list ApplicationSummary }.
(** The chain [DescribeApplication] answers with: every link is a pointer,
    and an application that is not a Flink application has no Flink
    description. *)
Record ParallelismConfigurationDescription := {
  CurrentParallelism : option Z;
}.
Record FlinkApplicationConfigurationDescription := {
  flink_ParallelismConfigurationDescription :
    option ParallelismConfigurationDescription;
}.
Record ApplicationConfigurationDescription := {
  config_FlinkApplicationConfigurationDescription :
    option FlinkApplicationConfigurationDescription;
}.
Record ApplicationDetail := {
  detail_ApplicationName : option string;
  detail_ApplicationConfigurationDescription :
    option ApplicationConfigurationDescription;
}.
Record DescribeApplicationOutput := {
  output_ApplicationDetail : option ApplicationDetail;
}.
(** [ListApplications] is paged by hand with [NextToken].  What the
    provider answers to the first request and to the requests that follow
    it: a reply without a token, a reply with a token (and then the answer
    to the request made with that token), or an error. *)
Inductive replies : Type :=
| Last (apps : ListApplicationsOutput)
| More (apps : ListApplicationsOutput) (next : replies)
| Fails (err : error).
(** [DescribeApplication] is keyed by the application name. *)
Record KinesisAnalyticsV2API := {
  ListApplications : replies;
  DescribeApplication : option string -> reply DescribeApplicationOutput;
}.
End kinesisanalyticsv2.

Module redshift.
Record Snapshot := { SnapshotIdentifier : option string }.
Record DescribeClusterSnapshotsOutput := { Snapshots : list Snapshot }.
(** [redshiftiface.RedshiftAPI]; a request is identified by its snapshot
    type. *)
Record RedshiftAPI := {
  DescribeClusterSnapshotsPages :
    option string -> listing DescribeClusterSnapshotsOutput;
}.
End redshift.

(** The part of the heap the Glue client's replies point into. *)
Module Store.
(** A [*string]: nil or the address of a cell. *)
Abbreviation ptr := (option nat).
Abbreviation store := (list string).

(** [aws.String(v)]: a new cell, at an address no live pointer has. *)
Definition String_ (v : string) (m : store) : ptr * store :=
  (Some (length m), m ++ [v]).

(** [p == q] on two pointers. *)
Definition ptr_eq (p q : ptr) : bool := bool_decide (p = q).

(** [*p] *)
Definition deref (m : store) (p : ptr) : option string :=
  match p with
  | Some a => m !! a
  | None => None
  end.

(** Everything a reply points to was allocated before the reply is read. *)
Definition allocated (m : store) (p : ptr) : Prop :=
  match p with
  | Some a => (a < length m)%nat
  | None => True
  end.
End Store.
Export Store.

Module glue.
Definition JobRunStateRunning : string := "RUNNING".

(** An action starts a job or a crawler: [JobName] is nil for a crawler. *)
Record Action := { JobName : option string }.
Record Trigger := { trigger_Name : option string; Actions : list Action }.
Record ExecutionProperty := { MaxConcurrentRuns : Z }.
Record Job := {
  job_Name : option string;
  job_ExecutionProperty : ExecutionProperty;
  MaxCapacity : float;
}.
Record JobRun := { JobRunState : ptr }.

Record ListTriggersOutput := { TriggerNames : list (option string) }.
Record BatchGetTriggersOutput := { Triggers : list Trigger }.
Record ListJobsOutput := { JobNames : list (option string) }.
Record GetJobsOutput := { Jobs : list Job }.
Record GetJobRunsOutput := { JobRuns : list JobRun }.

Record GlueAPI := {
  ListTriggersPages : listing ListTriggersOutput;
  BatchGetTriggers : list (option string) -> reply BatchGetTriggersOutput;
  ListJobsPages : listing ListJobsOutput;
  GetJobsPages : listing GetJobsOutput;
  GetJobRunsPages : option string -> listing GetJobRunsOutput;
}.
End glue.

Module servicequotas.
Record ServiceQuota := { QuotaCode : string; Value : float }.
Record ListServiceQuotasOutput := { Quotas : list ServiceQuota }.
(** [servicequotasiface.ServiceQuotasAPI]; a request is identified by its
    [ServiceCode]. *)
Record ServiceQuotasAPI := {
  ListServiceQuotasPages : string -> listing ListServiceQuotasOutput;
  ListAWSDefaultServiceQuotasPages : string -> listing ListServiceQuotasOutput;
}.
End servicequotas.

(* ===================================================================== *)
(** ** The EC2 usage checks *)
(* ===================================================================== *)

Section Names.
Local Open Scope string_scope.

Definition inboundRulesPerSecGrpName := "inbound_rules_per_security_group".
Definition inboundRulesPerSecGrpDesc := "inbound rules per security group".
Definition outboundRulesPerSecGrpName := "outbound_rules_per_security_group".
Definition outboundRulesPerSecGrpDesc := "outbound rules per security group".
Definition eNIsPerRegionName := "enis_per_region".
Definition eNIsPerRegionDescription := "ENIs per region".
Definition secGroupsPerENIName := "security_groups_per_network_interface".
Definition secGroupsPerENIDesc := "security groups per network interface".
Definition securityGroupsPerRegionName := "security_groups_per_region".
Definition securityGroupsPerRegionDesc := "security groups per region".
Definition spotInstanceRequestsName := "spot_instance_requests".
Definition spotInstanceRequestsDesc := "spot instance requests".
Definition onDemandInstanceRequestsName := "ondemand_instance_requests".
Definition onDemandInstanceRequestsDesc := "ondemand instance requests".
Definition availableIPsPerSubnetName := "available_ips_per_subnet".
Definition availableIPsPerSubnetDesc := "available IPs per subnet".
Definition maxGp3StoragePerRegionName := "gp3_storage_per_region".
Definition maxGp3StoragePerRegionDescription := "GP3 storage per region".
Definition maxGp2StoragePerRegionName := "gp2_storage_per_region".
Definition maxGp2StoragePerRegionDescription := "GP2 storage per region".
Definition maxIo1StoragePerRegionName := "io1_storage_per_region".
Definition maxIo1StoragePerRegionDescription := "IO1 storage per region".
Definition maxIo2StoragePerRegionName := "io2_storage_per_region".
Definition maxIo2StoragePerRegionDescription := "IO2 storage per region".
Definition maxSt1StoragePerRegionName := "st1_storage_per_region".
Definition maxSt1StoragePerRegionDescription := "ST1 storage per region".
Definition maxStandardStoragePerRegionName := "standard_storage_per_region".
Definition maxStandardStoragePerRegionDescription :=
  "standard storage per region".
Definition maxSc1StoragePerRegionName := "sc1_storage_per_region".
Definition maxSc1StoragePerRegionDescription := "SC1 storage per region".
Definition ebsSnapshotsPerRegionName := "ebs_snapshots_per_region".
Definition ebsSnapshotsPerRegionDescription := "EBS snapshots per region".
Definition maxIo2IopsPerRegionName := "total_io2_iops_per_region".
Definition maxIo2IopsPerRegionDescription := "total IO2 IOPS per region".
Definition maxIo1IopsPerRegionName := "total_io1_iops_per_region".
Definition maxIo1IopsPerRegionDescription := "total IO1 IOPS per region".

Definition repositoriesPerRegionName := "repositories_per_region".
Definition repositoriesPerRegionDescription := "repositories per region".
Definition imagesPerRepositoryName := "images_per_repository".
Definition imagesPerRepositoryDescription := "images per repository".

Definition logGroupsPerRegionName := "log_groups_per_region".
Definition logGroupsPerRegionDescription := "log groups per region".

Definition maxSendIn24HoursName := "max_send_in_24_hours".
Definition maxSendIn24HoursDescription := "max send in 24 hours".

Definition numReadReplicasPerMasterName := "read_replicas_per_master".
Definition numReadReplicasPerMasterDescription := "read replicas per master".
Definition MaxTotalStorageCheckName := "max_total_storage".
Definition MaxTotalStorageCheckDescription := "max total storage".

Definition flinkKPUsPerAppName := "kpus_per_flink_app".
Definition flinkKPUsPerAppDescription := "KPUs per flink app".
Definition appsPerRegionName := "apps_per_region".
Definition appsPerRegionDescription := "apps per region".

Definition jobsPerTriggerName := "glue_jobs_per_trigger".
Definition jobsPerTriggerDescription := "glue jobs per trigger".
Definition jobsName := "glue_jobs_per_account".
Definition jobsDescription := "glue jobs per account".
Definition concurrentRunsPerJobName := "concurrent_runs_per_glue_job".
Definition concurrentRunsPerJobDescription := "concurrent runs per glue job".
Definition dPUsName := "dpus_per_account".
Definition dPUsDescription := "DPUs per account".
Definition concurrentRunsName := "concurrent_running_glue_jobs".
Definition concurrentRunsDescription := "concurrent running glue jobs".

Definition userSnapshotsPerRegionName := "user_snapshots_per_region".
Definition userSnapshotsPerRegionDescription := "user snapshots per region".
End Names.

(** The usual ending of a check: wrap the enumeration's error, or return the
    records. *)
Definition finish (err : option error) (quotaUsages : list QuotaUsage)
  : usage_result :=
  match err with
  | Some err => mret (None, Some (failedToGetUsage err))
  | None => mret (Some quotaUsages, None)
  end.

(** A callback that cannot panic and leaves the walk to [lastPage]:
    [if page != nil { body }; return !lastPage]. *)
Definition perPage {P St} (body : P -> St -> St)
  : option P -> bool -> St -> outcome (bool * St) :=
  fun page lastPage st =>
    match page with
    | Some page => mret (negb lastPage, body page st)
    | None => mret (negb lastPage, st)
    end.

(** The other idiom of the package, word for word in
    [AvailableIpsPerSubnetUsageCheck.Usage], [quotasForService] and
    [defaultsForService]: the callback loops over the items of the page; an
    item either contributes records, which are appended to the captured
    slice, or fails, and then the callback stores the error in the captured
    error variable and returns [true] at once (so the walk goes on with the
    next page, if there is one). *)
Section CapturedError.
Context {P A : Type}.
Variable items : P -> list A.
Variable step : A -> outcome (list QuotaUsage + error).

(** The loop over the items of one page.  The boolean tells whether the
    callback returned from inside the loop. *)
Fixpoint eachItem (xs : list A) (st : list QuotaUsage * option error)
  : outcome (bool * (list QuotaUsage * option error)) :=
  match xs with
  | [] => mret (false, st)
  | x :: rest =>
      let '(collected, captured) := st in
      r ← step x;
      match r with
      | inr err => mret (true, (collected, Some err))
      | inl records => eachItem rest (collected ++ records, captured)
      end
  end.

Definition eachPage (page : option P) (lastPage : bool)
  (st : list QuotaUsage * option error)
  : outcome (bool * (list QuotaUsage * option error)) :=
  match page with
  | Some page =>
      '(returned, st) ← eachItem (items page) st;
      if returned : bool then mret (true, st) else mret (negb lastPage, st)
  | None => mret (negb lastPage, st)
  end.
End CapturedError.

Definition ec2TagsToQuotaUsageTags (tags : list ec2.Tag)
  : option (gmap string string) :=
  let length := len tags in
  if length =? 0 then None
  else
    Some (foldl (fun out tag =>
                   <[ToPrometheusNamingFormat (ec2.Key tag) := ec2.Value tag]> out)
                ∅ tags).

Definition RulesPerSecurityGroupUsageCheck_Usage (client : ec2.EC2API)
  : usage_result :=
  let quotaUsages : list QuotaUsage := [] in
  '(quotaUsages, err) ← Pages
    (perPage (fun page quotaUsages =>
       foldl (fun quotaUsages group =>
         let inboundRules := 0 in
         let outboundRules := 0 in
         let tags := ec2TagsToQuotaUsageTags (ec2.sg_Tags group) in
         let inboundRules :=
           foldl (fun inboundRules rule =>
                    let inboundRules :=
                      int_add inboundRules (len (ec2.IpRanges rule)) in
                    int_add inboundRules (len (ec2.UserIdGroupPairs rule)))
                 inboundRules (ec2.IpPermissions group) in
         let inboundUsage :=
           {| Name := inboundRulesPerSecGrpName;
              ResourceName := ec2.GroupId group;
              Description := inboundRulesPerSecGrpDesc;
              Usage := float64_of_int inboundRules;
              Quota := 0;
              Tags := tags |} in
         let '(outboundRules, inboundRules) :=
           foldl (fun '(outboundRules, inboundRules) rule =>
                    (int_add outboundRules (len (ec2.IpRanges rule)),
                     int_add inboundRules (len (ec2.UserIdGroupPairs rule))))
                 (outboundRules, inboundRules) (ec2.IpPermissionsEgress group) in
         let outboundUsage :=
           {| Name := outboundRulesPerSecGrpName;
              ResourceName := ec2.GroupId group;
              Description := outboundRulesPerSecGrpDesc;
              Usage := float64_of_int outboundRules;
              Quota := 0;
              Tags := tags |} in
         quotaUsages ++ [inboundUsage; outboundUsage])
       quotaUsages (ec2.SecurityGroups page)))
    (ec2.DescribeSecurityGroupsPages client) quotaUsages;
  finish err quotaUsages.

Definition SecurityGroupsPerENIUsageCheck_Usage (client : ec2.EC2API)
  : usage_result :=
  let quotaUsages : list QuotaUsage := [] in
  '(quotaUsages, err) ← Pages
    (perPage (fun page quotaUsages =>
       foldl (fun quotaUsages eni =>
         let usage :=
           {| Name := secGroupsPerENIName;
              ResourceName := ec2.NetworkInterfaceId eni;
              Description := secGroupsPerENIDesc;
              Usage := float64_of_int (len (ec2.Groups eni));
              Quota := 0;
              Tags := ec2TagsToQuotaUsageTags (ec2.TagSet eni) |} in
         quotaUsages ++ [usage])
       quotaUsages (ec2.NetworkInterfaces page)))
    (ec2.DescribeNetworkInterfacesPages client) quotaUsages;
  finish err quotaUsages.

Definition SecurityGroupsPerRegionUsageCheck_Usage (client : ec2.EC2API)
  : usage_result :=
  let numGroups := 0 in
  '(numGroups, err) ← Pages
    (perPage (fun page numGroups =>
       int_add numGroups (len (ec2.SecurityGroups page))))
    (ec2.DescribeSecurityGroupsPages client) numGroups;
  let usage :=
    [ {| Name := securityGroupsPerRegionName;
         ResourceName := None;
         Description := securityGroupsPerRegionDesc;
         Usage := float64_of_int numGroups;
         Quota := 0;
         Tags := None |} ] in
  finish err usage.

Definition standardInstanceTypeFilter : ec2.Filter :=
  {| ec2.Name := "instance-type";
     ec2.Values := ["a*"; "c*"; "d*"; "h*"; "i*"; "m*"; "r*"; "t*"; "z*"]%string |}.

Definition activeInstanceFilter : ec2.Filter :=
  {| ec2.Name := "instance-state-name";
     ec2.Values := ["pending"; "running"]%string |}.

(** Returns Go's pair [(int64, error)]. *)
Definition standardInstancesCPUs (ec2Service : ec2.EC2API) (spotInstances : bool)
  : outcome (Z * option error) :=
  let totalvCPUs := 0 in
  let instanceTypeFilter := standardInstanceTypeFilter in
  let instanceStateFilter := activeInstanceFilter in
  let filters := [instanceTypeFilter; instanceStateFilter] in
  let filters :=
    if spotInstances then
      let spotFilter :=
        {| ec2.Name := "instance-lifecycle"; ec2.Values := ["spot"%string] |} in
      filters ++ [spotFilter]
    else filters in
  '(totalvCPUs, err) ← Pages
    (perPage (fun page totalvCPUs =>
       foldl (fun totalvCPUs reservation =>
         foldl (fun totalvCPUs instance =>
           if negb spotInstances
              && bool_decide (ec2.InstanceLifecycle instance ≠ None)
           then totalvCPUs
           else
             let cpuOptions := ec2.instance_CpuOptions instance in
             match ec2.CoreCount cpuOptions, ec2.ThreadsPerCore cpuOptions with
             | Some coreCount, Some threadsPerCore =>
                 let numvCPUs := int_mul coreCount threadsPerCore in
                 int_add totalvCPUs numvCPUs
             | _, _ => totalvCPUs
             end)
           totalvCPUs (ec2.Instances reservation))
         totalvCPUs (ec2.Reservations page)))
    (ec2.DescribeInstancesPages ec2Service filters) totalvCPUs;
  match err with
  | Some err => mret (0, Some err)
  | None => mret (totalvCPUs, None)
  end.

Definition StandardSpotInstanceRequestsUsageCheck_Usage (client : ec2.EC2API)
  : usage_result :=
  '(cpus, err) ← standardInstancesCPUs client true;
  let usage :=
    [ {| Name := spotInstanceRequestsName;
         ResourceName := None;
         Description := spotInstanceRequestsDesc;
         Usage := float64_of_int cpus;
         Quota := 0;
         Tags := None |} ] in
  finish err usage.

Definition RunningOnDemandStandardInstancesUsageCheck_Usage
  (client : ec2.EC2API) : usage_result :=
  '(cpus, err) ← standardInstancesCPUs client false;
  let usage :=
    [ {| Name := onDemandInstanceRequestsName;
         ResourceName := None;
         Description := onDemandInstanceRequestsDesc;
         Usage := float64_of_int cpus;
         Quota := 0;
         Tags := None |} ] in
  finish err usage.

(** The body of the subnet loop of [AvailableIpsPerSubnetUsageCheck.Usage],
    one subnet: the record to append, or the conversion error; the slice
    expression panics on a block shorter than two bytes. *)
Definition availabilityInfo (subnet : ec2.Subnet)
  : outcome (list QuotaUsage + error) :=
  let cidrBlock := ec2.CidrBlock subnet in
  suffix ← sliceFrom cidrBlock (Z.of_nat (String.length cidrBlock) - 2);
  let '(blockedBits, err) := strconv.Atoi suffix in
  match err with
  | Some err => mret (inr (Wrapf ErrFailedToConvertCidr (Some err)))
  | None =>
      let maxNumOfIPs := Pow2 (32 - blockedBits) in
      let usage :=
        (maxNumOfIPs - float64_of_int (ec2.AvailableIpAddressCount subnet))%float in
      let availabilityInfo :=
        {| Name := availableIPsPerSubnetName;
           ResourceName := ec2.SubnetId subnet;
           Description := availableIPsPerSubnetDesc;
           Usage := usage;
           Quota := maxNumOfIPs;
           Tags := ec2TagsToQuotaUsageTags (ec2.subnet_Tags subnet) |} in
      mret (inl [availabilityInfo])
  end.

Definition AvailableIpsPerSubnetUsageCheck_Usage (client : ec2.EC2API)
  : usage_result :=
  let availabilityInfos : list QuotaUsage := [] in
  let conversionErr : option error := None in
  '(st, err) ← Pages (eachPage ec2.Subnets availabilityInfo)
    (ec2.DescribeSubnetsPages client) (availabilityInfos, conversionErr);
  let '(availabilityInfos, conversionErr) := st in
  match err with
  | Some err => mret (None, Some (failedToGetUsage err))
  | None =>
      match conversionErr with
      | Some conversionErr => mret (None, Some conversionErr)
      | None => mret (Some availabilityInfos, None)
      end
  end.

Definition volumeTypeFilter (volumeType : string) : list ec2.Filter :=
  [ {| ec2.Name := "volume-type"; ec2.Values := [volumeType] |} ].

(** The seven [Max...StoragePerRegionCheck.Usage] methods have one body and
    differ in the volume type and in the two names. *)
Definition storagePerRegion (volumeType name description : string)
  (client : ec2.EC2API) : usage_result :=
  let quotaUsages : list QuotaUsage := [] in
  let totalStorageCount := 0 in
  '(totalStorageCount, err) ← Pages
    (perPage (fun page totalStorageCount =>
       foldl (fun totalStorageCount vol =>
                int_add totalStorageCount (ec2.Size vol))
             totalStorageCount (ec2.Volumes page)))
    (ec2.DescribeVolumesPages client (volumeTypeFilter volumeType))
    totalStorageCount;
  let usage :=
    {| Name := name;
       ResourceName := None;
       Description := description;
       Usage := float64_of_int (int_div totalStorageCount 1024);
       Quota := 0;
       Tags := None |} in
  finish err (quotaUsages ++ [usage]).

Definition MaxGP2StoragePerRegionCheck_Usage :=
  storagePerRegion "gp2" maxGp2StoragePerRegionName
                   maxGp2StoragePerRegionDescription.
Definition MaxIo1StoragePerRegionCheck_Usage :=
  storagePerRegion "io1" maxIo1StoragePerRegionName
                   maxIo1StoragePerRegionDescription.
Definition MaxIo2StoragePerRegionCheck_Usage :=
  storagePerRegion "io2" maxIo2StoragePerRegionName
                   maxIo2StoragePerRegionDescription.
Definition MaxGP3StoragePerRegionCheck_Usage :=
  storagePerRegion "gp3" maxGp3StoragePerRegionName
                   maxGp3StoragePerRegionDescription.
Definition MaxSt1StoragePerRegionCheck_Usage :=
  storagePerRegion "st1" maxSt1StoragePerRegionName
                   maxSt1StoragePerRegionDescription.
Definition MaxStandardStoragePerRegionCheck_Usage :=
  storagePerRegion "standard" maxStandardStoragePerRegionName
                   maxStandardStoragePerRegionDescription.
Definition MaxSc1StoragePerRegionCheck_Usage :=
  storagePerRegion "sc1" maxSc1StoragePerRegionName
                   maxSc1StoragePerRegionDescription.

Definition EbsSnapshotsPerRegionCheck_Usage (client : ec2.EC2API)
  : usage_result :=
  let quotaUsages : list QuotaUsage := [] in
  let totalSnapshotsCount := 0 in
  '(totalSnapshotsCount, err) ← Pages
    (perPage (fun page totalSnapshotsCount =>
       int_add totalSnapshotsCount (len (ec2.Snapshots page))))
    (ec2.DescribeSnapshotsPages client) totalSnapshotsCount;
  let usage :=
    {| Name := ebsSnapshotsPerRegionName;
       ResourceName := None;
       Description := ebsSnapshotsPerRegionDescription;
       Usage := float64_of_int totalSnapshotsCount;
       Quota := 0;
       Tags := None |} in
  finish err (quotaUsages ++ [usage]).

(** [MaxIo2IopsPerRegionCheck.Usage] and [MaxIo1IopsPerRegionCheck.Usage]. *)
Definition iopsPerRegion (volumeType name description : string)
  (client : ec2.EC2API) : usage_result :=
  let quotaUsages : list QuotaUsage := [] in
  let totalIopsCount := 0 in
  '(totalIopsCount, err) ← Pages
    (perPage (fun page totalIopsCount =>
       foldl (fun totalIopsCount vol => int_add totalIopsCount (ec2.Iops vol))
             totalIopsCount (ec2.Volumes page)))
    (ec2.DescribeVolumesPages client (volumeTypeFilter volumeType))
    totalIopsCount;
  let usage :=
    {| Name := name;
       ResourceName := None;
       Description := description;
       Usage := float64_of_int totalIopsCount;
       Quota := 0;
       Tags := None |} in
  finish err (quotaUsages ++ [usage]).

Definition MaxIo2IopsPerRegionCheck_Usage :=
  iopsPerRegion "io2" maxIo2IopsPerRegionName maxIo2IopsPerRegionDescription.
Definition MaxIo1IopsPerRegionCheck_Usage :=
  iopsPerRegion "io1" maxIo1IopsPerRegionName maxIo1IopsPerRegionDescription.

Definition ENIsPerRegionCheck_Usage (client : ec2.EC2API) : usage_result :=
  let quotaUsages : list QuotaUsage := [] in
  let totalENIsCount := 0 in
  '(totalENIsCount, err) ← Pages
    (perPage (fun page totalENIsCount =>
       let pageENICount := len (ec2.NetworkInterfaces page) in
       int_add totalENIsCount pageENICount))
    (ec2.DescribeNetworkInterfacesPages client) totalENIsCount;
  let usage :=
    {| Name := eNIsPerRegionName;
       ResourceName := None;
       Description := eNIsPerRegionDescription;
       Usage := float64_of_int totalENIsCount;
       Quota := 0;
       Tags := None |} in
  finish err (quotaUsages ++ [usage]).

(* ===================================================================== *)
(** ** ecr_limits.go *)
(* ===================================================================== *)

(** The record is built and appended inside the page callback. *)
Definition RepositoriesPerRegionCheck_Usage (client : ecr.ECRAPI)
  : usage_result :=
  let quotaUsages : list QuotaUsage := [] in
  let repositoryCount := 0 in
  '(st, err) ← Pages
    (perPage (fun page '(quotaUsages, repositoryCount) =>
       let repositoryCount :=
         int_add repositoryCount (len (ecr.Repositories page)) in
       let usage :=
         {| Name := repositoriesPerRegionName;
            ResourceName := None;
            Description := repositoriesPerRegionDescription;
            Usage := float64_of_int repositoryCount;
            Quota := 0;
            Tags := None |} in
       (quotaUsages ++ [usage], repositoryCount)))
    (ecr.DescribeRepositoriesPages client) (quotaUsages, repositoryCount);
  let '(quotaUsages, _) := st in
  finish err quotaUsages.

(** The second pass of [ImagesPerRepositoryCheck.Usage]: one enumeration per
    repository, the first failure returns. *)
Fixpoint imagesPerRepository (client : ecr.ECRAPI)
  (listOfRepositories : list (option string)) (quotaUsages : list QuotaUsage)
  : usage_result :=
  match listOfRepositories with
  | [] => mret (Some quotaUsages, None)
  | repo :: rest =>
      let imageCount := 0 in
      '(imageCount, listOfImagesErr) ← Pages
        (perPage (fun page imageCount =>
           int_add imageCount (len (ecr.ImageIds page))))
        (ecr.ListImagesPages client repo) imageCount;
      match listOfImagesErr with
      | Some listOfImagesErr =>
          mret (None, Some (failedToGetUsage listOfImagesErr))
      | None =>
          let usage :=
            [ {| Name := imagesPerRepositoryName;
                 ResourceName := repo;
                 Description := imagesPerRepositoryDescription;
                 Usage := float64_of_int imageCount;
                 Quota := 0;
                 Tags := None |} ] in
          imagesPerRepository client rest (quotaUsages ++ usage)
      end
  end.

Definition ImagesPerRepositoryCheck_Usage (client : ecr.ECRAPI)
  : usage_result :=
  let quotaUsages : list QuotaUsage := [] in
  let listOfRepositories : list (option string) := [] in
  '(listOfRepositories, listOfRepositoriesErr) ← Pages
    (perPage (fun page listOfRepositories =>
       foldl (fun listOfRepositories repo =>
                listOfRepositories ++ [ecr.RepositoryName repo])
             listOfRepositories (ecr.Repositories page)))
    (ecr.DescribeRepositoriesPages client) listOfRepositories;
  match listOfRepositoriesErr with
  | Some listOfRepositoriesErr =>
      mret (None, Some (failedToGetUsage listOfRepositoriesErr))
  | None => imagesPerRepository client listOfRepositories quotaUsages
  end.

(* ===================================================================== *)
(** ** logs_limits.go *)
(* ===================================================================== *)

Definition LogGroupsPerRegionCheck_Usage
  (client : cloudwatchlogs.CloudWatchLogsAPI) : usage_result :=
  let quotaUsages : list QuotaUsage := [] in
  let totalLogGroupsCount := 0 in
  '(totalLogGroupsCount, err) ← Pages
    (perPage (fun page totalLogGroupsCount =>
       let pageLogGroupsCount := len (cloudwatchlogs.LogGroups page) in
       int_add totalLogGroupsCount pageLogGroupsCount))
    (cloudwatchlogs.DescribeLogGroupsPages client) totalLogGroupsCount;
  let usage :=
    {| Name := logGroupsPerRegionName;
       ResourceName := None;
       Description := logGroupsPerRegionDescription;
       Usage := float64_of_int totalLogGroupsCount;
       Quota := 0;
       Tags := None |} in
  finish err (quotaUsages ++ [usage]).

(* ===================================================================== *)
(** ** ses_limits.go *)
(* ===================================================================== *)

Definition MaxSendIn24HoursCheck_Usage (client : sesv2.SESV2API)
  : usage_result :=
  let quotaUsages : list QuotaUsage := [] in
  match sesv2.GetAccount client with
  | Failure err => mret (None, Some (failedToGetUsage err))
  | Reply response =>
      let usage :=
        {| Name := maxSendIn24HoursName;
           ResourceName := None;
           Description := maxSendIn24HoursDescription;
           Usage := sesv2.SentLast24Hours (sesv2.output_SendQuota response);
           Quota := sesv2.Max24HourSend (sesv2.output_SendQuota response);
           Tags := None |} in
      mret (Some (quotaUsages ++ [usage]), None)
  end.

(* ===================================================================== *)
(** ** The RDS usage checks *)
(* ===================================================================== *)

Definition ReadReplicasPerMasterCheck_Usage (client : rds.RDSAPI)
  : usage_result :=
  let quotaUsages : list QuotaUsage := [] in
  '(quotaUsages, err) ← Pages
    (perPage (fun page quotaUsages =>
       foldl (fun quotaUsages group =>
         let readReplicas :=
           foldl (fun readReplicas clusterMember =>
                    if negb (rds.IsClusterWriter clusterMember)
                    then int_add readReplicas 1 else readReplicas)
                 0 (rds.DBClusterMembers group) in
         let usage :=
           {| Name := numReadReplicasPerMasterName;
              ResourceName := rds.DBClusterIdentifier group;
              Description := numReadReplicasPerMasterDescription;
              Usage := float64_of_int readReplicas;
              Quota := 0;
              Tags := None |} in
         quotaUsages ++ [usage])
       quotaUsages (rds.DBClusters page)))
    (rds.DescribeDBClustersPages client) quotaUsages;
  finish err quotaUsages.

Definition MaxTotalStorageCheck_Usage (client : rds.RDSAPI) : usage_result :=
  let quotasUsage : list QuotaUsage := [] in
  let totalStorageCount := 0 in
  '(totalStorageCount, err) ← Pages
    (perPage (fun page totalStorageCount =>
       foldl (fun totalStorageCount instance =>
                int_add totalStorageCount (rds.AllocatedStorage instance))
             totalStorageCount (rds.DBInstances page)))
    (rds.DescribeDBInstancesPages client) totalStorageCount;
  let usage :=
    {| Name := MaxTotalStorageCheckName;
       ResourceName := None;
       Description := MaxTotalStorageCheckDescription;
       Usage := float64_of_int totalStorageCount;
       Quota := 0;
       Tags := None |} in
  finish err (quotasUsage ++ [usage]).

(* ===================================================================== *)
(** ** The Kinesis Data Analytics usage checks *)
(* ===================================================================== *)

(** The loop over one page's applications: the first
    [DescribeApplication] that fails returns from [Usage]; a reply with a
    nil link in the chain down to [CurrentParallelism] panics. *)
Fixpoint appKPUs_page (client : kinesisanalyticsv2.KinesisAnalyticsV2API)
  (apps : list kinesisanalyticsv2.ApplicationSummary)
  (quotaUsages : list QuotaUsage) : outcome (list QuotaUsage + error) :=
  match apps with
  | [] => mret (inl quotaUsages)
  | app :: rest =>
      match kinesisanalyticsv2.DescribeApplication client
              (kinesisanalyticsv2.ApplicationName app) with
      | Failure err => mret (inr (failedToGetUsage err))
      | Reply response =>
          detail ← indirect (kinesisanalyticsv2.output_ApplicationDetail response);
          config ← indirect
            (kinesisanalyticsv2.detail_ApplicationConfigurationDescription detail);
          flink ← indirect
            (kinesisanalyticsv2.config_FlinkApplicationConfigurationDescription
               config);
          parallelism ← indirect
            (kinesisanalyticsv2.flink_ParallelismConfigurationDescription flink);
          currentParallelism ← indirect
            (kinesisanalyticsv2.CurrentParallelism parallelism);
          let usage :=
            {| Name := flinkKPUsPerAppName;
               ResourceName := kinesisanalyticsv2.detail_ApplicationName detail;
               Description := flinkKPUsPerAppDescription;
               Usage := float64_of_int (int_add currentParallelism 1);
               Quota := 0;
               Tags := None |} in
          appKPUs_page client rest (quotaUsages ++ [usage])
      end
  end.

(** The [for repeat != false] loop, entered with the reply to a request. *)
Fixpoint appKPUs_loop (client : kinesisanalyticsv2.KinesisAnalyticsV2API)
  (apps : kinesisanalyticsv2.replies) (quotaUsages : list QuotaUsage)
  : usage_result :=
  match apps with
  | kinesisanalyticsv2.Fails err => mret (None, Some (failedToGetUsage err))
  | kinesisanalyticsv2.Last apps =>
      walked ← appKPUs_page client
                 (kinesisanalyticsv2.ApplicationSummaries apps) quotaUsages;
      match walked with
      | inr err => mret (None, Some err)
      | inl quotaUsages => mret (Some quotaUsages, None)
      end
  | kinesisanalyticsv2.More apps next =>
      walked ← appKPUs_page client
                 (kinesisanalyticsv2.ApplicationSummaries apps) quotaUsages;
      match walked with
      | inr err => mret (None, Some err)
      | inl quotaUsages => appKPUs_loop client next quotaUsages
      end
  end.

Definition AppKPUUsageCheck_Usage
  (client : kinesisanalyticsv2.KinesisAnalyticsV2API) : usage_result :=
  let quotaUsages : list QuotaUsage := [] in
  appKPUs_loop client (kinesisanalyticsv2.ListApplications client) quotaUsages.

(** The loop of [AppsPerRegionCheck.Usage]: the total, or the error of the
    request that failed. *)
Fixpoint appsPerRegion_loop (apps : kinesisanalyticsv2.replies)
  (totalAppsCount : Z) : Z + error :=
  match apps with
  | kinesisanalyticsv2.Fails err => inr (failedToGetUsage err)
  | kinesisanalyticsv2.Last apps =>
      inl (int_add totalAppsCount
                   (len (kinesisanalyticsv2.ApplicationSummaries apps)))
  | kinesisanalyticsv2.More apps next =>
      appsPerRegion_loop next
        (int_add totalAppsCount
                 (len (kinesisanalyticsv2.ApplicationSummaries apps)))
  end.

Definition AppsPerRegionCheck_Usage
  (client : kinesisanalyticsv2.KinesisAnalyticsV2API) : usage_result :=
  let quotaUsages : list QuotaUsage := [] in
  let totalAppsCount := 0 in
  match appsPerRegion_loop (kinesisanalyticsv2.ListApplications client)
                           totalAppsCount with
  | inr err => mret (None, Some err)
  | inl totalAppsCount =>
      let quota :=
        {| Name := appsPerRegionName;
           ResourceName := None;
           Description := appsPerRegionDescription;
           Usage := float64_of_int totalAppsCount;
           Quota := 0;
           Tags := None |} in
      mret (Some (quotaUsages ++ [quota]), None)
  end.

(* ===================================================================== *)
(** ** glue_limits.go *)
(* ===================================================================== *)

(** The loop over the actions of one trigger: [*action.JobName]
    dereferences the job name. *)
Fixpoint jobsPerTrigger_actions (actions : list glue.Action) (jobsTriggered : Z)
  : outcome Z :=
  match actions with
  | [] => mret jobsTriggered
  | action :: rest =>
      jobName ← indirect (glue.JobName action);
      jobsPerTrigger_actions rest
        (if bool_decide (jobName ≠ ""%string)
         then int_add jobsTriggered 1 else jobsTriggered)
  end.

(** The loop over the triggers [BatchGetTriggers] answered with. *)
Fixpoint jobsPerTrigger_triggers (triggers : list glue.Trigger)
  (quotaUsages : list QuotaUsage) : outcome (list QuotaUsage) :=
  match triggers with
  | [] => mret quotaUsages
  | trigger :: rest =>
      let jobsTriggered := 0 in
      jobsTriggered ← jobsPerTrigger_actions (glue.Actions trigger) jobsTriggered;
      let usage :=
        {| Name := jobsPerTriggerName;
           ResourceName := glue.trigger_Name trigger;
           Description := jobsPerTriggerDescription;
           Usage := float64_of_int jobsTriggered;
           Quota := 0;
           Tags := None |} in
      jobsPerTrigger_triggers rest (quotaUsages ++ [usage])
  end.

Definition JobsPerTriggerCheck_Usage (client : glue.GlueAPI) : usage_result :=
  let quotaUsages : list QuotaUsage := [] in
  let triggersList : list (option string) := [] in
  '(triggersList, listErr) ← Pages
    (perPage (fun page triggersList =>
       triggersList ++ glue.TriggerNames page))
    (glue.ListTriggersPages client) triggersList;
  match listErr with
  | Some listErr => mret (None, Some (failedToGetUsage listErr))
  | None =>
      match glue.BatchGetTriggers client triggersList with
      | Failure err => mret (None, Some (Wrapf ErrFailedToGetUsage listErr))
      | Reply triggers =>
          quotaUsages ← jobsPerTrigger_triggers (glue.Triggers triggers)
                          quotaUsages;
          mret (Some quotaUsages, None)
      end
  end.

Definition JobsPerAccountCheck_Usage (client : glue.GlueAPI) : usage_result :=
  let quotaUsages : list QuotaUsage := [] in
  let jobsCount := 0 in
  '(jobsCount, err) ← Pages
    (perPage (fun page jobsCount =>
       int_add jobsCount (len (glue.JobNames page))))
    (glue.ListJobsPages client) jobsCount;
  let usage :=
    {| Name := jobsName;
       ResourceName := None;
       Description := jobsDescription;
       Usage := float64_of_int jobsCount;
       Quota := 0;
       Tags := None |} in
  finish err (quotaUsages ++ [usage]).

Definition ConcurrentRunsPerJobCheck_Usage (client : glue.GlueAPI)
  : usage_result :=
  let quotaUsages : list QuotaUsage := [] in
  '(quotaUsages, err) ← Pages
    (perPage (fun page quotaUsages =>
       foldl (fun quotaUsages job =>
         let usage :=
           {| Name := concurrentRunsPerJobName;
              ResourceName := glue.job_Name job;
              Description := concurrentRunsPerJobDescription;
              Usage := float64_of_int
                         (glue.MaxConcurrentRuns (glue.job_ExecutionProperty job));
              Quota := 0;
              Tags := None |} in
         quotaUsages ++ [usage])
       quotaUsages (glue.Jobs page)))
    (glue.GetJobsPages client) quotaUsages;
  finish err quotaUsages.

Definition DPUsCheck_Usage (client : glue.GlueAPI) : usage_result :=
  let quotaUsages : list QuotaUsage := [] in
  let dPUsCount := 0 in
  '(dPUsCount, err) ← Pages
    (perPage (fun page dPUsCount =>
       foldl (fun dPUsCount job =>
                int_add dPUsCount (int_of_float64 (glue.MaxCapacity job)))
             dPUsCount (glue.Jobs page)))
    (glue.GetJobsPages client) dPUsCount;
  let usage :=
    {| Name := dPUsName;
       ResourceName := None;
       Description := dPUsDescription;
       Usage := float64_of_int dPUsCount;
       Quota := 0;
       Tags := None |} in
  finish err (quotaUsages ++ [usage]).

(** The innermost loop of [ConcurrentRunsCheck.Usage], over the runs of one
    page: [run.JobRunState == aws.String(glue.JobRunStateRunning)] compares
    the run's pointer with the address of a cell allocated for the
    comparison. *)
Definition concurrentRuns_runs (runs : list glue.JobRun) (st : Z * store)
  : Z * store :=
  foldl (fun '(concurrentJobsCount, m) run =>
           let '(running, m) := String_ glue.JobRunStateRunning m in
           if ptr_eq (glue.JobRunState run) running
           then (int_add concurrentJobsCount 1, m)
           else (concurrentJobsCount, m))
        st runs.

(** The loop over the job names of one page: a failed [GetJobRunsPages]
    panics. *)
Fixpoint concurrentRuns_jobs (client : glue.GlueAPI)
  (jobs : list (option string)) (st : Z * store) : outcome (Z * store) :=
  match jobs with
  | [] => mret st
  | job :: rest =>
      '(st, err) ← Pages
        (perPage (fun page st => concurrentRuns_runs (glue.JobRuns page) st))
        (glue.GetJobRunsPages client job) st;
      match err with
      | Some err => Panics err
      | None => concurrentRuns_jobs client rest st
      end
  end.

(** [m] is the heap as the call finds it. *)
Definition ConcurrentRunsCheck_Usage (client : glue.GlueAPI) (m : store)
  : usage_result :=
  let quotaUsages : list QuotaUsage := [] in
  let concurrentJobsCount := 0 in
  '(st, listErr) ← Pages
    (fun page lastPage st =>
       match page with
       | Some page =>
           st ← concurrentRuns_jobs client (glue.JobNames page) st;
           mret (negb lastPage, st)
       | None => mret (negb lastPage, st)
       end)
    (glue.ListJobsPages client) (concurrentJobsCount, m);
  let '(concurrentJobsCount, _) := st in
  let usage :=
    {| Name := concurrentRunsName;
       ResourceName := None;
       Description := concurrentRunsDescription;
       Usage := float64_of_int concurrentJobsCount;
       Quota := 0;
       Tags := None |} in
  finish listErr (quotaUsages ++ [usage]).

(* ===================================================================== *)
(** ** The Redshift usage check *)
(* ===================================================================== *)

Definition UserSnapshotsPerRegionCheck_Usage (client : redshift.RedshiftAPI)
  : usage_result :=
  let quotaUsages : list QuotaUsage := [] in
  let userSnapshotsCount := 0 in
  '(userSnapshotsCount, err) ← Pages
    (perPage (fun page userSnapshotsCount =>
       int_add userSnapshotsCount (len (redshift.Snapshots page))))
    (redshift.DescribeClusterSnapshotsPages client (Some "manual"%string))
    userSnapshotsCount;
  let usage :=
    {| Name := userSnapshotsPerRegionName;
       ResourceName := None;
       Description := userSnapshotsPerRegionDescription;
       Usage := float64_of_int userSnapshotsCount;
       Quota := 0;
       Tags := None |} in
  finish err (quotaUsages ++ [usage]).

(* ===================================================================== *)
(** ** service_quotas.go: the registry and the aggregator *)
(* ===================================================================== *)

Definition allServices : list string :=
  ["ec2"; "vpc"; "rds"; "ecr"; "ecs"; "logs"; "kinesisanalytics"; "redshift";
   "ebs"; "glue"]%string.

Section Registry.
(** [ASGUsageCheck] is registered by [newUsageChecks]; its method, which is
    not among the package's files, and the client it is built on are taken as
    given. *)
Variable autoscalingAPI : Type.
Variable ASGUsageCheck_Usage : autoscalingAPI -> usage_result.

(** The clients [newUsageChecks] and [NewServiceQuotas] make from a session
    and a region, and the heap their replies live in. *)
Record Clients : Type := {
  ec2Client : ec2.EC2API;
  autoscalingClient : autoscalingAPI;
  rdsClient : rds.RDSAPI;
  ecrClient : ecr.ECRAPI;
  sesv2Client : sesv2.SESV2API;
  logsClient : cloudwatchlogs.CloudWatchLogsAPI;
  kdaClient : kinesisanalyticsv2.KinesisAnalyticsV2API;
  rsClient : redshift.RedshiftAPI;
  glueClient : glue.GlueAPI;
  quotasClient : servicequotas.ServiceQuotasAPI;
  heap : store;
}.

Definition check (usage : usage_result) : UsageCheck :=
  {| check_Usage := fun _ => usage |}.

Definition newUsageChecks (c : Clients)
  : gmap string UsageCheck * gmap string UsageCheck * list UsageCheck :=
  let ec2Client := ec2Client c in
  let autoscalingClient := autoscalingClient c in
  let rdsClient := rdsClient c in
  let ecrClient := ecrClient c in
  let sesv2Client := sesv2Client c in
  let logsClient := logsClient c in
  let kdaClient := kdaClient c in
  let rsClient := rsClient c in
  let glueClient := glueClient c in
  let serviceQuotasUsageChecks : gmap string UsageCheck :=
    list_to_map [
      ("L-0EA8095F", check (RulesPerSecurityGroupUsageCheck_Usage ec2Client));
      ("L-2AFB9258", check (SecurityGroupsPerENIUsageCheck_Usage ec2Client));
      ("L-E79EC296", check (SecurityGroupsPerRegionUsageCheck_Usage ec2Client));
      ("L-34B43A08", check (StandardSpotInstanceRequestsUsageCheck_Usage ec2Client));
      ("L-1216C47A", check (RunningOnDemandStandardInstancesUsageCheck_Usage ec2Client));
      ("L-5BC124EF", check (ReadReplicasPerMasterCheck_Usage rdsClient));
      ("L-DF5E4CA3", check (ENIsPerRegionCheck_Usage ec2Client));
      ("L-C7B9AAAB", check (LogGroupsPerRegionCheck_Usage logsClient));
      ("L-7A658B76", check (MaxGP3StoragePerRegionCheck_Usage ec2Client));
      ("L-D18FCD1D", check (MaxGP2StoragePerRegionCheck_Usage ec2Client));
      ("L-FD252861", check (MaxIo1StoragePerRegionCheck_Usage ec2Client));
      ("L-09BD8365", check (MaxIo2StoragePerRegionCheck_Usage ec2Client));
      ("L-82ACEF56", check (MaxSt1StoragePerRegionCheck_Usage ec2Client));
      ("L-9CF3C2EB", check (MaxStandardStoragePerRegionCheck_Usage ec2Client));
      ("L-17AF77E8", check (MaxSc1StoragePerRegionCheck_Usage ec2Client));
      ("L-309BACF6", check (EbsSnapshotsPerRegionCheck_Usage ec2Client));
      ("L-8D977E7E", check (MaxIo2IopsPerRegionCheck_Usage ec2Client));
      ("L-B3A130E6", check (MaxIo1IopsPerRegionCheck_Usage ec2Client));
      ("L-EEC98450", check (JobsPerTriggerCheck_Usage glueClient));
      ("L-611FDDE4", check (JobsPerAccountCheck_Usage glueClient));
      ("L-F574AED9", check (ConcurrentRunsPerJobCheck_Usage glueClient));
      ("L-08F3B322", check (DPUsCheck_Usage glueClient));
      ("L-5E4153CA", check (ConcurrentRunsCheck_Usage glueClient (heap c)))
    ]%string in
  let serviceDefaultUsageChecks : gmap string UsageCheck :=
    list_to_map [
      ("L-CFEB8E8D", check (RepositoriesPerRegionCheck_Usage ecrClient));
      ("L-03A36CE1", check (ImagesPerRepositoryCheck_Usage ecrClient));
      ("L-3A88E041", check (AppKPUUsageCheck_Usage kdaClient));
      ("L-3729A2EF", check (AppsPerRegionCheck_Usage kdaClient));
      ("L-2E428669", check (UserSnapshotsPerRegionCheck_Usage rsClient))
    ]%string in
  let otherUsageChecks : list UsageCheck :=
    [ check (AvailableIpsPerSubnetUsageCheck_Usage ec2Client);
      check (ASGUsageCheck_Usage autoscalingClient);
      check (MaxSendIn24HoursCheck_Usage sesv2Client) ] in
  (serviceQuotasUsageChecks, serviceDefaultUsageChecks, otherUsageChecks).

(** [ServiceQuotas], without the session and the region name, which no
    method reads. *)
Record ServiceQuotas : Type := {
  isAwsChina : bool;
  quotasService : servicequotas.ServiceQuotasAPI;
  serviceQuotasUsageChecks : gmap string UsageCheck;
  serviceDefaultUsageChecks : gmap string UsageCheck;
  otherUsageChecks : list UsageCheck;
}.

(** A partition of the SDK's endpoint table. *)
Record Partition : Type := { ID : string; Regions : list string }.
Definition AwsCnPartitionID : string := "aws-cn".

Fixpoint isValidRegion (DefaultPartitions : list Partition) (region : string)
  : bool * bool :=
  match DefaultPartitions with
  | [] => (false, false)
  | partition :: rest =>
      if bool_decide (region ∈ Regions partition)
      then (true, bool_decide (ID partition = AwsCnPartitionID))
      else isValidRegion rest region
  end.

(** The SDK as [NewServiceQuotas] meets it: the endpoint table, and the
    session a profile gives (or the error), from which come the clients
    for a region. *)
Record SDK : Type := {
  DefaultPartitions : list Partition;
  NewSessionWithOptions : string -> reply (string -> Clients);
}.

Definition NewServiceQuotas (sdk : SDK) (region profile : string)
  : option ServiceQuotas * option error :=
  let '(validRegion, isChina) :=
    isValidRegion (DefaultPartitions sdk) region in
  if negb validRegion then (None, Some (Wrapf ErrInvalidRegion None))
  else
    match NewSessionWithOptions sdk profile with
    | Failure err => (None, Some err)
    | Reply awsSession =>
        let quotasService := quotasClient (awsSession region) in
        let '(serviceQuotasChecks, serviceDefaultUsageChecks, otherChecks) :=
          newUsageChecks (awsSession region) in
        let quotas :=
          {| quotasService := quotasService;
             serviceQuotasUsageChecks := serviceQuotasChecks;
             serviceDefaultUsageChecks := serviceDefaultUsageChecks;
             isAwsChina := isChina;
             otherUsageChecks := otherChecks |} in
        (Some quotas, None)
    end.

(** The body of the quota loop shared, word for word, by
    [quotasForService] and [defaultsForService], one quota of the catalog:
    nothing for a code without a check; otherwise the check's records, each
    with [Quota] set to the catalog's value, or the check's error. *)
Definition usagesOfQuota (checks : gmap string UsageCheck)
  (quota : servicequotas.ServiceQuota) : outcome (list QuotaUsage + error) :=
  match checks !! servicequotas.QuotaCode quota with
  | Some check =>
      '(quotaUsages, err) ← check_Usage check ();
      match err with
      | Some err => mret (inr err)
      | None =>
          mret (inl (map (fun quotaUsage =>
                            setQuota (servicequotas.Value quota) quotaUsage)
                         (elements quotaUsages)))
      end
  | None => mret (inl [])
  end.

Definition usagesOfCatalog (checks : gmap string UsageCheck)
  (catalog : listing servicequotas.ListServiceQuotasOutput) : usage_result :=
  let serviceQuotaUsages : list QuotaUsage := [] in
  let usageErr : option error := None in
  '(st, err) ← Pages (eachPage servicequotas.Quotas (usagesOfQuota checks))
    catalog (serviceQuotaUsages, usageErr);
  let '(serviceQuotaUsages, usageErr) := st in
  match err with
  | Some err => mret (None, Some (Wrapf ErrFailedToListQuotas (Some err)))
  | None =>
      match usageErr with
      | Some usageErr => mret (None, Some usageErr)
      | None => mret (Some serviceQuotaUsages, None)
      end
  end.

Definition defaultsForService (s : ServiceQuotas) (service : string)
  : usage_result :=
  usagesOfCatalog (serviceDefaultUsageChecks s)
    (servicequotas.ListAWSDefaultServiceQuotasPages (quotasService s) service).

Definition quotasForService (s : ServiceQuotas) (service : string)
  : usage_result :=
  usagesOfCatalog (serviceQuotasUsageChecks s)
    (servicequotas.ListServiceQuotasPages (quotasService s) service).

(** A loop of [QuotasAndUsage]: every step yields records to append or makes
    the function return [(nil, err)] ([inr err] here). *)
Fixpoint appendEach {A} (step : A -> usage_result) (items : list A)
  (allQuotaUsages : list QuotaUsage) : outcome (list QuotaUsage + error) :=
  match items with
  | [] => mret (inl allQuotaUsages)
  | item :: rest =>
      '(quotas, err) ← step item;
      match err with
      | Some err => mret (inr err)
      | None => appendEach step rest (allQuotaUsages ++ elements quotas)
      end
  end.

Definition QuotasAndUsage (s : ServiceQuotas) : usage_result :=
  let allQuotaUsages : list QuotaUsage := [] in
  walked ←
    (if negb (isAwsChina s) then
       walked ← appendEach (quotasForService s) allServices allQuotaUsages;
       match walked with
       | inr err => mret (inr err)
       | inl allQuotaUsages =>
           appendEach (defaultsForService s) allServices allQuotaUsages
       end
     else mret (inl allQuotaUsages));
  match walked with
  | inr err => mret (None, Some err)
  | inl allQuotaUsages =>
      walked ← appendEach (fun check => check_Usage check ())
                          (otherUsageChecks s) allQuotaUsages;
      match walked with
      | inr err => mret (None, Some err)
      | inl allQuotaUsages => mret (Some allQuotaUsages, None)
      end
  end.

End Registry.

(* ===================================================================== *)
(** ** Vocabulary of the properties *)
(* ===================================================================== *)

(** Every byte of [s] satisfies [p]. *)
Fixpoint allBytes (p : ascii -> bool) (s : string) : bool :=
  match s with
  | EmptyString => true
  | String c rest => p c && allBytes p rest
  end.

(** The bytes a normalised name is made of: [[a-z0-9_]]. *)
Definition isNormalByte (c : ascii) : bool :=
  isLower c || isDigit c || isUnderscore c.

(** What [Pages] leaves in the captured variables when the callback is
    [perPage body]: [body] applied to the non-nil pages, in order. *)
Definition visit {P St} (body : P -> St -> St) (st : St) (page : option P)
  : St :=
  match page with
  | Some page => body page st
  | None => st
  end.

(** The items of a listing, whatever the pages they came in. *)
Definition itemsOf {P A} (items : P -> list A) (ps : list (option P))
  : list A :=
  flat_map (fun page => match page with
                        | Some page => items page
                        | None => []
                        end) ps.

(** A provider that delivers [ps], each page non-nil, and does not fail. *)
Definition delivers {P} (ps : list P) : listing P :=
  {| pages := map Some ps; failure := None |}.

(** A provider whose first request fails. *)
Definition fails {P} (err : error) : listing P :=
  {| pages := []; failure := Some err |}.

(** Sample accounts the statements below are evaluated on. *)
Module Sample.
Local Open Scope string_scope.

Definition throttled : error := ApiError "ThrottlingException".

Definition repository (name : string) : ecr.Repository :=
  {| ecr.RepositoryName := Some name |}.

(** Two repositories, listed in one page. *)
Definition ecr_one_page : ecr.ECRAPI :=
  {| ecr.DescribeRepositoriesPages :=
       delivers [ {| ecr.Repositories := [repository "api"; repository "web"] |} ];
     ecr.ListImagesPages := fun _ => delivers [ {| ecr.ImageIds := [] |} ] |}.

(** The same two repositories, listed in two pages. *)
Definition ecr_two_pages : ecr.ECRAPI :=
  {| ecr.DescribeRepositoriesPages :=
       delivers [ {| ecr.Repositories := [repository "api"] |};
                  {| ecr.Repositories := [repository "web"] |} ];
     ecr.ListImagesPages := fun _ => delivers [ {| ecr.ImageIds := [] |} ] |}.

(** The same, and the images of "web" cannot be listed. *)
Definition ecr_images_fail : ecr.ECRAPI :=
  {| ecr.DescribeRepositoriesPages :=
       delivers [ {| ecr.Repositories := [repository "api"; repository "web"] |} ];
     ecr.ListImagesPages := fun repo =>
       if bool_decide (repo = Some "web") then fails throttled
       else delivers [ {| ecr.ImageIds := [ {| ecr.ImageDigest := Some "sha256:0" |} ] |} ] |}.

Definition repositoriesPerRegion (n : Z) : QuotaUsage :=
  {| Name := repositoriesPerRegionName;
     ResourceName := None;
     Description := repositoriesPerRegionDescription;
     Usage := float64_of_int n;
     Quota := 0;
     Tags := None |}.

(** A store with one cell, holding "RUNNING", and a run in that state. *)
Definition heap1 : store := ["RUNNING"].
Definition runningRun : glue.JobRun := {| glue.JobRunState := Some 0%nat |}.

Definition glue_of (jobs : list string)
  (runs : option string -> listing glue.GetJobRunsOutput) : glue.GlueAPI :=
  {| glue.ListTriggersPages := delivers [ {| glue.TriggerNames := [] |} ];
     glue.BatchGetTriggers := fun _ => Reply {| glue.Triggers := [] |};
     glue.ListJobsPages := delivers [ {| glue.JobNames := map Some jobs |} ];
     glue.GetJobsPages := delivers [ {| glue.Jobs := [] |} ];
     glue.GetJobRunsPages := runs |}.

(** One job, "etl", with two runs, both running. *)
Definition glue_two_running : glue.GlueAPI :=
  glue_of ["etl"]
    (fun _ => delivers [ {| glue.JobRuns := [runningRun; runningRun] |} ]).

(** One job, "etl", whose runs cannot be listed. *)
Definition glue_runs_fail : glue.GlueAPI :=
  glue_of ["etl"] (fun _ => fails throttled).

(** No job at all. *)
Definition glue_empty : glue.GlueAPI :=
  glue_of [] (fun _ => delivers [ {| glue.JobRuns := [] |} ]).
End Sample.

(** The subnets a client enumerates, whatever the paging. *)
Definition enumeratedSubnets (client : ec2.EC2API) : list ec2.Subnet :=
  itemsOf ec2.Subnets (pages (ec2.DescribeSubnetsPages client)).

(** The part of a CIDR block after its '/': the prefix length, as text. *)
Fixpoint afterSlash (s : string) : string :=
  match s with
  | EmptyString => EmptyString
  | String c rest => if bool_decide (c = "/"%char) then rest else afterSlash rest
  end.

(** The last two bytes of a string of two bytes or more. *)
Definition lastTwoBytes (s : string) : string :=
  dropBytes (String.length s - 2) s.

(** [s] is a valid integer: [strconv.Atoi] accepts it. *)
Definition validInteger (s : string) : bool :=
  bool_decide ((strconv.Atoi s).2 = None).

(** The call returned the failed-to-convert-CIDR error (and no records). *)
Definition isConversionError (r : usage_result) : bool :=
  match r with
  | Returns (None, Some (Wrapf ErrFailedToConvertCidr _)) => true
  | _ => false
  end.

Module SampleNetworks.
Local Open Scope string_scope.

Definition ec2_of (subnets : list (list ec2.Subnet)) : ec2.EC2API :=
  {| ec2.DescribeSecurityGroupsPages :=
       delivers [ {| ec2.SecurityGroups := [] |} ];
     ec2.DescribeNetworkInterfacesPages :=
       delivers [ {| ec2.NetworkInterfaces := [] |} ];
     ec2.DescribeInstancesPages := fun _ =>
       delivers [ {| ec2.Reservations := [] |} ];
     ec2.DescribeSubnetsPages :=
       delivers (map (fun page => {| ec2.Subnets := page |}) subnets);
     ec2.DescribeVolumesPages := fun _ => delivers [ {| ec2.Volumes := [] |} ];
     ec2.DescribeSnapshotsPages := delivers [ {| ec2.Snapshots := [] |} ] |}.

Definition subnet (id cidr : string) (available : Z) : ec2.Subnet :=
  {| ec2.SubnetId := Some id;
     ec2.CidrBlock := cidr;
     ec2.AvailableIpAddressCount := available;
     ec2.subnet_Tags := [] |}.

(** One subnet, 10.0.1.0/24, with 200 addresses available. *)
Definition subnet24 : ec2.Subnet := subnet "subnet-24" "10.0.1.0/24" 200.
Definition ec2_slash24 : ec2.EC2API := ec2_of [[subnet24]].

(** One subnet whose block has a one-digit prefix length. *)
Definition subnet8 : ec2.Subnet := subnet "subnet-8" "10.0.0.0/8" 16777216.
Definition ec2_slash8 : ec2.EC2API := ec2_of [[subnet8]].

(** One subnet whose block ends in something that is no number. *)
Definition ec2_malformed : ec2.EC2API :=
  ec2_of [[subnet24]; [subnet "subnet-x" "10.0.2.0/2x" 0]].

(** No subnet. *)
Definition ec2_empty : ec2.EC2API := ec2_of [[]].
End SampleNetworks.

(** *** What a refresh is expected to do, in the words of its contract *)

(** The call returned a non-nil error. *)
Definition returnsError (r : usage_result) : bool :=
  match r with
  | Returns (_, Some _) => true
  | _ => false
  end.

(** The call returned (it did not panic). *)
Definition returns (r : usage_result) : bool :=
  match r with
  | Returns _ => true
  | Panics _ => false
  end.

(** The records of a call that returned a nil error. *)
Definition returnedRecords (r : usage_result) : list QuotaUsage :=
  match r with
  | Returns (quotaUsages, None) => elements quotaUsages
  | _ => []
  end.

Definition usageOf (check : UsageCheck) : usage_result := check_Usage check ().

(** The quotas a catalog lists, whatever the paging. *)
Definition listedQuotas (catalog : listing servicequotas.ListServiceQuotasOutput)
  : list servicequotas.ServiceQuota :=
  itemsOf servicequotas.Quotas (pages catalog).

(** The check registered for a listed quota fails. *)
Definition quotaFails (checks : gmap string UsageCheck)
  (quota : servicequotas.ServiceQuota) : bool :=
  match checks !! servicequotas.QuotaCode quota with
  | Some check => returnsError (usageOf check)
  | None => false
  end.

(** The records due for a listed quota: those of its registered check, with
    the catalog's value as [Quota]. *)
Definition recordsOfQuota (checks : gmap string UsageCheck)
  (quota : servicequotas.ServiceQuota) : list QuotaUsage :=
  match checks !! servicequotas.QuotaCode quota with
  | Some check =>
      map (setQuota (servicequotas.Value quota)) (returnedRecords (usageOf check))
  | None => []
  end.

(** Something fails in the walk of one catalog: the enumeration itself, or
    the check of a listed quota. *)
Definition catalogFails (checks : gmap string UsageCheck)
  (catalog : listing servicequotas.ListServiceQuotasOutput) : bool :=
  bool_decide (is_Some (failure catalog))
  || existsb (quotaFails checks) (listedQuotas catalog).

Definition recordsOfCatalog (checks : gmap string UsageCheck)
  (catalog : listing servicequotas.ListServiceQuotasOutput) : list QuotaUsage :=
  flat_map (recordsOfQuota checks) (listedQuotas catalog).

(** Something fails in a refresh of [s]. *)
Definition anyFailure (s : ServiceQuotas) : bool :=
  negb (isAwsChina s)
  && (existsb (fun service =>
                 catalogFails (serviceQuotasUsageChecks s)
                   (servicequotas.ListServiceQuotasPages (quotasService s) service))
              allServices
      || existsb (fun service =>
                    catalogFails (serviceDefaultUsageChecks s)
                      (servicequotas.ListAWSDefaultServiceQuotasPages
                         (quotasService s) service))
                 allServices)
  || existsb (fun check => returnsError (usageOf check)) (otherUsageChecks s).

(** The records of the checks without a formal quota, as the checks return
    them. *)
Definition otherRecords (s : ServiceQuotas) : list QuotaUsage :=
  flat_map (fun check => returnedRecords (usageOf check)) (otherUsageChecks s).

(** The error of the first item, in order, whose step returns one. *)
Fixpoint firstError {A} (step : A -> usage_result) (items : list A)
  : option error :=
  match items with
  | [] => None
  | item :: rest =>
      match step item with
      | Returns (_, Some err) => Some err
      | Returns (_, None) => firstError step rest
      | Panics _ => None
      end
  end.

(** The records a refresh of [s] accumulates when nothing fails. *)
Definition accumulated (s : ServiceQuotas) : list QuotaUsage :=
  (if isAwsChina s then []
   else
     flat_map (fun service =>
                 recordsOfCatalog (serviceQuotasUsageChecks s)
                   (servicequotas.ListServiceQuotasPages (quotasService s) service))
              allServices
     ++ flat_map (fun service =>
                    recordsOfCatalog (serviceDefaultUsageChecks s)
                      (servicequotas.ListAWSDefaultServiceQuotasPages
                         (quotasService s) service))
                 allServices)
  ++ otherRecords s.

(** [check] is one of the checks a refresh of [s] may call. *)
Definition registered (s : ServiceQuotas) (check : UsageCheck) : Prop :=
  (exists code, serviceQuotasUsageChecks s !! code = Some check)
  \/ (exists code, serviceDefaultUsageChecks s !! code = Some check)
  \/ check ∈ otherUsageChecks s.

(** Sample accounts for the aggregator.  The registered check taken as given
    is stood in for by a check that returns no record and no error (an
    account without autoscaling groups). *)
Module SampleAccounts.
Local Open Scope string_scope.

Definition noRecords : unit -> usage_result := fun _ => Returns (Some [], None).

Definition ses : sesv2.SESV2API :=
  {| sesv2.GetAccount :=
       Reply {| sesv2.output_SendQuota :=
                  {| sesv2.SentLast24Hours := 120;
                     sesv2.Max24HourSend := 50000 |} |} |}.

Definition logs : cloudwatchlogs.CloudWatchLogsAPI :=
  {| cloudwatchlogs.DescribeLogGroupsPages :=
       delivers [ {| cloudwatchlogs.LogGroups := [] |} ] |}.

Definition rdsEmpty : rds.RDSAPI :=
  {| rds.DescribeDBClustersPages := delivers [ {| rds.DBClusters := [] |} ];
     rds.DescribeDBInstancesPages := delivers [ {| rds.DBInstances := [] |} ] |}.

Definition redshiftEmpty : redshift.RedshiftAPI :=
  {| redshift.DescribeClusterSnapshotsPages := fun _ =>
       delivers [ {| redshift.Snapshots := [] |} ] |}.

Definition kda : kinesisanalyticsv2.KinesisAnalyticsV2API :=
  {| kinesisanalyticsv2.ListApplications :=
       kinesisanalyticsv2.Last
         {| kinesisanalyticsv2.ApplicationSummaries := [] |};
     kinesisanalyticsv2.DescribeApplication := fun _ =>
       Failure (ApiError "ResourceNotFoundException") |}.

(** A catalog that lists [listed service] for the service-specific quotas
    of [service], in one page, and no default quota. *)
Definition catalog (listed : string -> list servicequotas.ServiceQuota)
  : servicequotas.ServiceQuotasAPI :=
  {| servicequotas.ListServiceQuotasPages := fun service =>
       delivers [ {| servicequotas.Quotas := listed service |} ];
     servicequotas.ListAWSDefaultServiceQuotasPages := fun _ =>
       delivers [ {| servicequotas.Quotas := [] |} ] |}.

Definition account (ec2Client : ec2.EC2API) (glueClient : glue.GlueAPI)
  (listed : string -> list servicequotas.ServiceQuota) : Clients unit :=
  {| ec2Client := ec2Client;
     autoscalingClient := tt;
     rdsClient := rdsEmpty;
     ecrClient := Sample.ecr_one_page;
     sesv2Client := ses;
     logsClient := logs;
     kdaClient := kda;
     rsClient := redshiftEmpty;
     glueClient := glueClient;
     quotasClient := catalog listed;
     heap := Sample.heap1 |}.

(** The [ServiceQuotas] that [NewServiceQuotas] builds for an account. *)
Definition serviceQuotas (isChina : bool) (c : Clients unit)
  : ServiceQuotas :=
  let '(serviceQuotasChecks, serviceDefaultUsageChecks, otherChecks) :=
    newUsageChecks unit noRecords c in
  {| quotasService := quotasClient unit c;
     serviceQuotasUsageChecks := serviceQuotasChecks;
     serviceDefaultUsageChecks := serviceDefaultUsageChecks;
     isAwsChina := isChina;
     otherUsageChecks := otherChecks |}.

Definition sdk (c : Clients unit) : SDK unit :=
  {| DefaultPartitions :=
       [ {| ID := "aws"; Regions := ["us-east-1"; "eu-west-1"] |};
         {| ID := "aws-cn"; Regions := ["cn-north-1"; "cn-northwest-1"] |} ];
     NewSessionWithOptions := fun _ => Reply (fun _ => c) |}.

Definition securityGroupsQuota : servicequotas.ServiceQuota :=
  {| servicequotas.QuotaCode := "L-E79EC296"; servicequotas.Value := 2500 |}.
Definition jobsQuota : servicequotas.ServiceQuota :=
  {| servicequotas.QuotaCode := "L-611FDDE4"; servicequotas.Value := 1000 |}.
Definition concurrentRunsPerJobQuota : servicequotas.ServiceQuota :=
  {| servicequotas.QuotaCode := "L-F574AED9"; servicequotas.Value := 1000 |}.

(** The catalog lists the security-group quota under "vpc" and the job
    quota under "glue"; the Glue job listing fails. *)
Definition glue_down : glue.GlueAPI :=
  {| glue.ListTriggersPages := fails Sample.throttled;
     glue.BatchGetTriggers := fun _ => Failure Sample.throttled;
     glue.ListJobsPages := fails Sample.throttled;
     glue.GetJobsPages := fails Sample.throttled;
     glue.GetJobRunsPages := fun _ => fails Sample.throttled |}.

Definition listed_vpc_glue (service : string)
  : list servicequotas.ServiceQuota :=
  if bool_decide (service = "vpc") then [securityGroupsQuota]
  else if bool_decide (service = "glue") then [jobsQuota]
  else [].

Definition late_failure : ServiceQuotas :=
  serviceQuotas false
    (account SampleNetworks.ec2_slash24 glue_down listed_vpc_glue).

(** The same catalog, and Glue answers: an account without jobs. *)
Definition healthy : ServiceQuotas :=
  serviceQuotas false
    (account SampleNetworks.ec2_slash24 Sample.glue_empty listed_vpc_glue).

(** The catalog lists the concurrent-runs-per-job quota under "glue", for
    an account without jobs. *)
Definition listed_runs_per_job (service : string)
  : list servicequotas.ServiceQuota :=
  if bool_decide (service = "glue") then [concurrentRunsPerJobQuota] else [].

Definition no_jobs : ServiceQuotas :=
  serviceQuotas false
    (account SampleNetworks.ec2_empty Sample.glue_empty listed_runs_per_job).

(** An account of the China partition. *)
Definition china_account : Clients unit :=
  account SampleNetworks.ec2_slash24 Sample.glue_empty listed_vpc_glue.

(** The same account when the send quota cannot be read. *)
Definition ses_down : sesv2.SESV2API :=
  {| sesv2.GetAccount := Failure Sample.throttled |}.

Definition china_ses_down : Clients unit :=
  {| ec2Client := SampleNetworks.ec2_slash24;
     autoscalingClient := tt;
     rdsClient := rdsEmpty;
     ecrClient := Sample.ecr_one_page;
     sesv2Client := ses_down;
     logsClient := logs;
     kdaClient := kda;
     rsClient := redshiftEmpty;
     glueClient := Sample.glue_empty;
     quotasClient := catalog listed_vpc_glue;
     heap := Sample.heap1 |}.

(** The catalog lists the security-group quota under "vpc" and the quota of
    concurrently running jobs under "glue"; the account has one job, "etl",
    whose runs cannot be listed. *)
Definition concurrentRunsQuota : servicequotas.ServiceQuota :=
  {| servicequotas.QuotaCode := "L-5E4153CA"; servicequotas.Value := 50 |}.

Definition listed_vpc_runs (service : string)
  : list servicequotas.ServiceQuota :=
  if bool_decide (service = "vpc") then [securityGroupsQuota]
  else if bool_decide (service = "glue") then [concurrentRunsQuota]
  else [].

Definition runs_fail : ServiceQuotas :=
  serviceQuotas false
    (account SampleNetworks.ec2_slash24 Sample.glue_runs_fail listed_vpc_runs).
End SampleAccounts.

(** The usage checks of the package: the struct types that implement
    [UsageCheck], each with the client it holds (and, for the one check that
    allocates, the heap its call starts from). *)
Inductive strategy : Type :=
| RulesPerSecurityGroupUsageCheck (client : ec2.EC2API)
| SecurityGroupsPerENIUsageCheck (client : ec2.EC2API)
| SecurityGroupsPerRegionUsageCheck (client : ec2.EC2API)
| StandardSpotInstanceRequestsUsageCheck (client : ec2.EC2API)
| RunningOnDemandStandardInstancesUsageCheck (client : ec2.EC2API)
| AvailableIpsPerSubnetUsageCheck (client : ec2.EC2API)
| MaxGP2StoragePerRegionCheck (client : ec2.EC2API)
| MaxIo1StoragePerRegionCheck (client : ec2.EC2API)
| MaxIo2StoragePerRegionCheck (client : ec2.EC2API)
| MaxGP3StoragePerRegionCheck (client : ec2.EC2API)
| MaxSt1StoragePerRegionCheck (client : ec2.EC2API)
| MaxStandardStoragePerRegionCheck (client : ec2.EC2API)
| MaxSc1StoragePerRegionCheck (client : ec2.EC2API)
| EbsSnapshotsPerRegionCheck (client : ec2.EC2API)
| MaxIo2IopsPerRegionCheck (client : ec2.EC2API)
| MaxIo1IopsPerRegionCheck (client : ec2.EC2API)
| ENIsPerRegionCheck (client : ec2.EC2API)
| RepositoriesPerRegionCheck (client : ecr.ECRAPI)
| ImagesPerRepositoryCheck (client : ecr.ECRAPI)
| LogGroupsPerRegionCheck (client : cloudwatchlogs.CloudWatchLogsAPI)
| MaxSendIn24HoursCheck (client : sesv2.SESV2API)
| ReadReplicasPerMasterCheck (client : rds.RDSAPI)
| MaxTotalStorageCheck (client : rds.RDSAPI)
| AppKPUUsageCheck (client : kinesisanalyticsv2.KinesisAnalyticsV2API)
| AppsPerRegionCheck (client : kinesisanalyticsv2.KinesisAnalyticsV2API)
| JobsPerTriggerCheck (client : glue.GlueAPI)
| JobsPerAccountCheck (client : glue.GlueAPI)
| ConcurrentRunsPerJobCheck (client : glue.GlueAPI)
| DPUsCheck (client : glue.GlueAPI)
| ConcurrentRunsCheck (client : glue.GlueAPI) (m : store)
| UserSnapshotsPerRegionCheck (client : redshift.RedshiftAPI).

(** The method [Usage] of each. *)
Definition strategy_Usage (c : strategy) : usage_result :=
  match c with
  | RulesPerSecurityGroupUsageCheck client =>
      RulesPerSecurityGroupUsageCheck_Usage client
  | SecurityGroupsPerENIUsageCheck client =>
      SecurityGroupsPerENIUsageCheck_Usage client
  | SecurityGroupsPerRegionUsageCheck client =>
      SecurityGroupsPerRegionUsageCheck_Usage client
  | StandardSpotInstanceRequestsUsageCheck client =>
      StandardSpotInstanceRequestsUsageCheck_Usage client
  | RunningOnDemandStandardInstancesUsageCheck client =>
      RunningOnDemandStandardInstancesUsageCheck_Usage client
  | AvailableIpsPerSubnetUsageCheck client =>
      AvailableIpsPerSubnetUsageCheck_Usage client
  | MaxGP2StoragePerRegionCheck client => MaxGP2StoragePerRegionCheck_Usage client
  | MaxIo1StoragePerRegionCheck client => MaxIo1StoragePerRegionCheck_Usage client
  | MaxIo2StoragePerRegionCheck client => MaxIo2StoragePerRegionCheck_Usage client
  | MaxGP3StoragePerRegionCheck client => MaxGP3StoragePerRegionCheck_Usage client
  | MaxSt1StoragePerRegionCheck client => MaxSt1StoragePerRegionCheck_Usage client
  | MaxStandardStoragePerRegionCheck client =>
      MaxStandardStoragePerRegionCheck_Usage client
  | MaxSc1StoragePerRegionCheck client => MaxSc1StoragePerRegionCheck_Usage client
  | EbsSnapshotsPerRegionCheck client => EbsSnapshotsPerRegionCheck_Usage client
  | MaxIo2IopsPerRegionCheck client => MaxIo2IopsPerRegionCheck_Usage client
  | MaxIo1IopsPerRegionCheck client => MaxIo1IopsPerRegionCheck_Usage client
  | ENIsPerRegionCheck client => ENIsPerRegionCheck_Usage client
  | RepositoriesPerRegionCheck client => RepositoriesPerRegionCheck_Usage client
  | ImagesPerRepositoryCheck client => ImagesPerRepositoryCheck_Usage client
  | LogGroupsPerRegionCheck client => LogGroupsPerRegionCheck_Usage client
  | MaxSendIn24HoursCheck client => MaxSendIn24HoursCheck_Usage client
  | ReadReplicasPerMasterCheck client => ReadReplicasPerMasterCheck_Usage client
  | MaxTotalStorageCheck client => MaxTotalStorageCheck_Usage client
  | AppKPUUsageCheck client => AppKPUUsageCheck_Usage client
  | AppsPerRegionCheck client => AppsPerRegionCheck_Usage client
  | JobsPerTriggerCheck client => JobsPerTriggerCheck_Usage client
  | JobsPerAccountCheck client => JobsPerAccountCheck_Usage client
  | ConcurrentRunsPerJobCheck client => ConcurrentRunsPerJobCheck_Usage client
  | DPUsCheck client => DPUsCheck_Usage client
  | ConcurrentRunsCheck client m => ConcurrentRunsCheck_Usage client m
  | UserSnapshotsPerRegionCheck client => UserSnapshotsPerRegionCheck_Usage client
  end.

(** The two checks whose records come with a [Quota] of their own. *)
Definition setsItsOwnQuota (c : strategy) : bool :=
  match c with
  | AvailableIpsPerSubnetUsageCheck _ | MaxSendIn24HoursCheck _ => true
  | _ => false
  end.

(** [Quota] is at its zero value in every record. *)
Definition quotaUnset (quotaUsages : list QuotaUsage) : Prop :=
  Forall (fun r => Quota r = 0%float) quotaUsages.

(** *** What the captured-error idiom leaves behind *)

Section CapturedErrorPost.
Context {A : Type}.
Variable step : A -> outcome (list QuotaUsage + error).

(** What one page's loop does to the captured variables. *)
Definition page_post (xs : list A) (collected : list QuotaUsage)
  (captured : option error)
  (r : outcome (bool * (list QuotaUsage * option error))) : Prop :=
  match r with
  | Returns (returned, (collected', captured')) =>
      (exists added, collected' = collected ++ added)
      /\ if returned
         then exists x e, x ∈ xs /\ step x = Returns (inr e)
                          /\ captured' = Some e
         else captured' = captured
              /\ forall x, x ∈ xs ->
                   exists records, step x = Returns (inl records)
                                   /\ records ⊆ collected'
  | Panics v => exists x, x ∈ xs /\ step x = Panics v
  end.

(** What the whole walk does to them. *)
Definition walk_post (xs : list A) (failed : option error)
  (collected : list QuotaUsage) (captured : option error)
  (r : outcome (list QuotaUsage * option error * option error)) : Prop :=
  match r with
  | Returns ((collected', captured'), err) =>
      err = failed
      /\ (exists added, collected' = collected ++ added)
      /\ (captured <> None -> captured' <> None)
      /\ ((exists x e, x ∈ xs /\ step x = Returns (inr e)) -> captured' <> None)
      /\ match captured' with
         | None =>
             forall x, x ∈ xs ->
               exists records, step x = Returns (inl records)
                               /\ records ⊆ collected'
         | Some e =>
             captured = Some e
             \/ exists x, x ∈ xs /\ step x = Returns (inr e)
         end
  | Panics v => exists x, x ∈ xs /\ step x = Panics v
  end.
End CapturedErrorPost.

(** The counter of the concurrent-runs check is still zero, in a heap that
    extends [m]. *)
Definition nothing_counted (m : store) (st : Z * store) : Prop :=
  st.1 = 0 /\ (length m <= length st.2)%nat.

(* ===================================================================== *)
(** ** Vocabulary of the further properties *)
(* ===================================================================== *)

(** The checks that can panic inside the callback of the enumeration they
    start with, before its error is looked at: the slice expression of the
    subnet check and the [panic(err)] of the concurrent-runs check.  (The
    trigger check and the KPU check dereference only after the point where
    a failed enumeration has made them return.) *)
Definition panicsWhileListing (c : strategy) : bool :=
  match c with
  | AvailableIpsPerSubnetUsageCheck _ | ConcurrentRunsCheck _ _ => true
  | _ => false
  end.

(** The error a hand-paged [ListApplications] ends with, if it ends with
    one. *)
Fixpoint repliesFailure (apps : kinesisanalyticsv2.replies) : option error :=
  match apps with
  | kinesisanalyticsv2.Last _ => None
  | kinesisanalyticsv2.More _ next => repliesFailure next
  | kinesisanalyticsv2.Fails err => Some err
  end.

(** The failure of the enumeration a check starts with: the listing it
    requests first (with the filters it passes), the single call of the
    send-quota check, the first [ListApplications] of the KPU check and the
    whole token chain of the application count. *)
Definition enumerationFailure (c : strategy) : option error :=
  match c with
  | RulesPerSecurityGroupUsageCheck client
  | SecurityGroupsPerRegionUsageCheck client =>
      failure (ec2.DescribeSecurityGroupsPages client)
  | SecurityGroupsPerENIUsageCheck client
  | ENIsPerRegionCheck client =>
      failure (ec2.DescribeNetworkInterfacesPages client)
  | StandardSpotInstanceRequestsUsageCheck client =>
      failure (ec2.DescribeInstancesPages client
                 [standardInstanceTypeFilter; activeInstanceFilter;
                  {| ec2.Name := "instance-lifecycle";
                     ec2.Values := ["spot"%string] |}])
  | RunningOnDemandStandardInstancesUsageCheck client =>
      failure (ec2.DescribeInstancesPages client
                 [standardInstanceTypeFilter; activeInstanceFilter])
  | AvailableIpsPerSubnetUsageCheck client =>
      failure (ec2.DescribeSubnetsPages client)
  | MaxGP2StoragePerRegionCheck client =>
      failure (ec2.DescribeVolumesPages client (volumeTypeFilter "gp2"))
  | MaxIo1StoragePerRegionCheck client
  | MaxIo1IopsPerRegionCheck client =>
      failure (ec2.DescribeVolumesPages client (volumeTypeFilter "io1"))
  | MaxIo2StoragePerRegionCheck client
  | MaxIo2IopsPerRegionCheck client =>
      failure (ec2.DescribeVolumesPages client (volumeTypeFilter "io2"))
  | MaxGP3StoragePerRegionCheck client =>
      failure (ec2.DescribeVolumesPages client (volumeTypeFilter "gp3"))
  | MaxSt1StoragePerRegionCheck client =>
      failure (ec2.DescribeVolumesPages client (volumeTypeFilter "st1"))
  | MaxStandardStoragePerRegionCheck client =>
      failure (ec2.DescribeVolumesPages client (volumeTypeFilter "standard"))
  | MaxSc1StoragePerRegionCheck client =>
      failure (ec2.DescribeVolumesPages client (volumeTypeFilter "sc1"))
  | EbsSnapshotsPerRegionCheck client =>
      failure (ec2.DescribeSnapshotsPages client)
  | RepositoriesPerRegionCheck client
  | ImagesPerRepositoryCheck client =>
      failure (ecr.DescribeRepositoriesPages client)
  | LogGroupsPerRegionCheck client =>
      failure (cloudwatchlogs.DescribeLogGroupsPages client)
  | MaxSendIn24HoursCheck client =>
      match sesv2.GetAccount client with
      | Failure err => Some err
      | Reply _ => None
      end
  | ReadReplicasPerMasterCheck client =>
      failure (rds.DescribeDBClustersPages client)
  | MaxTotalStorageCheck client =>
      failure (rds.DescribeDBInstancesPages client)
  | AppKPUUsageCheck client =>
      match kinesisanalyticsv2.ListApplications client with
      | kinesisanalyticsv2.Fails err => Some err
      | _ => None
      end
  | AppsPerRegionCheck client =>
      repliesFailure (kinesisanalyticsv2.ListApplications client)
  | JobsPerTriggerCheck client => failure (glue.ListTriggersPages client)
  | JobsPerAccountCheck client
  | ConcurrentRunsCheck client _ => failure (glue.ListJobsPages client)
  | ConcurrentRunsPerJobCheck client
  | DPUsCheck client => failure (glue.GetJobsPages client)
  | UserSnapshotsPerRegionCheck client =>
      failure (redshift.DescribeClusterSnapshotsPages client
                 (Some "manual"%string))
  end.

(** Records come without an error, an error without records. *)
Definition oneOrTheOther (r : option (list QuotaUsage) * option error) : Prop :=
  (r.1 = None /\ is_Some r.2) \/ (is_Some r.1 /\ r.2 = None).

(** *** Which error the captured-error idiom ends with *)

Section CapturedErrorSpec.
Context {P A : Type}.
Variable items : P -> list A.
Variable step : A -> outcome (list QuotaUsage + error).

(** The error of the first item of [xs] that fails, if one does. *)
Fixpoint firstFailure (xs : list A) : option error :=
  match xs with
  | [] => None
  | x :: rest =>
      match step x with
      | Returns (inr err) => Some err
      | Returns (inl _) => firstFailure rest
      | Panics _ => None
      end
  end.

(** The first failure of the last page that has one, or [captured] if no
    page has. *)
Definition lastFailure (captured : option error) (ps : list (option P))
  : option error :=
  foldl (fun captured page =>
           match page with
           | Some page =>
               match firstFailure (items page) with
               | Some err => Some err
               | None => captured
               end
           | None => captured
           end)
        captured ps.
End CapturedErrorSpec.

Module SampleCatalogs.
Local Open Scope string_scope.

Definition accessDenied : error := ApiError "AccessDeniedException".

(** Glue refuses the job names with one error and the jobs with another. *)
Definition glue_two_errors : glue.GlueAPI :=
  {| glue.ListTriggersPages := fails Sample.throttled;
     glue.BatchGetTriggers := fun _ => Failure Sample.throttled;
     glue.ListJobsPages := fails Sample.throttled;
     glue.GetJobsPages := fails accessDenied;
     glue.GetJobRunsPages := fun _ => fails Sample.throttled |}.

(** The service-specific registry of an account with that Glue client. *)
Definition registry : gmap string UsageCheck :=
  serviceQuotasUsageChecks
    (SampleAccounts.serviceQuotas false
       (SampleAccounts.account SampleNetworks.ec2_slash24 glue_two_errors
          SampleAccounts.listed_vpc_glue)).

(** A catalog in two pages: the job quota, then the runs-per-job quota. *)
Definition two_pages : listing servicequotas.ListServiceQuotasOutput :=
  delivers
    [ {| servicequotas.Quotas := [SampleAccounts.jobsQuota] |};
      {| servicequotas.Quotas := [SampleAccounts.concurrentRunsPerJobQuota] |} ].

(** A catalog that delivers the job quota and fails on the next request. *)
Definition cut_short : listing servicequotas.ListServiceQuotasOutput :=
  {| pages := [ Some {| servicequotas.Quotas := [SampleAccounts.jobsQuota] |} ];
     failure := Some accessDenied |}.

(** A catalog with the security-group quota and a code that has no check. *)
Definition vpc : listing servicequotas.ListServiceQuotasOutput :=
  delivers
    [ {| servicequotas.Quotas :=
           [ SampleAccounts.securityGroupsQuota;
             {| servicequotas.QuotaCode := "L-00000000";
                servicequotas.Value := 5 |} ] |} ].

(** Two pages of subnets, each with a block that is no number. *)
Definition ec2_two_malformed : ec2.EC2API :=
  SampleNetworks.ec2_of
    [ [SampleNetworks.subnet "subnet-a" "10.0.2.0/2x" 0; SampleNetworks.subnet24];
      [SampleNetworks.subnet24; SampleNetworks.subnet "subnet-b" "10.0.3.0/zz" 0] ].
End SampleCatalogs.

(** The value of the last tag of [tags] whose normalised key is [key]. *)
Definition lastTagValue (key : string) (tags : list ec2.Tag) : option string :=
  foldl (fun found tag =>
           if bool_decide (ToPrometheusNamingFormat (ec2.Key tag) = key)
           then Some (ec2.Value tag) else found)
        None tags.

(** [region] is a region of no partition of [partitions]. *)
Definition unknownRegion (partitions : list Partition) (region : string) : Prop :=
  Forall (fun partition => region ∉ Regions partition) partitions.

(** [partition] is the first partition of [partitions] with [region]. *)
Definition firstPartitionOf (partitions : list Partition) (region : string)
  (partition : Partition) : Prop :=
  exists before after,
    partitions = before ++ partition :: after
    /\ region ∈ Regions partition
    /\ unknownRegion before region.

Module SampleTags.
Local Open Scope string_scope.

(** Two tags whose keys normalise to the same name, and a third. *)
Definition colliding : list ec2.Tag :=
  [ {| ec2.Key := "kubernetes.io/role"; ec2.Value := "node" |};
    {| ec2.Key := "Name"; ec2.Value := "web" |};
    {| ec2.Key := "kubernetes_io-role"; ec2.Value := "master" |} ].

(** "e" with an acute accent in UTF-8 (two bytes), then "t". *)
Definition accented : string :=
  String (ascii_of_nat 195) (String (ascii_of_nat 169) "t").
End SampleTags.

(** The sum of a list of integers. *)
Definition total (zs : list Z) : Z := foldr Z.add 0 zs.

(** The volumes a client lists for a volume type, whatever the paging. *)
Definition listedVolumes (client : ec2.EC2API) (volumeType : string)
  : list ec2.Volume :=
  itemsOf ec2.Volumes
          (pages (ec2.DescribeVolumesPages client (volumeTypeFilter volumeType))).

Module SampleVolumes.
Local Open Scope string_scope.

(** Two gp2 volumes of 500 and 600 GiB in two pages, one io1 volume of
    100 GiB. *)
Definition ec2_volumes : ec2.EC2API :=
  {| ec2.DescribeSecurityGroupsPages := delivers [ {| ec2.SecurityGroups := [] |} ];
     ec2.DescribeNetworkInterfacesPages :=
       delivers [ {| ec2.NetworkInterfaces := [] |} ];
     ec2.DescribeInstancesPages := fun _ => delivers [ {| ec2.Reservations := [] |} ];
     ec2.DescribeSubnetsPages := delivers [ {| ec2.Subnets := [] |} ];
     ec2.DescribeVolumesPages := fun filters =>
       if bool_decide (map ec2.Values filters = [["gp2"]])
       then delivers [ {| ec2.Volumes := [ {| ec2.Size := 500; ec2.Iops := 1500 |} ] |};
                       {| ec2.Volumes := [ {| ec2.Size := 600; ec2.Iops := 1800 |} ] |} ]
       else if bool_decide (map ec2.Values filters = [["io1"]])
       then delivers [ {| ec2.Volumes := [ {| ec2.Size := 100; ec2.Iops := 5000 |} ] |} ]
       else delivers [ {| ec2.Volumes := [] |} ];
     ec2.DescribeSnapshotsPages := delivers [ {| ec2.Snapshots := [] |} ] |}.

(** Triggers can be listed, in two pages, but not fetched. *)
Definition glue_batch_fails : glue.GlueAPI :=
  {| glue.ListTriggersPages :=
       delivers [ {| glue.TriggerNames := [Some "nightly"] |};
                  {| glue.TriggerNames := [Some "hourly"] |} ];
     glue.BatchGetTriggers := fun names =>
       if bool_decide (names = [Some "nightly"; Some "hourly"])
       then Failure Sample.throttled
       else Reply {| glue.Triggers := [] |};
     glue.ListJobsPages := delivers [ {| glue.JobNames := [] |} ];
     glue.GetJobsPages := delivers [ {| glue.Jobs := [] |} ];
     glue.GetJobRunsPages := fun _ => delivers [ {| glue.JobRuns := [] |} ] |}.
End SampleVolumes.

(** The security groups a client lists, whatever the paging. *)
Definition listedSecurityGroups (client : ec2.EC2API) : list ec2.SecurityGroup :=
  itemsOf ec2.SecurityGroups (pages (ec2.DescribeSecurityGroupsPages client)).

(** The two records of a security group, with the rule counts as sums. *)
Definition rulesOf (group : ec2.SecurityGroup) : list QuotaUsage :=
  [ {| Name := inboundRulesPerSecGrpName;
       ResourceName := ec2.GroupId group;
       Description := inboundRulesPerSecGrpDesc;
       Usage :=
         float64_of_int
           (wrap64 (total (map (fun rule => len (ec2.IpRanges rule)
                                            + len (ec2.UserIdGroupPairs rule))
                               (ec2.IpPermissions group))));
       Quota := 0;
       Tags := ec2TagsToQuotaUsageTags (ec2.sg_Tags group) |};
    {| Name := outboundRulesPerSecGrpName;
       ResourceName := ec2.GroupId group;
       Description := outboundRulesPerSecGrpDesc;
       Usage :=
         float64_of_int
           (wrap64 (total (map (fun rule => len (ec2.IpRanges rule))
                               (ec2.IpPermissionsEgress group))));
       Quota := 0;
       Tags := ec2TagsToQuotaUsageTags (ec2.sg_Tags group) |} ].

(** The filters [standardInstancesCPUs] sends. *)
Definition instanceFilters (spotInstances : bool) : list ec2.Filter :=
  [standardInstanceTypeFilter; activeInstanceFilter]
  ++ (if spotInstances
      then [ {| ec2.Name := "instance-lifecycle"; ec2.Values := ["spot"%string] |} ]
      else []).

(** The instances a client lists under some filters, whatever the paging and
    the reservations. *)
Definition listedInstances (client : ec2.EC2API) (filters : list ec2.Filter)
  : list ec2.Instance :=
  flat_map ec2.Instances
           (itemsOf ec2.Reservations
                    (pages (ec2.DescribeInstancesPages client filters))).

(** The vCPUs of an instance that reports both of its CPU options. *)
Definition vCPUs (instance : ec2.Instance) : Z :=
  match ec2.CoreCount (ec2.instance_CpuOptions instance),
        ec2.ThreadsPerCore (ec2.instance_CpuOptions instance) with
  | Some coreCount, Some threadsPerCore => int_mul coreCount threadsPerCore
  | _, _ => 0
  end.

(** An instance without a lifecycle is an On-Demand one. *)
Definition onDemand (instance : ec2.Instance) : bool :=
  bool_decide (ec2.InstanceLifecycle instance = None).

(** The instances [standardInstancesCPUs] counts among those listed. *)
Definition countedInstances (spotInstances : bool) (listed : list ec2.Instance)
  : list ec2.Instance :=
  if spotInstances then listed else List.filter onDemand listed.

Module SampleGroups.
Local Open Scope string_scope.

(** One group: an ingress rule with two ranges and one pair, an egress rule
    with one range and three pairs. *)
Definition web : ec2.SecurityGroup :=
  {| ec2.GroupId := Some "sg-1";
     ec2.sg_Tags := [];
     ec2.IpPermissions :=
       [ {| ec2.IpRanges := ["10.0.0.0/8"; "192.168.0.0/16"];
            ec2.UserIdGroupPairs := ["sg-2"] |} ];
     ec2.IpPermissionsEgress :=
       [ {| ec2.IpRanges := ["0.0.0.0/0"];
            ec2.UserIdGroupPairs := ["sg-2"; "sg-3"; "sg-4"] |} ] |}.

Definition instance (lifecycle : option string) (cores threads : option Z)
  : ec2.Instance :=
  {| ec2.InstanceLifecycle := lifecycle;
     ec2.instance_CpuOptions :=
       {| ec2.CoreCount := cores; ec2.ThreadsPerCore := threads |} |}.

(** Without the spot filter: an On-Demand instance of 2x2 vCPUs, a spot
    instance of 4x2, and in a second page an instance without a thread
    count.  With it: the spot instance alone. *)
Definition ec2_groups : ec2.EC2API :=
  {| ec2.DescribeSecurityGroupsPages := delivers [ {| ec2.SecurityGroups := [web] |} ];
     ec2.DescribeNetworkInterfacesPages :=
       delivers [ {| ec2.NetworkInterfaces := [] |} ];
     ec2.DescribeInstancesPages := fun filters =>
       if bool_decide (length filters = 2%nat)
       then delivers
              [ {| ec2.Reservations :=
                     [ {| ec2.Instances :=
                            [ instance None (Some 2) (Some 2);
                              instance (Some "spot") (Some 4) (Some 2) ] |} ] |};
                {| ec2.Reservations :=
                     [ {| ec2.Instances := [ instance None (Some 8) None ] |} ] |} ]
       else delivers
              [ {| ec2.Reservations :=
                     [ {| ec2.Instances :=
                            [ instance (Some "spot") (Some 4) (Some 2) ] |} ] |} ];
     ec2.DescribeSubnetsPages := delivers [ {| ec2.Subnets := [] |} ];
     ec2.DescribeVolumesPages := fun _ => delivers [ {| ec2.Volumes := [] |} ];
     ec2.DescribeSnapshotsPages := delivers [ {| ec2.Snapshots := [] |} ] |}.
End SampleGroups.

(* ===================================================================== *)
(** * Properties *)
(* ===================================================================== *)

(** ** tags.go *)

Section TagsFacts.

Local Ltac by_cases_on_byte c :=
  destruct c as [[] [] [] [] [] [] [] []]; vm_compute; try reflexivity;
  try discriminate; auto.

Lemma isLabelChar_toLowerByte c :
  isLabelChar c = true -> isNormalByte (toLowerByte c) = true.
Proof. by_cases_on_byte c. Qed.

Lemma isNormalByte_label c : isNormalByte c = true -> isLabelChar c = true.
Proof. by_cases_on_byte c. Qed.

Lemma isNormalByte_not_upper c : isNormalByte c = true -> isUpper c = false.
Proof. by_cases_on_byte c. Qed.

Lemma toLowerByte_normal c : isNormalByte c = true -> toLowerByte c = c.
Proof. by_cases_on_byte c. Qed.

Lemma underscore_label : isLabelChar "_" = true.
Proof. reflexivity. Qed.

Lemma replaceInvalidFrom_label s :
  forall skip, allBytes isLabelChar (replaceInvalidFrom skip s) = true.
Proof.
  induction s as [|c rest IH]; intros skip; simpl; [reflexivity|].
  destruct skip as [|k]; [|apply IH].
  destruct (isLabelChar c) eqn:Hc; simpl.
  - rewrite Hc. apply IH.
  - apply IH.
Qed.

(** [insertUnderscores] consumes one or two bytes a step: induction on a
    bound of the length. *)
Lemma insertUnderscores_label_bounded n :
  forall s, (String.length s <= n)%nat ->
            allBytes isLabelChar s = true ->
            allBytes isLabelChar (insertUnderscores s) = true.
Proof.
  induction n as [|n IH]; intros s Hlen Hs.
  - destruct s; [reflexivity | simpl in Hlen; lia].
  - destruct s as [|a [|b rest]]; try assumption.
    simpl in Hs, Hlen.
    apply andb_prop in Hs as [Ha Hs].
    pose proof Hs as Hbrest.
    apply andb_prop in Hs as [Hb Hrest].
    change (insertUnderscores (String a (String b rest))) with
      (if isLowerOrDigit a && isUpper b
       then String a (String "_" (String b (insertUnderscores rest)))
       else String a (insertUnderscores (String b rest))).
    destruct (isLowerOrDigit a && isUpper b); cbn [allBytes].
    + rewrite Ha, Hb, underscore_label. cbn [andb].
      apply IH; [lia | assumption].
    + rewrite Ha. cbn [andb]. apply IH; [simpl; lia | exact Hbrest].
Qed.

Lemma insertUnderscores_label s :
  allBytes isLabelChar s = true ->
  allBytes isLabelChar (insertUnderscores s) = true.
Proof. apply (insertUnderscores_label_bounded (String.length s)). lia. Qed.

Lemma ToLower_normal s :
  allBytes isLabelChar s = true -> allBytes isNormalByte (ToLower s) = true.
Proof.
  induction s as [|c rest IH]; simpl; [reflexivity|].
  intros [Hc Hrest]%andb_prop.
  rewrite (isLabelChar_toLowerByte c Hc). simpl. auto.
Qed.

Lemma ToPrometheusNamingFormat_normal s :
  allBytes isNormalByte (ToPrometheusNamingFormat s) = true.
Proof.
  unfold ToPrometheusNamingFormat, toSnakeCase, replaceInvalid.
  apply ToLower_normal, insertUnderscores_label, replaceInvalidFrom_label.
Qed.

Lemma replaceInvalid_normal s :
  allBytes isNormalByte s = true -> replaceInvalid s = s.
Proof.
  unfold replaceInvalid.
  induction s as [|c rest IH]; simpl; [reflexivity|].
  intros [Hc Hrest]%andb_prop.
  rewrite (isNormalByte_label c Hc). f_equal. auto.
Qed.

Lemma insertUnderscores_normal_bounded n :
  forall s, (String.length s <= n)%nat ->
            allBytes isNormalByte s = true -> insertUnderscores s = s.
Proof.
  induction n as [|n IH]; intros s Hlen Hs.
  - destruct s; [reflexivity | simpl in Hlen; lia].
  - destruct s as [|a [|b rest]]; try reflexivity.
    simpl in Hs, Hlen.
    apply andb_prop in Hs as [Ha Hs].
    pose proof Hs as Hbrest.
    apply andb_prop in Hs as [Hb Hrest].
    change (insertUnderscores (String a (String b rest))) with
      (if isLowerOrDigit a && isUpper b
       then String a (String "_" (String b (insertUnderscores rest)))
       else String a (insertUnderscores (String b rest))).
    rewrite (isNormalByte_not_upper b Hb), andb_false_r.
    f_equal. apply IH; [simpl; lia | exact Hbrest].
Qed.

Lemma ToLower_fixes_normal s :
  allBytes isNormalByte s = true -> ToLower s = s.
Proof.
  induction s as [|c rest IH]; simpl; [reflexivity|].
  intros [Hc Hrest]%andb_prop.
  rewrite (toLowerByte_normal c Hc). f_equal. auto.
Qed.

(** A name made of [[a-z0-9_]] only is left as it is. *)
Lemma ToPrometheusNamingFormat_fixes_normal s :
  allBytes isNormalByte s = true -> ToPrometheusNamingFormat s = s.
Proof.
  intros Hs. unfold ToPrometheusNamingFormat, toSnakeCase.
  rewrite (replaceInvalid_normal s Hs).
  rewrite (insertUnderscores_normal_bounded (String.length s) s); auto.
  apply ToLower_fixes_normal, Hs.
Qed.

End TagsFacts.

(** C8: [ToPrometheusNamingFormat] is idempotent on every string, it maps
    "SecurityGroupID" to "security_group_id" and leaves "eth0" as it is. *)
Theorem ToPrometheusNamingFormat_idempotent :
  (forall s : string,
     ToPrometheusNamingFormat (ToPrometheusNamingFormat s)
     = ToPrometheusNamingFormat s)
  /\ ToPrometheusNamingFormat "SecurityGroupID" = "security_group_id"%string
  /\ ToPrometheusNamingFormat "eth0" = "eth0"%string.
Proof.
  split; [|split; reflexivity].
  intros s. apply ToPrometheusNamingFormat_fixes_normal,
              ToPrometheusNamingFormat_normal.
Qed.

(** ** The paginated enumerator *)

Section EnumeratorFacts.
Context {P St : Type}.

(** A callback made by [perPage] sees every delivered page, and [Pages]
    reports the provider's failure. *)
Lemma walkPages_perPage (body : P -> St -> St) failed ps :
  forall st,
    walkPages (perPage body) failed ps st
    = Returns (foldl (visit body) st ps, failed).
Proof.
  induction ps as [|page rest IH]; intros st; [reflexivity|].
  cbn [walkPages foldl].
  destruct page as [page|]; cbn [perPage visit mret outcome_ret mbind outcome_bind].
  - destruct rest as [|next rest'].
    + destruct failed; reflexivity.
    + cbn [negb]. apply IH.
  - destruct rest as [|next rest'].
    + destruct failed; reflexivity.
    + cbn [negb]. apply IH.
Qed.

Lemma Pages_perPage (body : P -> St -> St) (src : listing P) st :
  Pages (perPage body) src st
  = Returns (foldl (visit body) st (pages src), failure src).
Proof. apply walkPages_perPage. Qed.

(** An invariant of the captured variables that the body preserves holds
    when the walk is over. *)
Lemma visit_invariant (I : St -> Prop) (body : P -> St -> St) ps :
  (forall page st, I st -> I (body page st)) ->
  forall st, I st -> I (foldl (visit body) st ps).
Proof.
  intros Hbody. induction ps as [|page rest IH]; intros st Hst; [exact Hst|].
  cbn [foldl]. apply IH. destruct page; cbn [visit]; auto.
Qed.
End EnumeratorFacts.

(** ** Integers *)

Lemma wrap64_small z : - 2 ^ 63 <= z < 2 ^ 63 -> wrap64 z = z.
Proof. intros Hz. unfold wrap64. rewrite Z.mod_small; lia. Qed.

Lemma int_add_wrap64_l a b : int_add (wrap64 a) b = wrap64 (a + b).
Proof.
  unfold int_add, wrap64.
  replace ((a + 2 ^ 63) mod 2 ^ 64 - 2 ^ 63 + b + 2 ^ 63)
    with ((a + 2 ^ 63) mod 2 ^ 64 + b) by lia.
  rewrite Zplus_mod_idemp_l. do 2 f_equal. lia.
Qed.

(** Counting page by page is counting the items, modulo the word size. *)
Lemma count_by_page {P A} (items : P -> list A) (ps : list (option P)) :
  forall n,
    foldl (visit (fun page count => int_add count (len (items page))))
          (wrap64 n) ps
    = wrap64 (n + len (itemsOf items ps)).
Proof.
  induction ps as [|page rest IH]; intros n; cbn [foldl itemsOf flat_map].
  - unfold len. simpl. f_equal. lia.
  - destruct page as [page|]; cbn [visit].
    + rewrite int_add_wrap64_l, IH. f_equal.
      unfold len, itemsOf. cbn [flat_map]. rewrite length_app. lia.
    + rewrite IH. reflexivity.
Qed.

(** ** The captured-error idiom *)

Lemma itemsOf_cons {P A} (items : P -> list A) page ps :
  itemsOf items (page :: ps)
  = match page with Some page => items page | None => [] end
    ++ itemsOf items ps.
Proof. reflexivity. Qed.

Section CapturedErrorFacts.
Context {P A : Type}.
Variable items : P -> list A.
Variable step : A -> outcome (list QuotaUsage + error).

Local Ltac run := cbn [mret outcome_ret mbind outcome_bind].

Lemma eachItem_spec xs :
  forall collected captured,
    page_post step xs collected captured
              (eachItem step xs (collected, captured)).
Proof.
  induction xs as [|x rest IH]; intros collected captured.
  - cbn. split; [exists []; by rewrite app_nil_r|].
    split; [reflexivity|]. intros x Hx. by apply elem_of_nil in Hx.
  - cbn [eachItem]. destruct (step x) as [[records|e]|v] eqn:Hx; run.
    + specialize (IH (collected ++ records) captured).
      unfold page_post in *.
      destruct (eachItem step rest (collected ++ records, captured))
        as [[returned [collected' captured']]|v].
      * destruct IH as [[added ->] IH]. split.
        { exists (records ++ added). by rewrite app_assoc. }
        destruct returned.
        { destruct IH as (y & e & Hy & Hstep & ->).
          exists y, e. split; [by apply elem_of_cons; right | done]. }
        { destruct IH as [-> IH]. split; [done|].
          intros y [->|Hy]%elem_of_cons; [|by apply IH].
          exists records. split; [done|].
          intros r Hr. apply elem_of_app. left. apply elem_of_app. by right. }
      * destruct IH as (y & Hy & Hstep). exists y.
        split; [by apply elem_of_cons; right | done].
    + cbn. split; [exists []; by rewrite app_nil_r|].
      exists x, e. split; [by apply elem_of_cons; left | done].
    + cbn. exists x. split; [by apply elem_of_cons; left | done].
Qed.

Lemma walkPages_eachPage_spec failed ps :
  forall collected captured,
    walk_post step (itemsOf items ps) failed collected captured
              (walkPages (eachPage items step) failed ps (collected, captured)).
Proof.
  induction ps as [|page rest IH]; intros collected captured.
  - cbn. split; [done|]. split; [exists []; by rewrite app_nil_r|].
    split; [done|]. split.
    + intros (x & e & Hx & _). by apply elem_of_nil in Hx.
    + destruct captured; [by left|]. intros x Hx. by apply elem_of_nil in Hx.
  - rewrite itemsOf_cons. cbn [walkPages].
    set (lastPage := match rest with [] => _ | _ => _ end).
    destruct page as [page|]; cbn [eachPage].
    + pose proof (eachItem_spec (items page) collected captured) as Hpage.
      unfold page_post in Hpage.
      destruct (eachItem step (items page) (collected, captured))
        as [[returned [collected1 captured1]]|v]; run.
      2:{ destruct Hpage as (x & Hx & Hstep). exists x.
          split; [apply elem_of_app; by left | done]. }
      destruct Hpage as [[added1 ->] Hpage].
      assert (Hrest :
        walk_post step (itemsOf items rest) failed (collected ++ added1) captured1
          (walkPages (eachPage items step) failed rest
                     (collected ++ added1, captured1))) by apply IH.
      assert (Hstop : lastPage = true -> rest = [] /\ failed = None).
      { subst lastPage. destruct rest; [destruct failed|]; done. }
      match goal with
      | |- walk_post _ _ _ _ _ ?e =>
          assert (e = walkPages (eachPage items step) failed rest
                                (collected ++ added1, captured1)) as ->
      end.
      { destruct returned; run; [done|]. destruct lastPage eqn:Hl; [|done].
        destruct (Hstop eq_refl) as [-> ->]. reflexivity. }
      unfold walk_post in *.
      destruct returned;
        destruct (walkPages (eachPage items step) failed rest
                            (collected ++ added1, captured1))
          as [[[collected2 captured2] err]|v].
      * destruct Hpage as (x & e & Hx & Hstep & ->).
        destruct Hrest as (-> & [added2 ->] & Hsticky & _ & Hcap).
        split; [done|]. split; [exists (added1 ++ added2); by rewrite app_assoc|].
        assert (captured2 <> None) as Hsome by by apply Hsticky.
        split; [done|]. split; [done|].
        destruct captured2 as [e2|]; [|done].
        right. destruct Hcap as [[= ->]|(y & Hy & Hystep)].
        -- exists x. split; [apply elem_of_app; by left | done].
        -- exists y. split; [apply elem_of_app; by right | done].
      * destruct Hrest as (y & Hy & Hystep). exists y.
        split; [apply elem_of_app; by right | done].
      * destruct Hpage as [-> Hpage].
        destruct Hrest as (-> & [added2 ->] & Hsticky & Hfail & Hcap).
        split; [done|]. split; [exists (added1 ++ added2); by rewrite app_assoc|].
        split; [done|]. split.
        { intros (x & e & [Hx|Hx]%elem_of_app & Hstep).
          - destruct (Hpage x Hx) as (records & Hrec & _). congruence.
          - apply Hfail. by exists x, e. }
        destruct captured2 as [e2|].
        { destruct Hcap as [->|(y & Hy & Hystep)]; [by left|].
          right. exists y. split; [apply elem_of_app; by right | done]. }
        intros x [Hx|Hx]%elem_of_app; [|by apply Hcap].
        destruct (Hpage x Hx) as (records & Hrec & Hsub).
        exists records. split; [done|].
        intros r Hr. apply elem_of_app. left. by apply Hsub.
      * destruct Hrest as (y & Hy & Hystep). exists y.
        split; [apply elem_of_app; by right | done].
    + run. cbn [app].
      match goal with
      | |- walk_post _ _ _ _ _ ?e =>
          assert (e = walkPages (eachPage items step) failed rest
                                (collected, captured)) as ->
      end.
      { destruct lastPage eqn:Hl; [|done]. subst lastPage.
        destruct rest; [destruct failed|]; done. }
      apply IH.
Qed.

(** When every item contributes, the walk collects the contributions in
    order and reports the provider's failure. *)
Lemma eachItem_ok (f : A -> list QuotaUsage) xs :
  (forall x, x ∈ xs -> step x = Returns (inl (f x))) ->
  forall collected captured,
    eachItem step xs (collected, captured)
    = Returns (false, (collected ++ flat_map f xs, captured)).
Proof.
  induction xs as [|x rest IH]; intros Hxs collected captured.
  - cbn. by rewrite app_nil_r.
  - cbn [eachItem flat_map]. rewrite (Hxs x) by (apply elem_of_cons; by left).
    run. rewrite IH, app_assoc; [done|].
    intros y Hy. apply Hxs, elem_of_cons. by right.
Qed.

Lemma walkPages_eachPage_ok (f : A -> list QuotaUsage) failed ps :
  (forall x, x ∈ itemsOf items ps -> step x = Returns (inl (f x))) ->
  forall collected captured,
    walkPages (eachPage items step) failed ps (collected, captured)
    = Returns (collected ++ flat_map f (itemsOf items ps), captured, failed).
Proof.
  induction ps as [|page rest IH]; intros Hps collected captured.
  - cbn. by rewrite app_nil_r.
  - rewrite itemsOf_cons in *. cbn [walkPages].
    assert (Hrest : forall x, x ∈ itemsOf items rest ->
                              step x = Returns (inl (f x))).
    { intros x Hx. apply Hps, elem_of_app. by right. }
    destruct page as [page|]; cbn [eachPage].
    + rewrite (eachItem_ok f) by (intros x Hx; apply Hps, elem_of_app; by left).
      run. rewrite flat_map_app, app_assoc.
      destruct rest as [|next rest'].
      * destruct failed; cbn; by rewrite ?app_nil_r.
      * cbn [negb]. by apply IH.
    + run. cbn [app]. destruct rest as [|next rest'].
      * destruct failed; cbn; by rewrite ?app_nil_r.
      * cbn [negb]. by apply IH.
Qed.
End CapturedErrorFacts.

(** A callback that answers [!lastPage] on every page and keeps an invariant
    of the captured variables walks to the end, and [Pages] reports the
    provider's failure. *)
Lemma walkPages_invariant {P St} (fn : option P -> bool -> St -> outcome (bool * St))
  (I : St -> Prop) failed ps :
  (forall page lastPage st, page ∈ ps -> I st ->
     exists st', fn page lastPage st = Returns (negb lastPage, st') /\ I st') ->
  forall st, I st ->
    exists st', walkPages fn failed ps st = Returns (st', failed) /\ I st'.
Proof.
  induction ps as [|page rest IH]; intros Hfn st Hst.
  - exists st. by split.
  - cbn [walkPages].
    set (lastPage := match rest with [] => _ | _ => _ end).
    destruct (Hfn page lastPage st) as (st1 & -> & Hst1);
      [by apply elem_of_cons; left | done |].
    cbn [mbind outcome_bind].
    destruct (IH (fun p l s Hp => Hfn p l s (proj2 (elem_of_cons _ _ _) (or_intror Hp)))
                st1 Hst1) as (st2 & Hwalk & Hst2).
    destruct lastPage eqn:Hl; cbn [negb]; [|by exists st2].
    subst lastPage. destruct rest; [destruct failed|]; try done.
    exists st1. by split.
Qed.

(** ** logs_limits.go and ecr_limits.go: scalar totals *)

(** The log-group check returns one record whatever the paging: its [Usage]
    is the number of log groups. *)
Lemma LogGroupsPerRegionCheck_total client :
  failure (cloudwatchlogs.DescribeLogGroupsPages client) = None ->
  LogGroupsPerRegionCheck_Usage client
  = Returns
      (Some [ {| Name := logGroupsPerRegionName;
                 ResourceName := None;
                 Description := logGroupsPerRegionDescription;
                 Usage :=
                   float64_of_int
                     (wrap64 (len (itemsOf cloudwatchlogs.LogGroups
                        (pages (cloudwatchlogs.DescribeLogGroupsPages client)))));
                 Quota := 0;
                 Tags := None |} ],
       None).
Proof.
  intros Hok. unfold LogGroupsPerRegionCheck_Usage.
  rewrite Pages_perPage, Hok. cbn [mbind outcome_bind finish app].
  change 0 with (wrap64 0) at 1.
  rewrite (count_by_page cloudwatchlogs.LogGroups). reflexivity.
Qed.

Lemma LogGroupsPerRegionCheck_split_independent client1 client2 :
  failure (cloudwatchlogs.DescribeLogGroupsPages client1) = None ->
  failure (cloudwatchlogs.DescribeLogGroupsPages client2) = None ->
  itemsOf cloudwatchlogs.LogGroups
          (pages (cloudwatchlogs.DescribeLogGroupsPages client1))
  = itemsOf cloudwatchlogs.LogGroups
            (pages (cloudwatchlogs.DescribeLogGroupsPages client2)) ->
  LogGroupsPerRegionCheck_Usage client1 = LogGroupsPerRegionCheck_Usage client2.
Proof.
  intros H1 H2 Hitems.
  rewrite !LogGroupsPerRegionCheck_total by done. by rewrite Hitems.
Qed.

(** The repository check appends a record in the callback: it returns as
    many records as the listing has non-nil pages. *)
Lemma RepositoriesPerRegionCheck_records client :
  failure (ecr.DescribeRepositoriesPages client) = None ->
  exists quotaUsages,
    RepositoriesPerRegionCheck_Usage client = Returns (Some quotaUsages, None)
    /\ length quotaUsages
       = length (omap id (pages (ecr.DescribeRepositoriesPages client))).
Proof.
  intros Hok. unfold RepositoriesPerRegionCheck_Usage.
  rewrite Pages_perPage, Hok. cbn [mbind outcome_bind].
  generalize (pages (ecr.DescribeRepositoriesPages client)) as ps.
  assert (Hgen : forall ps quotaUsages count,
    length (fst (foldl (visit (fun page '(quotaUsages, repositoryCount) =>
        (quotaUsages ++
          [ {| Name := repositoriesPerRegionName;
               ResourceName := None;
               Description := repositoriesPerRegionDescription;
               Usage := float64_of_int
                          (int_add repositoryCount (len (ecr.Repositories page)));
               Quota := 0;
               Tags := None |} ],
         int_add repositoryCount (len (ecr.Repositories page)))))
      (quotaUsages, count) ps))
    = (length quotaUsages + length (omap id ps))%nat).
  { induction ps as [|[page|] rest IH]; intros quotaUsages count; cbn [foldl visit].
    - cbn. lia.
    - rewrite IH, length_app. cbn. lia.
    - rewrite IH. cbn. lia. }
  intros ps. specialize (Hgen ps [] 0).
  destruct (foldl _ _ ps) as [quotaUsages count].
  exists quotaUsages. split; [reflexivity | exact Hgen].
Qed.

(** C4: the repository check does not return a single record for a listing
    split over several pages: the same two repositories give one record
    (usage 2) when listed in one page and two records (usage 1, then 2) when
    listed in two. *)
Theorem RepositoriesPerRegionCheck_record_per_page :
  itemsOf ecr.Repositories (pages (ecr.DescribeRepositoriesPages Sample.ecr_one_page))
  = itemsOf ecr.Repositories (pages (ecr.DescribeRepositoriesPages Sample.ecr_two_pages))
  /\ RepositoriesPerRegionCheck_Usage Sample.ecr_one_page
     = Returns (Some [Sample.repositoriesPerRegion 2], None)
  /\ RepositoriesPerRegionCheck_Usage Sample.ecr_two_pages
     = Returns (Some [Sample.repositoriesPerRegion 1;
                      Sample.repositoriesPerRegion 2], None).
Proof. repeat split; vm_compute; reflexivity. Qed.

(** ** ecr_limits.go and glue_limits.go: the two-pass checks *)

(** The image check returns the error of the first [ListImagesPages] that
    fails, and no record. *)
Lemma imagesPerRepository_failure client repos :
  (exists repo, repo ∈ repos /\ failure (ecr.ListImagesPages client repo) <> None) ->
  forall quotaUsages,
    exists err, imagesPerRepository client repos quotaUsages
                = Returns (None, Some (failedToGetUsage err)).
Proof.
  induction repos as [|repo rest IH]; intros (bad & Hbad & Hfail) quotaUsages.
  - by apply elem_of_nil in Hbad.
  - cbn [imagesPerRepository]. rewrite Pages_perPage. cbn [mbind outcome_bind].
    destruct (failure (ecr.ListImagesPages client repo)) as [err|] eqn:Hrepo.
    + by exists err.
    + apply IH. apply elem_of_cons in Hbad as [->|Hbad]; [congruence|].
      by exists bad.
Qed.

Lemma ImagesPerRepositoryCheck_inner_failure :
  ImagesPerRepositoryCheck_Usage Sample.ecr_images_fail
  = Returns (None, Some (failedToGetUsage Sample.throttled)).
Proof. vm_compute. reflexivity. Qed.

(** C5: in the concurrent-runs check a failed [GetJobRunsPages] is not
    returned as an error: with one job whose runs cannot be listed, [Usage]
    panics with the provider's error. *)
Theorem ConcurrentRunsCheck_inner_failure_panics :
  ConcurrentRunsCheck_Usage Sample.glue_runs_fail Sample.heap1
  = Panics Sample.throttled.
Proof. vm_compute. reflexivity. Qed.

(** ** glue_limits.go: the running-state test *)

Section ConcurrentRuns.
Variable m : store.

(** No run whose state pointer is nil or points into [m] is counted, in any
    heap that extends [m]. *)
Lemma concurrentRuns_runs_none runs :
  (forall run, run ∈ runs -> allocated m (glue.JobRunState run)) ->
  forall m', (length m <= length m')%nat ->
    exists m'', concurrentRuns_runs runs (0, m') = (0, m'')
                /\ (length m <= length m'')%nat.
Proof.
  unfold concurrentRuns_runs.
  induction runs as [|run rest IH]; intros Hruns m' Hm'; [by exists m'|].
  cbn [foldl String_].
  assert (ptr_eq (glue.JobRunState run) (Some (length m')) = false) as ->.
  { unfold ptr_eq. apply bool_decide_eq_false. intros Heq.
    pose proof (Hruns run (proj2 (elem_of_cons _ _ _) (or_introl eq_refl))) as Hrun.
    rewrite Heq in Hrun. cbn in Hrun. lia. }
  apply IH.
  - intros r Hr. apply Hruns, elem_of_cons. by right.
  - rewrite length_app. cbn. lia.
Qed.

Lemma concurrentRuns_jobs_none client jobs :
  (forall job, job ∈ jobs -> failure (glue.GetJobRunsPages client job) = None) ->
  (forall job page run,
      job ∈ jobs -> Some page ∈ pages (glue.GetJobRunsPages client job) ->
      run ∈ glue.JobRuns page -> allocated m (glue.JobRunState run)) ->
  forall st, nothing_counted m st ->
    exists st', concurrentRuns_jobs client jobs st = Returns st'
                /\ nothing_counted m st'.
Proof.
  induction jobs as [|job rest IH]; intros Hok Hheap st Hst; [by exists st|].
  cbn [concurrentRuns_jobs]. rewrite Pages_perPage.
  rewrite Hok by (apply elem_of_cons; by left). cbn [mbind outcome_bind].
  apply IH.
  - intros j Hj. apply Hok, elem_of_cons. by right.
  - intros j page run Hj. apply Hheap, elem_of_cons. by right.
  - assert (Hpages : forall page, Some page ∈ pages (glue.GetJobRunsPages client job) ->
              forall run, run ∈ glue.JobRuns page ->
                allocated m (glue.JobRunState run)).
    { intros page Hpage run. apply (Hheap job); [apply elem_of_cons; by left|done]. }
    revert st Hst Hpages.
    generalize (pages (glue.GetJobRunsPages client job)) as ps.
    induction ps as [|[page|] ps IHps]; intros st Hst Hpages; cbn [foldl visit].
    + done.
    + apply IHps.
      * destruct st as [count m']. destruct Hst as [Hcount Hm']. cbn in Hcount, Hm'.
        subst count.
        destruct (concurrentRuns_runs_none (glue.JobRuns page)
                    (Hpages page (proj2 (elem_of_cons _ _ _) (or_introl eq_refl)))
                    m' Hm') as (m'' & Heq & Hm'').
        cbv beta. rewrite Heq. by split.
      * intros p Hp. apply Hpages, elem_of_cons. by right.
    + apply IHps; [done|]. intros p Hp. apply Hpages, elem_of_cons. by right.
Qed.
End ConcurrentRuns.

(** C10: when the job listing and the run listing of every listed job
    succeed, and the state pointers of the listed runs are nil or point into
    the heap the call starts from, the concurrent-runs check returns exactly
    one record, with usage 0: the pointer allocated for the comparison is
    never the pointer of a run, whatever state the run is in. *)
Theorem ConcurrentRunsCheck_counts_nothing (client : glue.GlueAPI) (m : store) :
  failure (glue.ListJobsPages client) = None ->
  (forall job, job ∈ itemsOf glue.JobNames (pages (glue.ListJobsPages client)) ->
     failure (glue.GetJobRunsPages client job) = None) ->
  (forall job page run,
     job ∈ itemsOf glue.JobNames (pages (glue.ListJobsPages client)) ->
     Some page ∈ pages (glue.GetJobRunsPages client job) ->
     run ∈ glue.JobRuns page -> allocated m (glue.JobRunState run)) ->
  ConcurrentRunsCheck_Usage client m
  = Returns (Some [ {| Name := concurrentRunsName;
                       ResourceName := None;
                       Description := concurrentRunsDescription;
                       Usage := 0;
                       Quota := 0;
                       Tags := None |} ],
             None).
Proof.
  intros Hlist Hruns Hheap. unfold ConcurrentRunsCheck_Usage, Pages.
  rewrite Hlist.
  assert (Hin : forall page job,
            Some page ∈ pages (glue.ListJobsPages client) ->
            job ∈ glue.JobNames page ->
            job ∈ itemsOf glue.JobNames (pages (glue.ListJobsPages client))).
  { generalize (pages (glue.ListJobsPages client)) as ps.
    induction ps as [|p ps IH]; intros page job Hpage Hjob.
    - by apply elem_of_nil in Hpage.
    - rewrite itemsOf_cons. apply elem_of_app.
      apply elem_of_cons in Hpage as [<-|Hpage]; [by left|].
      right. by apply (IH page). }
  match goal with
  | |- context [walkPages ?fn None ?ps ?st0] =>
      assert (exists st', walkPages fn None ps st0 = Returns (st', None)
                          /\ nothing_counted m st') as Hwalk
  end.
  { apply walkPages_invariant; [|split; [done | cbn; lia]].
    intros [page|] lastPage st Hpage Hst; [|by exists st].
    destruct (concurrentRuns_jobs_none m client (glue.JobNames page)) with (st := st)
      as (st' & -> & Hst'); try done.
    - intros job Hjob. by apply Hruns, (Hin page).
    - intros job p run Hjob. by apply Hheap, (Hin page).
    - by exists st'. }
  destruct Hwalk as ([count m'] & -> & [Hcount _]).
  cbn in Hcount. subst count. reflexivity.
Qed.

Lemma ConcurrentRunsCheck_counts_nothing_witness :
  Store.deref Sample.heap1 (glue.JobRunState Sample.runningRun)
  = Some glue.JobRunStateRunning
  /\ ConcurrentRunsCheck_Usage Sample.glue_two_running Sample.heap1
     = Returns (Some [ {| Name := concurrentRunsName;
                          ResourceName := None;
                          Description := concurrentRunsDescription;
                          Usage := 0;
                          Quota := 0;
                          Tags := None |} ],
                None).
Proof.
  split; [reflexivity|].
  apply ConcurrentRunsCheck_counts_nothing.
  - reflexivity.
  - intros job _. reflexivity.
  - intros job page run _ Hpage Hrun. cbn in Hpage.
    apply list_elem_of_singleton in Hpage. injection Hpage as ->.
    cbn in Hrun. apply elem_of_cons in Hrun as [->|Hrun].
    + cbn. lia.
    + apply list_elem_of_singleton in Hrun as ->. cbn. lia.
Defined.

(** ** The subnet check *)

Lemma length_append (a b : string) :
  String.length (a +:+ b) = (String.length a + String.length b)%nat.
Proof.
  induction a as [|c a IH]; [reflexivity|].
  change (S (String.length (a +:+ b)) = S (String.length a + String.length b)).
  by f_equal.
Qed.

Lemma dropBytes_append (a b : string) : dropBytes (String.length a) (a +:+ b) = b.
Proof. induction a as [|c a IH]; [by destruct b | exact IH]. Qed.

Lemma append_assoc (a b c : string) : (a +:+ b) +:+ c = a +:+ (b +:+ c).
Proof.
  induction a as [|x a IH]; [reflexivity|].
  change (String x ((a +:+ b) +:+ c) = String x (a +:+ (b +:+ c))).
  by f_equal.
Qed.

(** The last two bytes of [prefix ++ "/" ++ suffix], for a suffix of two
    bytes and for a suffix of one. *)
Lemma lastTwoBytes_two prefix (d1 d2 : ascii) :
  lastTwoBytes (prefix +:+ String "/" (String d1 (String d2 EmptyString)))
  = String d1 (String d2 EmptyString).
Proof.
  unfold lastTwoBytes.
  change (String "/" (String d1 (String d2 EmptyString)))
    with (String "/" EmptyString +:+ String d1 (String d2 EmptyString)).
  rewrite <- append_assoc, length_append.
  replace (_ + _ - 2)%nat with (String.length (prefix +:+ String "/" EmptyString)).
  - apply dropBytes_append.
  - rewrite length_append. cbn. lia.
Qed.

Lemma lastTwoBytes_one prefix (d : ascii) :
  lastTwoBytes (prefix +:+ String "/" (String d EmptyString))
  = String "/" (String d EmptyString).
Proof.
  unfold lastTwoBytes. rewrite length_append.
  replace (_ + _ - 2)%nat with (String.length prefix) by (cbn; lia).
  apply dropBytes_append.
Qed.

Lemma sliceFrom_lastTwoBytes (s : string) :
  (2 <= String.length s)%nat ->
  sliceFrom s (Z.of_nat (String.length s) - 2) = Returns (lastTwoBytes s).
Proof.
  intros Hlen. unfold sliceFrom, lastTwoBytes.
  destruct (Z.ltb_spec (Z.of_nat (String.length s) - 2) 0); [lia|].
  destruct (Z.ltb_spec (Z.of_nat (String.length s))
                       (Z.of_nat (String.length s) - 2)); [lia|].
  cbn [orb]. do 2 f_equal. lia.
Qed.

(** What the loop body does with a subnet whose block has two bytes or more:
    a record when the last two bytes are a number, the conversion error
    otherwise. *)
Lemma availabilityInfo_cases (subnet : ec2.Subnet) :
  (2 <= String.length (ec2.CidrBlock subnet))%nat ->
  if validInteger (lastTwoBytes (ec2.CidrBlock subnet))
  then exists info, availabilityInfo subnet = Returns (inl [info])
  else exists cause,
      availabilityInfo subnet
      = Returns (inr (Wrapf ErrFailedToConvertCidr cause)).
Proof.
  intros Hlen. unfold availabilityInfo, validInteger.
  rewrite sliceFrom_lastTwoBytes by done. cbn [mbind outcome_bind].
  destruct (strconv.Atoi (lastTwoBytes (ec2.CidrBlock subnet)))
    as [blockedBits [err|]]; cbn [snd].
  - rewrite bool_decide_eq_false_2 by done. by eexists.
  - rewrite bool_decide_eq_true_2 by done. by eexists.
Qed.

Lemma availabilityInfo_slash24 (subnet : ec2.Subnet) prefix :
  ec2.CidrBlock subnet = prefix +:+ "/24" ->
  ec2.AvailableIpAddressCount subnet = 200 ->
  availabilityInfo subnet
  = Returns (inl [ {| Name := availableIPsPerSubnetName;
                      ResourceName := ec2.SubnetId subnet;
                      Description := availableIPsPerSubnetDesc;
                      Usage := 56;
                      Quota := 256;
                      Tags := ec2TagsToQuotaUsageTags (ec2.subnet_Tags subnet) |} ]).
Proof.
  intros Hcidr Havailable. unfold availabilityInfo.
  rewrite sliceFrom_lastTwoBytes, Hcidr, Havailable.
  - rewrite lastTwoBytes_two. reflexivity.
  - rewrite Hcidr, length_append. cbn. lia.
Qed.

(** The subnet walk never panics on blocks of two bytes or more. *)
Lemma availability_walk_returns failed ps :
  (forall subnet, subnet ∈ itemsOf ec2.Subnets ps ->
     (2 <= String.length (ec2.CidrBlock subnet))%nat) ->
  exists availabilityInfos conversionErr err,
    walkPages (eachPage ec2.Subnets availabilityInfo) failed ps ([], None)
    = Returns (availabilityInfos, conversionErr, err)
    /\ walk_post availabilityInfo (itemsOf ec2.Subnets ps) failed [] None
                 (Returns (availabilityInfos, conversionErr, err)).
Proof.
  intros Hlen.
  pose proof (walkPages_eachPage_spec ec2.Subnets availabilityInfo failed ps [] None)
    as Hwalk.
  destruct (walkPages _ failed ps ([], None))
    as [[[availabilityInfos conversionErr] err]|v].
  - by exists availabilityInfos, conversionErr, err.
  - destruct Hwalk as (subnet & Hin & Hpanic).
    pose proof (availabilityInfo_cases subnet (Hlen subnet Hin)) as Hcases.
    destruct (validInteger _); destruct Hcases as [? Hcases]; congruence.
Qed.

(** C9: when the listing succeeds and the last two bytes of every block are
    a number, the subnet check returns, and for a subnet with a /24 block and
    200 available addresses the result holds a record with that subnet's
    identifier, usage 56 and quota 256. *)
Theorem AvailableIps_slash24 (client : ec2.EC2API) (subnet : ec2.Subnet)
  (prefix : string) :
  failure (ec2.DescribeSubnetsPages client) = None ->
  (forall other, other ∈ enumeratedSubnets client ->
     (2 <= String.length (ec2.CidrBlock other))%nat
     /\ validInteger (lastTwoBytes (ec2.CidrBlock other)) = true) ->
  subnet ∈ enumeratedSubnets client ->
  ec2.CidrBlock subnet = prefix +:+ "/24" ->
  ec2.AvailableIpAddressCount subnet = 200 ->
  exists quotaUsages info,
    AvailableIpsPerSubnetUsageCheck_Usage client = Returns (Some quotaUsages, None)
    /\ info ∈ quotaUsages
    /\ Name info = availableIPsPerSubnetName
    /\ ResourceName info = ec2.SubnetId subnet
    /\ Usage info = 56%float
    /\ Quota info = 256%float.
Proof.
  intros Hok Hvalid Hin Hcidr Havailable.
  unfold AvailableIpsPerSubnetUsageCheck_Usage, Pages.
  destruct (availability_walk_returns (failure (ec2.DescribeSubnetsPages client))
              (pages (ec2.DescribeSubnetsPages client)))
    as (availabilityInfos & conversionErr & err & -> & Hpost).
  { intros other Hother. by apply Hvalid. }
  destruct Hpost as (-> & _ & _ & _ & Hcaptured).
  rewrite Hok. cbn [mbind outcome_bind].
  destruct conversionErr as [e|].
  - destruct Hcaptured as [[=]|(bad & Hbad & Hstep)].
    destruct (Hvalid bad Hbad) as [Hlen Hnumber].
    pose proof (availabilityInfo_cases bad Hlen) as Hcases.
    rewrite Hnumber in Hcases. destruct Hcases as [? Hcases]. congruence.
  - destruct (Hcaptured subnet Hin) as (records & Hstep & Hsub).
    rewrite (availabilityInfo_slash24 subnet prefix Hcidr Havailable) in Hstep.
    injection Hstep as <-.
    eexists _, _. split; [reflexivity|]. split.
    + apply Hsub, list_elem_of_singleton. reflexivity.
    + repeat split.
Qed.

Lemma AvailableIps_slash24_witness :
  exists quotaUsages info,
    AvailableIpsPerSubnetUsageCheck_Usage SampleNetworks.ec2_slash24
    = Returns (Some quotaUsages, None)
    /\ info ∈ quotaUsages
    /\ Name info = availableIPsPerSubnetName
    /\ ResourceName info = Some "subnet-24"%string
    /\ Usage info = 56%float
    /\ Quota info = 256%float.
Proof.
  apply (AvailableIps_slash24 SampleNetworks.ec2_slash24 SampleNetworks.subnet24
                              "10.0.1.0").
  - reflexivity.
  - intros other Hother. cbn in Hother.
    apply list_elem_of_singleton in Hother as ->. split; [cbn; lia | reflexivity].
  - cbn. apply list_elem_of_singleton. reflexivity.
  - reflexivity.
  - reflexivity.
Defined.

Lemma isDigit_value (d : ascii) :
  isDigit d = true ->
  strconv.isSign d = false
  /\ (0 <=? Z.of_nat (nat_of_ascii d) - 48)
     && (Z.of_nat (nat_of_ascii d) - 48 <=? 9) = true.
Proof.
  destruct d as [[] [] [] [] [] [] [] []]; vm_compute; intros; try discriminate;
    split; reflexivity.
Qed.

Lemma Atoi_two_digits (d1 d2 : ascii) :
  isDigit d1 = true -> isDigit d2 = true ->
  validInteger (String d1 (String d2 EmptyString)) = true.
Proof.
  intros [Hsign1 Hvalue1]%isDigit_value [_ Hvalue2]%isDigit_value.
  unfold validInteger, strconv.Atoi. rewrite Hsign1.
  cbn [strconv.digits]. rewrite Hvalue1, Hvalue2.
  assert (bool_decide (d1 = "-"%char) = false) as ->.
  { unfold strconv.isSign in Hsign1. by apply orb_false_elim in Hsign1 as [-> _]. }
  apply andb_prop in Hvalue1 as [Hlo1 Hhi1], Hvalue2 as [Hlo2 Hhi2].
  apply Z.leb_le in Hlo1, Hhi1, Hlo2, Hhi2.
  set (n := (0 * 10 + _) * 10 + _).
  assert (0 <= n <= 99) as Hn by (subst n; lia).
  destruct (Z.ltb_spec n (- 2 ^ 63)); [lia|].
  destruct (Z.leb_spec (2 ^ 63) n); [lia|].
  reflexivity.
Qed.

(** C6, as the code has it: provided every enumerated block has two bytes or
    more, the subnet check returns the failed-to-convert-CIDR error exactly
    when the listing does not fail and the last two bytes of some enumerated
    block are not a number.  A two-digit prefix length is always accepted; a
    one-digit prefix length never is, the two bytes read being the '/' and
    the digit. *)
Theorem AvailableIps_conversion_error :
  (forall client : ec2.EC2API,
     (forall subnet, subnet ∈ enumeratedSubnets client ->
        (2 <= String.length (ec2.CidrBlock subnet))%nat) ->
     isConversionError (AvailableIpsPerSubnetUsageCheck_Usage client) = true
     <-> failure (ec2.DescribeSubnetsPages client) = None
         /\ exists subnet, subnet ∈ enumeratedSubnets client
              /\ validInteger (lastTwoBytes (ec2.CidrBlock subnet)) = false)
  /\ (forall prefix d1 d2,
        isDigit d1 = true -> isDigit d2 = true ->
        validInteger
          (lastTwoBytes
             (prefix +:+ String "/" (String d1 (String d2 EmptyString)))) = true)
  /\ (forall prefix d,
        validInteger
          (lastTwoBytes (prefix +:+ String "/" (String d EmptyString))) = false).
Proof.
  split; [|split].
  - intros client Hlen.
    unfold AvailableIpsPerSubnetUsageCheck_Usage, Pages.
    destruct (availability_walk_returns (failure (ec2.DescribeSubnetsPages client))
                (pages (ec2.DescribeSubnetsPages client)) Hlen)
      as (availabilityInfos & conversionErr & err & -> & Hpost).
    destruct Hpost as (-> & _ & _ & Hfails & Hcaptured).
    cbn [mbind outcome_bind]. fold (enumeratedSubnets client) in *.
    assert (Hwrapped : forall e,
              conversionErr = Some e ->
              exists bad cause,
                bad ∈ enumeratedSubnets client
                /\ validInteger (lastTwoBytes (ec2.CidrBlock bad)) = false
                /\ e = Wrapf ErrFailedToConvertCidr cause).
    { intros e ->. destruct Hcaptured as [[=]|(bad & Hbad & Hstep)].
      pose proof (availabilityInfo_cases bad (Hlen bad Hbad)) as Hcases.
      destruct (validInteger _) eqn:Hinvalid; destruct Hcases as [x Hcases];
        rewrite Hcases in Hstep; [done|].
      injection Hstep as <-. by exists bad, x. }
    split.
    + destruct (failure (ec2.DescribeSubnetsPages client)) as [listErr|];
        [done|].
      destruct conversionErr as [e|]; [|done].
      intros _. destruct (Hwrapped e eq_refl) as (bad & cause & Hbad & Hinvalid & _).
      split; [done|]. by exists bad.
    + intros [-> (bad & Hbad & Hinvalid)].
      assert (conversionErr <> None) as Hsome.
      { apply Hfails.
        pose proof (availabilityInfo_cases bad (Hlen bad Hbad)) as Hcases.
        rewrite Hinvalid in Hcases. destruct Hcases as [cause Hcases].
        by exists bad, (Wrapf ErrFailedToConvertCidr cause). }
      destruct conversionErr as [e|]; [|done].
      destruct (Hwrapped e eq_refl) as (_ & cause & _ & _ & ->). reflexivity.
  - intros prefix d1 d2 Hd1 Hd2. rewrite lastTwoBytes_two.
    by apply Atoi_two_digits.
  - intros prefix d. rewrite lastTwoBytes_one. reflexivity.
Qed.

Lemma AvailableIps_conversion_error_witness :
  isConversionError
    (AvailableIpsPerSubnetUsageCheck_Usage SampleNetworks.ec2_malformed) = true
  <-> failure (ec2.DescribeSubnetsPages SampleNetworks.ec2_malformed) = None
      /\ exists subnet, subnet ∈ enumeratedSubnets SampleNetworks.ec2_malformed
           /\ validInteger (lastTwoBytes (ec2.CidrBlock subnet)) = false.
Proof.
  apply (proj1 AvailableIps_conversion_error SampleNetworks.ec2_malformed).
  intros subnet Hin. cbn in Hin.
  apply elem_of_cons in Hin as [->|Hin]; [cbn; lia|].
  apply list_elem_of_singleton in Hin as ->. cbn. lia.
Defined.

(** C6, as stated, fails: the block "10.0.0.0/8" has the valid prefix length
    "8", and the check returns the conversion error for it. *)
Lemma AvailableIps_single_digit_prefix_rejected :
  ~ (isConversionError
       (AvailableIpsPerSubnetUsageCheck_Usage SampleNetworks.ec2_slash8) = true
     <-> exists subnet, subnet ∈ enumeratedSubnets SampleNetworks.ec2_slash8
           /\ validInteger (afterSlash (ec2.CidrBlock subnet)) = false).
Proof.
  intros [Hclaim _].
  destruct (Hclaim eq_refl) as (subnet & Hin & Hinvalid).
  cbn in Hin. apply list_elem_of_singleton in Hin as ->.
  vm_compute in Hinvalid. discriminate.
Qed.

(** ** service_quotas.go: the aggregator *)

Lemma elem_of_flat_map {A B} (f : A -> list B) (xs : list A) x y :
  x ∈ xs -> y ∈ f x -> y ∈ flat_map f xs.
Proof.
  intros Hx Hy. apply list_elem_of_In, in_flat_map.
  exists x. split; by apply list_elem_of_In.
Qed.

Lemma existsb_elem_of {A} (f : A -> bool) (xs : list A) :
  existsb f xs = true <-> exists x, x ∈ xs /\ f x = true.
Proof.
  rewrite existsb_exists. split; intros (x & Hx & Hf); exists x;
    (split; [by apply list_elem_of_In | done]).
Qed.

Lemma existsb_none {A} (f : A -> bool) (xs : list A) :
  existsb f xs = false -> forall x, x ∈ xs -> f x = false.
Proof.
  intros Hnone x Hx. destruct (f x) eqn:Hf; [|done].
  assert (existsb f xs = true) by (apply existsb_elem_of; by exists x).
  congruence.
Qed.

Lemma existsb_pointwise {A} (f g : A -> bool) (xs : list A) :
  (forall x, x ∈ xs -> f x = g x) -> existsb f xs = existsb g xs.
Proof.
  induction xs as [|x xs IH]; intros Hfg; [done|]. cbn.
  rewrite (Hfg x) by (apply elem_of_cons; by left).
  rewrite IH; [done|]. intros y Hy. apply Hfg, elem_of_cons. by right.
Qed.

Lemma flat_map_pointwise {A B} (f g : A -> list B) (xs : list A) :
  (forall x, x ∈ xs -> f x = g x) -> flat_map f xs = flat_map g xs.
Proof.
  induction xs as [|x xs IH]; intros Hfg; [done|]. cbn.
  rewrite (Hfg x) by (apply elem_of_cons; by left).
  rewrite IH; [done|]. intros y Hy. apply Hfg, elem_of_cons. by right.
Qed.

Section CatalogWalk.
Variable checks : gmap string UsageCheck.

Local Ltac run := cbn [mret outcome_ret mbind outcome_bind].

(** What the loop body does with one listed quota. *)
Lemma usagesOfQuota_outcome quota :
  match usagesOfQuota checks quota with
  | Returns (inl records) =>
      quotaFails checks quota = false
      /\ records = recordsOfQuota checks quota
  | Returns (inr err) => quotaFails checks quota = true
  | Panics v =>
      exists check, checks !! servicequotas.QuotaCode quota = Some check
                    /\ usageOf check = Panics v
  end.
Proof.
  unfold usagesOfQuota, quotaFails, recordsOfQuota, usageOf.
  destruct (checks !! servicequotas.QuotaCode quota) as [check|]; [|done].
  destruct (check_Usage check ()) as [[quotaUsages [err|]]|v] eqn:Husage; run;
    [done|done|].
  by exists check.
Qed.

Lemma usagesOfQuota_inl quota records :
  usagesOfQuota checks quota = Returns (inl records) ->
  records = recordsOfQuota checks quota
  /\ forall check, checks !! servicequotas.QuotaCode quota = Some check ->
       exists quotaUsages, usageOf check = Returns (quotaUsages, None).
Proof.
  unfold usagesOfQuota, recordsOfQuota, usageOf.
  destruct (checks !! servicequotas.QuotaCode quota) as [check|].
  - destruct (check_Usage check ()) as [[quotaUsages [err|]]|v] eqn:Husage; run;
      [done| |done].
    intros [= <-]. split; [done|]. intros ? [= <-]. by exists quotaUsages.
  - run. intros [= <-]. split; done.
Qed.

(** The walk of one catalog is all or nothing, and it panics only when the
    check of a listed quota does. *)
Lemma usagesOfCatalog_outcome catalog :
  match usagesOfCatalog checks catalog with
  | Returns (quotaUsages, err) =>
      if catalogFails checks catalog
      then quotaUsages = None /\ is_Some err
      else quotaUsages = Some (recordsOfCatalog checks catalog) /\ err = None
  | Panics v =>
      exists quota check,
        quota ∈ listedQuotas catalog
        /\ checks !! servicequotas.QuotaCode quota = Some check
        /\ usageOf check = Panics v
  end.
Proof.
  unfold catalogFails, usagesOfCatalog, recordsOfCatalog, listedQuotas, Pages.
  pose proof (walkPages_eachPage_spec servicequotas.Quotas (usagesOfQuota checks)
                (failure catalog) (pages catalog) [] None) as Hwalk.
  destruct (walkPages _ (failure catalog) (pages catalog) ([], None))
    as [[[serviceQuotaUsages usageErr] err]|v] eqn:Hwalked; run.
  - destruct Hwalk as (-> & _ & _ & _ & Hcaptured).
    destruct (failure catalog) as [listErr|] eqn:Hlisting.
    { rewrite bool_decide_eq_true_2 by done. by split. }
    rewrite bool_decide_eq_false_2 by (by intros [? ?]). cbn [orb].
    destruct usageErr as [usageErr|].
    + destruct Hcaptured as [[=]|(bad & Hbad & Hstep)].
      pose proof (usagesOfQuota_outcome bad) as Hquota. rewrite Hstep in Hquota.
      assert (existsb (quotaFails checks)
                      (itemsOf servicequotas.Quotas (pages catalog)) = true) as ->
        by (apply existsb_elem_of; by exists bad).
      by split.
    + assert (Hall : forall quota,
                quota ∈ itemsOf servicequotas.Quotas (pages catalog) ->
                quotaFails checks quota = false
                /\ usagesOfQuota checks quota
                   = Returns (inl (recordsOfQuota checks quota))).
      { intros quota Hquota. destruct (Hcaptured quota Hquota) as (records & Hstep & _).
        pose proof (usagesOfQuota_outcome quota) as Hout. rewrite Hstep in Hout.
        destruct Hout as [Hok ->]. by split. }
      rewrite (walkPages_eachPage_ok servicequotas.Quotas (usagesOfQuota checks)
                 (recordsOfQuota checks)) in Hwalked
        by (intros quota Hquota; by apply Hall).
      injection Hwalked as <-.
      destruct (existsb _ _) eqn:Hfails; [|done].
      apply existsb_elem_of in Hfails as (quota & Hquota & Hfails).
      destruct (Hall quota Hquota). congruence.
  - destruct Hwalk as (quota & Hquota & Hpanic).
    pose proof (usagesOfQuota_outcome quota) as Hout. rewrite Hpanic in Hout.
    destruct Hout as (check & Hcheck & Hcall). by exists quota, check.
Qed.
End CatalogWalk.

Section AppendEach.
Context {A : Type}.
Variable step : A -> usage_result.

Local Ltac run := cbn [mret outcome_ret mbind outcome_bind].

(** A loop of [QuotasAndUsage] stops at the first error or panic of a step;
    it appends what the steps return otherwise. *)
Lemma appendEach_outcome items :
  forall allQuotaUsages,
    match appendEach step items allQuotaUsages with
    | Returns (inl collected) =>
        collected
        = allQuotaUsages ++ flat_map (fun x => returnedRecords (step x)) items
        /\ forall x, x ∈ items -> exists quotas, step x = Returns (quotas, None)
    | Returns (inr err) =>
        exists x quotas, x ∈ items /\ step x = Returns (quotas, Some err)
    | Panics v => exists x, x ∈ items /\ step x = Panics v
    end.
Proof.
  induction items as [|x rest IH]; intros allQuotaUsages.
  - cbn. split; [by rewrite app_nil_r|]. intros x Hx. by apply elem_of_nil in Hx.
  - cbn [appendEach flat_map].
    destruct (step x) as [[quotas [err|]]|v] eqn:Hx; run.
    + exists x, quotas. split; [apply elem_of_cons; by left | done].
    + specialize (IH (allQuotaUsages ++ elements quotas)).
      destruct (appendEach step rest (allQuotaUsages ++ elements quotas))
        as [[collected|err]|v].
      * destruct IH as [-> IH]. split; [by rewrite app_assoc|].
        intros y [->|Hy]%elem_of_cons; [by exists quotas | by apply IH].
      * destruct IH as (y & q & Hy & Hstep). exists y, q.
        split; [apply elem_of_cons; by right | done].
      * destruct IH as (y & Hy & Hstep). exists y.
        split; [apply elem_of_cons; by right | done].
    + exists x. split; [apply elem_of_cons; by left | done].
Qed.

(** With steps that return, the loop ends with the error of the first step
    that has one. *)
Lemma appendEach_first items :
  (forall x, x ∈ items -> returns (step x) = true) ->
  forall allQuotaUsages,
    appendEach step items allQuotaUsages
    = Returns (match firstError step items with
               | Some err => inr err
               | None =>
                   inl (allQuotaUsages
                        ++ flat_map (fun x => returnedRecords (step x)) items)
               end).
Proof.
  induction items as [|x rest IH]; intros Hreturn allQuotaUsages.
  - cbn. by rewrite app_nil_r.
  - cbn [firstError flat_map appendEach].
    pose proof (Hreturn x (proj2 (elem_of_cons _ _ _) (or_introl eq_refl))) as Hx.
    destruct (step x) as [[quotas [err|]]|v]; run; [done| |done].
    rewrite (IH (fun y Hy => Hreturn y (proj2 (elem_of_cons _ _ _) (or_intror Hy)))).
    cbn [returnedRecords]. by rewrite app_assoc.
Qed.

(** When the loop goes through, every step returned a nil error and its
    records are among those collected. *)
Lemma appendEach_inl items :
  forall allQuotaUsages collected,
    appendEach step items allQuotaUsages = Returns (inl collected) ->
    (exists added, collected = allQuotaUsages ++ added)
    /\ forall x, x ∈ items ->
         exists quotas, step x = Returns (quotas, None)
                        /\ elements quotas ⊆ collected.
Proof.
  induction items as [|x rest IH]; intros allQuotaUsages collected.
  - cbn. intros [= <-]. split; [exists []; by rewrite app_nil_r|].
    intros x Hx. by apply elem_of_nil in Hx.
  - cbn [appendEach].
    destruct (step x) as [[quotas [err|]]|v] eqn:Hx; run; [done| |done].
    intros Hrest. apply IH in Hrest as [[added ->] Hrest]. split.
    + exists (elements quotas ++ added). by rewrite app_assoc.
    + intros y [->|Hy]%elem_of_cons; [|by apply Hrest].
      exists quotas. split; [done|].
      intros r Hr. apply elem_of_app. left. apply elem_of_app. by right.
Qed.
End AppendEach.

(** The walk of the catalogs of all services, for one registry: the records
    of all catalogs when nothing fails. *)
Lemma catalogs_outcome (checks : gmap string UsageCheck)
  (catalogOf : string -> listing servicequotas.ListServiceQuotasOutput)
  (allQuotaUsages : list QuotaUsage) :
  match appendEach (fun service => usagesOfCatalog checks (catalogOf service))
                   allServices allQuotaUsages with
  | Returns (inl collected) =>
      existsb (fun service => catalogFails checks (catalogOf service)) allServices
      = false
      /\ collected
         = allQuotaUsages
           ++ flat_map (fun service => recordsOfCatalog checks (catalogOf service))
                       allServices
  | Returns (inr err) =>
      existsb (fun service => catalogFails checks (catalogOf service)) allServices
      = true
  | Panics v => exists code check, checks !! code = Some check
                                   /\ usageOf check = Panics v
  end.
Proof.
  pose proof (appendEach_outcome
                (fun service => usagesOfCatalog checks (catalogOf service))
                allServices allQuotaUsages) as Hloop.
  destruct (appendEach _ allServices allQuotaUsages) as [[collected|err]|v].
  - destruct Hloop as [-> Hall].
    assert (Hservice : forall service, service ∈ allServices ->
              catalogFails checks (catalogOf service) = false
              /\ returnedRecords (usagesOfCatalog checks (catalogOf service))
                 = recordsOfCatalog checks (catalogOf service)).
    { intros service Hin. destruct (Hall service Hin) as [quotas Hstep].
      pose proof (usagesOfCatalog_outcome checks (catalogOf service)) as Hout.
      rewrite Hstep in Hout |- *.
      destruct (catalogFails _ _); [by destruct Hout as [_ [? [=]]]|].
      destruct Hout as [-> _]. by split. }
    split.
    + destruct (existsb _ allServices) eqn:Hfails; [|done].
      apply existsb_elem_of in Hfails as (service & Hin & Hfails).
      destruct (Hservice service Hin). congruence.
    + f_equal. apply flat_map_pointwise. intros service Hin.
      by apply Hservice.
  - destruct Hloop as (service & quotas & Hin & Hstep).
    pose proof (usagesOfCatalog_outcome checks (catalogOf service)) as Hout.
    rewrite Hstep in Hout. apply existsb_elem_of. exists service. split; [done|].
    destruct (catalogFails _ _); [done|]. by destruct Hout as [_ [=]].
  - destruct Hloop as (service & Hin & Hstep).
    pose proof (usagesOfCatalog_outcome checks (catalogOf service)) as Hout.
    rewrite Hstep in Hout. destruct Hout as (quota & check & _ & Hcheck & Hcall).
    by exists (servicequotas.QuotaCode quota), check.
Qed.

(** Whenever [QuotasAndUsage] returns, it returns a nil slice and a non-nil
    error if a catalog enumeration or the [Usage] of a consulted check
    returns an error, whatever was collected before, and the accumulated
    records with a nil error otherwise; it fails to return only when a
    registered check panics. *)
Lemma QuotasAndUsage_outcome (s : ServiceQuotas) :
  match QuotasAndUsage s with
  | Returns (quotaUsages, err) =>
      if anyFailure s
      then quotaUsages = None /\ is_Some err
      else quotaUsages = Some (accumulated s) /\ err = None
  | Panics v => exists check, registered s check /\ usageOf check = Panics v
  end.
Proof.
  unfold QuotasAndUsage, anyFailure, accumulated, otherRecords, registered.
  change (fun check : UsageCheck => check_Usage check ()) with usageOf.
  assert (Hothers : forall collected,
    match
      walked ← appendEach usageOf (otherUsageChecks s) collected;
      match walked with
      | inr err => mret (None, Some err)
      | inl allQuotaUsages => mret (Some allQuotaUsages, None)
      end
    with
    | Returns (quotaUsages, err) =>
        if existsb (fun check => returnsError (usageOf check)) (otherUsageChecks s)
        then quotaUsages = None /\ is_Some err
        else quotaUsages
             = Some (collected
                     ++ flat_map (fun check => returnedRecords (usageOf check))
                                 (otherUsageChecks s))
             /\ err = None
    | Panics v => exists check, check ∈ otherUsageChecks s /\ usageOf check = Panics v
    end).
  { intros collected.
    pose proof (appendEach_outcome usageOf (otherUsageChecks s) collected) as Hloop.
    destruct (appendEach usageOf (otherUsageChecks s) collected)
      as [[all|err]|v]; cbn [mbind outcome_bind mret outcome_ret].
    - destruct Hloop as [-> Hall].
      destruct (existsb _ _) eqn:Hfails; [|done].
      apply existsb_elem_of in Hfails as (check & Hin & Hfails).
      destruct (Hall check Hin) as [quotas Hcall]. by rewrite Hcall in Hfails.
    - destruct Hloop as (check & quotas & Hin & Hcall).
      assert (existsb (fun check => returnsError (usageOf check))
                      (otherUsageChecks s) = true) as ->; [|by split].
      apply existsb_elem_of. exists check. by rewrite Hcall.
    - done. }
  destruct (isAwsChina s); cbn [negb andb orb mbind outcome_bind mret outcome_ret].
  { specialize (Hothers []). cbn [app] in *.
    match goal with
    | |- match ?e with _ => _ end => destruct e as [[quotaUsages err]|v]
    end; [done|].
    destruct Hothers as (check & Hin & Hcall). exists check. split; [|done].
    by right; right. }
  pose proof (catalogs_outcome (serviceQuotasUsageChecks s)
                (servicequotas.ListServiceQuotasPages (quotasService s)) [])
    as Hwalk1.
  change (fun service => usagesOfCatalog (serviceQuotasUsageChecks s)
            (servicequotas.ListServiceQuotasPages (quotasService s) service))
    with (quotasForService s) in Hwalk1.
  destruct (appendEach (quotasForService s) allServices [])
    as [[collected1|err1]|v1]; cbn [mbind outcome_bind mret outcome_ret].
  2:{ rewrite Hwalk1. by split. }
  2:{ destruct Hwalk1 as (code & check & Hcheck & Hcall). exists check.
      split; [|done]. left. by exists code. }
  destruct Hwalk1 as [-> ->]. cbn [orb app].
  match goal with
  | |- context [appendEach (defaultsForService s) allServices ?collected] =>
      pose proof (catalogs_outcome (serviceDefaultUsageChecks s)
                    (servicequotas.ListAWSDefaultServiceQuotasPages (quotasService s))
                    collected) as Hwalk2;
      change (fun service => usagesOfCatalog (serviceDefaultUsageChecks s)
                (servicequotas.ListAWSDefaultServiceQuotasPages
                   (quotasService s) service))
        with (defaultsForService s) in Hwalk2;
      destruct (appendEach (defaultsForService s) allServices collected)
        as [[collected2|err2]|v2]; cbn [mbind outcome_bind mret outcome_ret]
  end.
  2:{ rewrite Hwalk2. by split. }
  2:{ destruct Hwalk2 as (code & check & Hcheck & Hcall). exists check.
      split; [|done]. right; left. by exists code. }
  destruct Hwalk2 as [-> ->]. cbn [orb].
  specialize (Hothers
    (flat_map (fun service => recordsOfCatalog (serviceQuotasUsageChecks s)
                 (servicequotas.ListServiceQuotasPages (quotasService s) service))
              allServices
     ++ flat_map (fun service => recordsOfCatalog (serviceDefaultUsageChecks s)
                    (servicequotas.ListAWSDefaultServiceQuotasPages
                       (quotasService s) service))
                 allServices)).
  match goal with
  | |- match ?e with _ => _ end => destruct e as [[quotaUsages err]|v]
  end; [done|].
  destruct Hothers as (check & Hin & Hcall). exists check. split; [|done].
  by right; right.
Qed.

(** C1: a refresh in which the [Usage] call of a check fails may return
    neither an error nor a result.  Service "vpc" has produced a record, the
    catalog of "glue" lists the quota whose registered check is the
    concurrent-runs check, the runs of the account's job cannot be listed,
    and [QuotasAndUsage] panics with the provider's error. *)
Theorem QuotasAndUsage_panics_on_inner_failure :
  returnedRecords (quotasForService SampleAccounts.runs_fail "vpc") <> []
  /\ SampleAccounts.concurrentRunsQuota
       ∈ listedQuotas (servicequotas.ListServiceQuotasPages
                         (quotasService SampleAccounts.runs_fail) "glue")
  /\ serviceQuotasUsageChecks SampleAccounts.runs_fail !! "L-5E4153CA"%string
     = Some (check (ConcurrentRunsCheck_Usage Sample.glue_runs_fail Sample.heap1))
  /\ failure (glue.GetJobRunsPages Sample.glue_runs_fail (Some "etl"%string))
     = Some Sample.throttled
  /\ QuotasAndUsage SampleAccounts.runs_fail = Panics Sample.throttled.
Proof.
  split; [vm_compute; discriminate|].
  split; [cbn; apply list_elem_of_singleton; reflexivity|].
  split; [vm_compute; reflexivity|].
  split; [reflexivity|].
  vm_compute. reflexivity.
Qed.

(** A refresh that fails in service "glue" after service "vpc" produced a
    record, and one in which nothing fails. *)
Lemma QuotasAndUsage_late_failure :
  (anyFailure SampleAccounts.late_failure = true
   /\ returnedRecords (quotasForService SampleAccounts.late_failure "vpc") <> []
   /\ QuotasAndUsage SampleAccounts.late_failure
      = Returns (None, Some (failedToGetUsage Sample.throttled)))
  /\ (anyFailure SampleAccounts.healthy = false
      /\ QuotasAndUsage SampleAccounts.healthy
         = Returns (Some (accumulated SampleAccounts.healthy), None)).
Proof.
  split.
  - split; [vm_compute; reflexivity|]. split; [vm_compute; discriminate|].
    vm_compute. reflexivity.
  - split; vm_compute; reflexivity.
Qed.

Lemma elem_of_itemsOf {P A} (items : P -> list A) (ps : list (option P)) page x :
  Some page ∈ ps -> x ∈ items page -> x ∈ itemsOf items ps.
Proof.
  induction ps as [|p ps IH]; intros Hpage Hx.
  - by apply elem_of_nil in Hpage.
  - rewrite itemsOf_cons. apply elem_of_app.
    apply elem_of_cons in Hpage as [<-|Hpage]; [by left|].
    right. by apply IH.
Qed.

(** A catalog walk that returns records returns, for every listed quota with
    a registered check, the records of that check with the catalog's value
    as [Quota]. *)
Lemma usagesOfCatalog_records checks catalog quotaUsages quota check :
  usagesOfCatalog checks catalog = Returns (quotaUsages, None) ->
  quota ∈ listedQuotas catalog ->
  checks !! servicequotas.QuotaCode quota = Some check ->
  exists returned,
    usageOf check = Returns (returned, None)
    /\ forall r, r ∈ elements returned ->
         setQuota (servicequotas.Value quota) r ∈ elements quotaUsages.
Proof.
  unfold usagesOfCatalog, Pages, listedQuotas. intros Hwalked Hquota Hcheck.
  pose proof (walkPages_eachPage_spec servicequotas.Quotas (usagesOfQuota checks)
                (failure catalog) (pages catalog) [] None) as Hwalk.
  destruct (walkPages _ (failure catalog) (pages catalog) ([], None))
    as [[[serviceQuotaUsages usageErr] err]|v]; [|done].
  cbn [mbind outcome_bind] in Hwalked.
  destruct err as [err|]; [done|]. destruct usageErr as [usageErr|]; [done|].
  injection Hwalked as <-.
  destruct Hwalk as (_ & _ & _ & _ & Hall).
  destruct (Hall quota Hquota) as (records & Hstep & Hsub).
  apply usagesOfQuota_inl in Hstep as [-> Hreturned].
  destruct (Hreturned check Hcheck) as [returned Hcall].
  exists returned. split; [done|]. intros r Hr. apply Hsub.
  unfold recordsOfQuota. rewrite Hcheck, Hcall. cbn [returnedRecords].
  apply list_elem_of_In, in_map, list_elem_of_In, Hr.
Qed.

(** C7, as the code has it: when a refresh outside the China partition
    succeeds, for every quota that a walked service's catalog lists and that
    has a check in the service-specific registry, the check returned without
    error and every record it returned is in the result with [Quota] set to
    the catalog's value and nothing else changed; so the result holds such a
    record whenever the check returned one. *)
Theorem QuotasAndUsage_registered_quota (s : ServiceQuotas) (service : string)
  (page : servicequotas.ListServiceQuotasOutput)
  (quota : servicequotas.ServiceQuota) (check : UsageCheck)
  (result : list QuotaUsage) :
  isAwsChina s = false ->
  QuotasAndUsage s = Returns (Some result, None) ->
  service ∈ allServices ->
  Some page ∈ pages (servicequotas.ListServiceQuotasPages (quotasService s) service) ->
  quota ∈ servicequotas.Quotas page ->
  serviceQuotasUsageChecks s !! servicequotas.QuotaCode quota = Some check ->
  exists returned,
    usageOf check = Returns (returned, None)
    /\ (forall r, r ∈ elements returned ->
          setQuota (servicequotas.Value quota) r ∈ result)
    /\ (elements returned <> [] ->
        exists r r', r ∈ elements returned /\ r' ∈ result
                     /\ Name r' = Name r
                     /\ Quota r' = servicequotas.Value quota).
Proof.
  intros Hregion Hrefresh Hservice Hpage Hquota Hcheck.
  unfold QuotasAndUsage in Hrefresh. rewrite Hregion in Hrefresh.
  cbn [negb mbind outcome_bind] in Hrefresh.
  destruct (appendEach (quotasForService s) allServices [])
    as [[collected1|err]|v] eqn:Hwalk1; [|done|done].
  cbn [mbind outcome_bind] in Hrefresh.
  destruct (appendEach (defaultsForService s) allServices collected1)
    as [[collected2|err]|v] eqn:Hwalk2; [|done|done].
  cbn [mbind outcome_bind] in Hrefresh.
  destruct (appendEach _ (otherUsageChecks s) collected2)
    as [[collected3|err]|v] eqn:Hwalk3; [|done|done].
  injection Hrefresh as <-.
  apply appendEach_inl in Hwalk1 as [_ Hwalk1].
  apply appendEach_inl in Hwalk2 as [[added2 ->] _].
  apply appendEach_inl in Hwalk3 as [[added3 ->] _].
  destruct (Hwalk1 service Hservice) as (quotaUsages & Hwalked & Hsub).
  destruct (usagesOfCatalog_records _ _ _ quota check Hwalked) as (returned & Hcall & Hin);
    [by apply (elem_of_itemsOf _ _ page) | done |].
  assert (Hresult : forall r, r ∈ elements returned ->
            setQuota (servicequotas.Value quota) r
              ∈ (collected1 ++ added2) ++ added3).
  { intros r Hr. apply elem_of_app. left. apply elem_of_app. left.
    by apply Hsub, Hin. }
  exists returned. split; [done|]. split; [done|].
  intros Hsome. destruct (elements returned) as [|r rest] eqn:Hreturned; [done|].
  exists r, (setQuota (servicequotas.Value quota) r).
  split; [apply elem_of_cons; by left|].
  split; [apply Hresult, elem_of_cons; by left|]. by split.
Qed.

Lemma QuotasAndUsage_registered_quota_witness :
  exists returned,
    usageOf (check (SecurityGroupsPerRegionUsageCheck_Usage SampleNetworks.ec2_slash24))
    = Returns (returned, None)
    /\ (forall r, r ∈ elements returned ->
          setQuota 2500 r ∈ accumulated SampleAccounts.healthy)
    /\ (elements returned <> [] ->
        exists r r', r ∈ elements returned
                     /\ r' ∈ accumulated SampleAccounts.healthy
                     /\ Name r' = Name r
                     /\ Quota r' = 2500%float).
Proof.
  apply (QuotasAndUsage_registered_quota SampleAccounts.healthy "vpc"
           {| servicequotas.Quotas := [SampleAccounts.securityGroupsQuota] |}
           SampleAccounts.securityGroupsQuota).
  - reflexivity.
  - vm_compute. reflexivity.
  - unfold allServices. apply elem_of_cons. right. apply elem_of_cons. by left.
  - cbn. apply list_elem_of_singleton. reflexivity.
  - cbn. apply list_elem_of_singleton. reflexivity.
  - vm_compute. reflexivity.
Defined.

(** C7, as stated, fails: the catalog lists the concurrent-runs-per-job
    quota, the registry has its check, the refresh succeeds, and for an
    account without Glue jobs the result holds no record of that name. *)
Lemma registered_quota_without_record :
  SampleAccounts.concurrentRunsPerJobQuota
    ∈ listedQuotas (servicequotas.ListServiceQuotasPages
                      (quotasService SampleAccounts.no_jobs) "glue")
  /\ serviceQuotasUsageChecks SampleAccounts.no_jobs !! "L-F574AED9"%string
     = Some (check (ConcurrentRunsPerJobCheck_Usage Sample.glue_empty))
  /\ exists result,
       QuotasAndUsage SampleAccounts.no_jobs = Returns (Some result, None)
       /\ ~ exists r, r ∈ result /\ Name r = concurrentRunsPerJobName.
Proof.
  split; [cbn; apply list_elem_of_singleton; reflexivity|].
  split; [vm_compute; reflexivity|].
  eexists. split; [vm_compute; reflexivity|].
  intros (r & Hr & Hname).
  apply list_elem_of_singleton in Hr as ->. discriminate.
Qed.

(** C2, as the code has it: for a region of the partition without quota
    catalog, the refresh consults neither catalog nor registry.  It runs the
    three checks without formal quota and, when none of them panics, returns
    the error of the first of them that has one, as the check returned it,
    or else exactly their records, in order and unchanged: [Quota] is what
    the check put there. *)
Theorem QuotasAndUsage_china (autoscalingAPI : Type)
  (ASGUsageCheck_Usage : autoscalingAPI -> usage_result)
  (sdk : SDK autoscalingAPI) (region profile : string)
  (s : ServiceQuotas) :
  NewServiceQuotas autoscalingAPI ASGUsageCheck_Usage sdk region profile
  = (Some s, None) ->
  (isValidRegion (DefaultPartitions _ sdk) region).2 = true ->
  Forall (fun check => returns (usageOf check) = true) (otherUsageChecks s) ->
  (exists c : Clients autoscalingAPI,
     otherUsageChecks s
     = [ check (AvailableIpsPerSubnetUsageCheck_Usage (ec2Client _ c));
         check (ASGUsageCheck_Usage (autoscalingClient _ c));
         check (MaxSendIn24HoursCheck_Usage (sesv2Client _ c)) ])
  /\ QuotasAndUsage s
     = Returns (match firstError usageOf (otherUsageChecks s) with
                | Some err => (None, Some err)
                | None => (Some (otherRecords s), None)
                end).
Proof.
  unfold NewServiceQuotas. intros Hnew Hchina Hreturn.
  destruct (isValidRegion _ region) as [validRegion isChina].
  cbn in Hchina. subst isChina.
  destruct validRegion; [|done]. cbn [negb] in Hnew.
  destruct (NewSessionWithOptions _ sdk profile) as [awsSession|err]; [|done].
  injection Hnew as <-. split; [by exists (awsSession region)|].
  unfold QuotasAndUsage, otherRecords.
  cbn [isAwsChina negb mbind outcome_bind mret outcome_ret].
  change (fun check : UsageCheck => check_Usage check ()) with usageOf.
  match goal with
  | |- context [appendEach usageOf ?others []] =>
      rewrite (appendEach_first usageOf others
                 (fun check Hcheck =>
                    proj1 (Forall_forall _ _) Hreturn check Hcheck) []);
      by destruct (firstError usageOf others)
  end.
Qed.

Lemma QuotasAndUsage_china_witness :
  (NewServiceQuotas unit SampleAccounts.noRecords
     (SampleAccounts.sdk SampleAccounts.china_account) "cn-north-1" ""
   = (Some (SampleAccounts.serviceQuotas true SampleAccounts.china_account), None)
   /\ QuotasAndUsage (SampleAccounts.serviceQuotas true SampleAccounts.china_account)
      = Returns
          (Some (otherRecords
                   (SampleAccounts.serviceQuotas true SampleAccounts.china_account)),
           None))
  /\ QuotasAndUsage (SampleAccounts.serviceQuotas true SampleAccounts.china_ses_down)
     = Returns (None, Some (failedToGetUsage Sample.throttled)).
Proof.
  split; [split; [reflexivity|]|].
  - exact (proj2 (QuotasAndUsage_china unit SampleAccounts.noRecords
                    (SampleAccounts.sdk SampleAccounts.china_account)
                    "cn-north-1" "" _ eq_refl eq_refl
                    ltac:(apply (bool_decide_unpack _); vm_compute; exact I))).
  - exact (proj2 (QuotasAndUsage_china unit SampleAccounts.noRecords
                    (SampleAccounts.sdk SampleAccounts.china_ses_down)
                    "cn-northwest-1" "" _ eq_refl eq_refl
                    ltac:(apply (bool_decide_unpack _); vm_compute; exact I))).
Defined.

(** C2, as stated, fails: in the China partition the result holds the subnet
    record, whose [Quota] is 256, and the send-quota record, whose [Quota] is
    the account's 24-hour maximum. *)
Lemma china_records_carry_a_quota :
  exists s result,
    NewServiceQuotas unit SampleAccounts.noRecords
      (SampleAccounts.sdk SampleAccounts.china_account) "cn-north-1" ""
    = (Some s, None)
    /\ isAwsChina s = true
    /\ QuotasAndUsage s = Returns (Some result, None)
    /\ (exists r, r ∈ result /\ Name r = availableIPsPerSubnetName
                  /\ Quota r = 256%float /\ float64_eq (Quota r) 0 = false)
    /\ (exists r, r ∈ result /\ Name r = maxSendIn24HoursName
                  /\ Quota r = 50000%float /\ float64_eq (Quota r) 0 = false).
Proof.
  eexists _, _. split; [reflexivity|]. split; [reflexivity|].
  split; [vm_compute; reflexivity|]. split.
  - eexists. split; [apply elem_of_cons; left; reflexivity|].
    repeat split.
  - eexists. split; [apply elem_of_cons; right; apply elem_of_cons; left; reflexivity|].
    repeat split.
Qed.

(** ** [Quota] in the records of the checks *)

Section QuotaUnset.

Lemma quotaUnset_app l1 l2 :
  quotaUnset l1 -> quotaUnset l2 -> quotaUnset (l1 ++ l2).
Proof. intros H1 H2. by apply Forall_app. Qed.

Lemma foldl_invariant {A B} (I : A -> Prop) (f : A -> B -> A) xs :
  (forall a x, I a -> I (f a x)) -> forall a, I a -> I (foldl f a xs).
Proof.
  intros Hf. induction xs as [|x xs IH]; intros a Ha; [done|].
  cbn. by apply IH, Hf.
Qed.

Lemma finish_records err quotaUsages returned err' :
  finish err quotaUsages = Returns (Some returned, err') ->
  returned = quotaUsages.
Proof. unfold finish. destruct err; cbn; [done|]. by intros [= <- _]. Qed.

Local Ltac zero_quota :=
  repeat first
    [ assumption
    | apply quotaUnset_app
    | apply Forall_nil_2
    | apply Forall_cons; split; [reflexivity|] ].

(** A check that walks with [perPage] and appends records whose [Quota] is
    zero. *)
Lemma perPage_records {P} (body : P -> list QuotaUsage -> list QuotaUsage)
  (src : listing P) returned err' :
  (forall page quotaUsages,
     quotaUnset quotaUsages -> quotaUnset (body page quotaUsages)) ->
  ('(quotaUsages, err) ← Pages (perPage body) src []; finish err quotaUsages)
  = Returns (Some returned, err') ->
  quotaUnset returned.
Proof.
  intros Hbody. rewrite Pages_perPage. cbn [mbind outcome_bind].
  intros ->%finish_records. apply visit_invariant; [done | constructor].
Qed.

Lemma imagesPerRepository_records client repos :
  forall quotaUsages returned err,
    quotaUnset quotaUsages ->
    imagesPerRepository client repos quotaUsages = Returns (Some returned, err) ->
    quotaUnset returned.
Proof.
  induction repos as [|repo rest IH]; intros quotaUsages returned err Hzero.
  - cbn. by intros [= <- _].
  - cbn [imagesPerRepository]. rewrite Pages_perPage. cbn [mbind outcome_bind].
    destruct (failure _); [done|]. apply IH. zero_quota.
Qed.

Lemma indirect_returns {A B} (p : option A) (k : A -> outcome B) b :
  (a ← indirect p; k a) = Returns b -> exists a, p = Some a /\ k a = Returns b.
Proof. destruct p as [a|]; [|done]. intros Hk. by exists a. Qed.

Lemma appKPUs_page_records client apps :
  forall quotaUsages returned,
    quotaUnset quotaUsages ->
    appKPUs_page client apps quotaUsages = Returns (inl returned) ->
    quotaUnset returned.
Proof.
  induction apps as [|app rest IH]; intros quotaUsages returned Hzero.
  - cbn. by intros [= <-].
  - cbn [appKPUs_page]. destruct (kinesisanalyticsv2.DescribeApplication _ _);
      [|done].
    intros (detail & _ & Hcall)%indirect_returns.
    apply indirect_returns in Hcall as (config & _ & Hcall).
    apply indirect_returns in Hcall as (flink & _ & Hcall).
    apply indirect_returns in Hcall as (parallelism & _ & Hcall).
    apply indirect_returns in Hcall as (currentParallelism & _ & Hcall).
    revert Hcall. apply IH. zero_quota.
Qed.

Lemma appKPUs_loop_records client apps :
  forall quotaUsages returned err,
    quotaUnset quotaUsages ->
    appKPUs_loop client apps quotaUsages = Returns (Some returned, err) ->
    quotaUnset returned.
Proof.
  induction apps as [apps|apps next IH|listErr];
    intros quotaUsages returned err Hzero; cbn [appKPUs_loop].
  - destruct (appKPUs_page _ _ _) as [[collected|]|] eqn:Hpage; [|done..].
    intros [= <- _]. by apply (appKPUs_page_records _ _ _ _ Hzero Hpage).
  - destruct (appKPUs_page _ _ _) as [[collected|]|] eqn:Hpage; [|done..].
    apply IH. by apply (appKPUs_page_records _ _ _ _ Hzero Hpage).
  - done.
Qed.

Lemma jobsPerTrigger_triggers_records triggers :
  forall quotaUsages returned,
    quotaUnset quotaUsages ->
    jobsPerTrigger_triggers triggers quotaUsages = Returns returned ->
    quotaUnset returned.
Proof.
  induction triggers as [|trigger rest IH]; intros quotaUsages returned Hzero.
  - cbn. by intros [= <-].
  - cbn [jobsPerTrigger_triggers]. cbv zeta.
    destruct (jobsPerTrigger_actions _ _) as [jobsTriggered|]; [|done].
    cbn [mbind outcome_bind]. apply IH. zero_quota.
Qed.

(** A check that returns one record, built after the walk. *)
Local Ltac scalar H :=
  match type of H with
  | context [Pages ?fn ?src ?st] =>
      destruct (Pages fn src st) as [[? [?|]]|?]; cbn in H; try discriminate H;
      injection H as <-; zero_quota
  end.

Lemma strategy_quota_unset (c : strategy) returned err :
  setsItsOwnQuota c = false ->
  strategy_Usage c = Returns (Some returned, err) ->
  quotaUnset returned.
Proof.
  destruct c; intros Hown Hcall; try discriminate Hown; clear Hown;
    cbn [strategy_Usage] in Hcall.
  - (* RulesPerSecurityGroupUsageCheck *)
    eapply perPage_records; [|exact Hcall].
    intros page quotaUsages Hzero. apply foldl_invariant; [|done].
    intros acc group Hacc.
    cbv beta zeta.
    match goal with
    | |- context [foldl ?f ?a (ec2.IpPermissionsEgress group)] =>
        destruct (foldl f a (ec2.IpPermissionsEgress group))
    end.
    zero_quota.
  - (* SecurityGroupsPerENIUsageCheck *)
    eapply perPage_records; [|exact Hcall].
    intros page quotaUsages Hzero. apply foldl_invariant; [|done].
    intros acc eni Hacc. zero_quota.
  - unfold SecurityGroupsPerRegionUsageCheck_Usage in Hcall. scalar Hcall.
  - unfold StandardSpotInstanceRequestsUsageCheck_Usage, standardInstancesCPUs
      in Hcall. scalar Hcall.
  - unfold RunningOnDemandStandardInstancesUsageCheck_Usage,
      standardInstancesCPUs in Hcall. scalar Hcall.
  - unfold MaxGP2StoragePerRegionCheck_Usage, storagePerRegion in Hcall.
    scalar Hcall.
  - unfold MaxIo1StoragePerRegionCheck_Usage, storagePerRegion in Hcall.
    scalar Hcall.
  - unfold MaxIo2StoragePerRegionCheck_Usage, storagePerRegion in Hcall.
    scalar Hcall.
  - unfold MaxGP3StoragePerRegionCheck_Usage, storagePerRegion in Hcall.
    scalar Hcall.
  - unfold MaxSt1StoragePerRegionCheck_Usage, storagePerRegion in Hcall.
    scalar Hcall.
  - unfold MaxStandardStoragePerRegionCheck_Usage, storagePerRegion in Hcall.
    scalar Hcall.
  - unfold MaxSc1StoragePerRegionCheck_Usage, storagePerRegion in Hcall.
    scalar Hcall.
  - unfold EbsSnapshotsPerRegionCheck_Usage in Hcall. scalar Hcall.
  - unfold MaxIo2IopsPerRegionCheck_Usage, iopsPerRegion in Hcall. scalar Hcall.
  - unfold MaxIo1IopsPerRegionCheck_Usage, iopsPerRegion in Hcall. scalar Hcall.
  - unfold ENIsPerRegionCheck_Usage in Hcall. scalar Hcall.
  - (* RepositoriesPerRegionCheck *)
    unfold RepositoriesPerRegionCheck_Usage in Hcall.
    rewrite Pages_perPage in Hcall. cbn [mbind outcome_bind] in Hcall.
    match type of Hcall with
    | context [foldl ?f ?st ?ps] =>
        assert (quotaUnset (foldl f st ps).1) as Hzero
    end.
    { apply (visit_invariant (fun st => quotaUnset st.1)); [|constructor].
      intros page [quotaUsages count] Hacc. cbn in *. zero_quota. }
    destruct (foldl _ _ _) as [quotaUsages count].
    by apply finish_records in Hcall as ->.
  - (* ImagesPerRepositoryCheck *)
    unfold ImagesPerRepositoryCheck_Usage in Hcall.
    rewrite Pages_perPage in Hcall. cbn [mbind outcome_bind] in Hcall.
    destruct (failure _); [done|].
    eapply imagesPerRepository_records; [|exact Hcall]. constructor.
  - unfold LogGroupsPerRegionCheck_Usage in Hcall. scalar Hcall.
  - (* ReadReplicasPerMasterCheck *)
    eapply perPage_records; [|exact Hcall].
    intros page quotaUsages Hzero. apply foldl_invariant; [|done].
    intros acc group Hacc. zero_quota.
  - unfold MaxTotalStorageCheck_Usage in Hcall. scalar Hcall.
  - (* AppKPUUsageCheck *)
    eapply appKPUs_loop_records; [|exact Hcall]. constructor.
  - (* AppsPerRegionCheck *)
    unfold AppsPerRegionCheck_Usage in Hcall.
    destruct (appsPerRegion_loop _ _); [|done].
    injection Hcall as <-. zero_quota.
  - (* JobsPerTriggerCheck *)
    unfold JobsPerTriggerCheck_Usage in Hcall.
    rewrite Pages_perPage in Hcall. cbn [mbind outcome_bind] in Hcall.
    destruct (failure _); [done|].
    destruct (glue.BatchGetTriggers _ _) as [triggers|]; [|done].
    destruct (jobsPerTrigger_triggers _ _) as [collected|] eqn:Hloop; [|done].
    injection Hcall as <-.
    eapply jobsPerTrigger_triggers_records; [|exact Hloop]. constructor.
  - unfold JobsPerAccountCheck_Usage in Hcall. scalar Hcall.
  - (* ConcurrentRunsPerJobCheck *)
    eapply perPage_records; [|exact Hcall].
    intros page quotaUsages Hzero. apply foldl_invariant; [|done].
    intros acc job Hacc. zero_quota.
  - unfold DPUsCheck_Usage in Hcall. scalar Hcall.
  - (* ConcurrentRunsCheck *)
    unfold ConcurrentRunsCheck_Usage in Hcall.
    match type of Hcall with
    | context [Pages ?fn ?src ?st] =>
        destruct (Pages fn src st) as [[[? ?] [?|]]|?]; cbn in Hcall;
        try discriminate Hcall
    end.
    injection Hcall as <-. zero_quota.
  - unfold UserSnapshotsPerRegionCheck_Usage in Hcall. scalar Hcall.
Qed.
End QuotaUnset.

(** The record of a subnet. *)
Lemma availabilityInfo_record (subnet : ec2.Subnet) records :
  availabilityInfo subnet = Returns (inl records) ->
  exists info,
    records = [info]
    /\ ResourceName info = ec2.SubnetId subnet
    /\ Quota info
       = Pow2 (32 - (strconv.Atoi (lastTwoBytes (ec2.CidrBlock subnet))).1).
Proof.
  unfold availabilityInfo, sliceFrom.
  destruct (_ || _) eqn:Hbounds; [done|]. cbn [mbind outcome_bind].
  replace (dropBytes _ (ec2.CidrBlock subnet))
    with (lastTwoBytes (ec2.CidrBlock subnet)).
  - destruct (strconv.Atoi _) as [blockedBits [err|]]; [done|].
    intros [= <-]. by eexists.
  - unfold lastTwoBytes. f_equal.
    apply orb_false_elim in Hbounds as [Hlow _]. apply Z.ltb_ge in Hlow. lia.
Qed.

(** A subnet check that returns records returns one per enumerated subnet,
    in order. *)
Lemma AvailableIps_records (client : ec2.EC2API) returned err :
  AvailableIpsPerSubnetUsageCheck_Usage client = Returns (Some returned, err) ->
  Forall2 (fun subnet info =>
             ResourceName info = ec2.SubnetId subnet
             /\ Quota info
                = Pow2 (32 - (strconv.Atoi
                                (lastTwoBytes (ec2.CidrBlock subnet))).1))
          (enumeratedSubnets client) returned.
Proof.
  unfold AvailableIpsPerSubnetUsageCheck_Usage, Pages, enumeratedSubnets.
  set (failed := failure (ec2.DescribeSubnetsPages client)).
  set (ps := pages (ec2.DescribeSubnetsPages client)).
  intros Hcall.
  pose proof (walkPages_eachPage_spec ec2.Subnets availabilityInfo failed ps
                [] None) as Hwalk.
  set (records := fun subnet =>
         match availabilityInfo subnet with
         | Returns (inl records) => records
         | _ => []
         end).
  pose proof (walkPages_eachPage_ok ec2.Subnets availabilityInfo records failed ps)
    as Hok.
  destruct (walkPages _ failed ps ([], None))
    as [[[availabilityInfos conversionErr] listErr]|v] eqn:Hwalked;
    cbn [mbind outcome_bind] in Hcall; [|done].
  destruct listErr; [done|]. destruct conversionErr; [done|].
  injection Hcall as -> <-.
  destruct Hwalk as (_ & _ & _ & _ & Hall).
  assert (Hsteps : forall subnet, subnet ∈ itemsOf ec2.Subnets ps ->
                     availabilityInfo subnet = Returns (inl (records subnet))).
  { intros subnet Hin. destruct (Hall subnet Hin) as (rs & Hstep & _).
    unfold records. by rewrite Hstep. }
  rewrite (Hok Hsteps [] None) in Hwalked. injection Hwalked as <- _.
  cbn [app]. clear Hok Hall.
  induction (itemsOf ec2.Subnets ps) as [|subnet rest IH]; [constructor|].
  cbn [flat_map].
  destruct (availabilityInfo_record subnet (records subnet)) as (info & -> & Hinfo).
  { apply Hsteps, elem_of_cons. by left. }
  cbn [app]. constructor; [exact Hinfo|].
  apply IH. intros other Hother. apply Hsteps, elem_of_cons. by right.
Qed.

(** What a successful refresh holds: the records of the registered checks of
    the listed quotas, with the catalog's value as [Quota], and the records
    of the checks without formal quota as they are. *)
Lemma QuotasAndUsage_provenance (s : ServiceQuotas) result err r' :
  QuotasAndUsage s = Returns (Some result, err) ->
  r' ∈ result ->
  (exists service quota check r,
     service ∈ allServices
     /\ ((quota ∈ listedQuotas (servicequotas.ListServiceQuotasPages
                                  (quotasService s) service)
          /\ serviceQuotasUsageChecks s !! servicequotas.QuotaCode quota
             = Some check)
         \/ (quota ∈ listedQuotas (servicequotas.ListAWSDefaultServiceQuotasPages
                                     (quotasService s) service)
             /\ serviceDefaultUsageChecks s !! servicequotas.QuotaCode quota
                = Some check))
     /\ r ∈ returnedRecords (usageOf check)
     /\ r' = setQuota (servicequotas.Value quota) r)
  \/ (exists check,
        check ∈ otherUsageChecks s /\ r' ∈ returnedRecords (usageOf check)).
Proof.
  intros Hcall Hr'.
  pose proof (QuotasAndUsage_outcome s) as Hout. rewrite Hcall in Hout.
  destruct (anyFailure s); [by destruct Hout|].
  destruct Hout as [[= ->] _]. unfold accumulated in Hr'.
  assert (Hcatalog : forall checks (catalogOf : string -> _),
    r' ∈ flat_map (fun service => recordsOfCatalog checks (catalogOf service))
                  allServices ->
    exists service quota check r,
      service ∈ allServices
      /\ quota ∈ listedQuotas (catalogOf service)
      /\ checks !! servicequotas.QuotaCode quota = Some check
      /\ r ∈ returnedRecords (usageOf check)
      /\ r' = setQuota (servicequotas.Value quota) r).
  { intros checks catalogOf Hin.
    apply list_elem_of_In, in_flat_map in Hin as (service & Hservice & Hin).
    unfold recordsOfCatalog in Hin.
    apply in_flat_map in Hin as (quota & Hquota & Hin).
    unfold recordsOfQuota in Hin.
    destruct (checks !! servicequotas.QuotaCode quota) as [check|] eqn:Hcheck;
      [|done].
    apply in_map_iff in Hin as (r & <- & Hr).
    exists service, quota, check, r.
    repeat split; try done; by apply list_elem_of_In. }
  apply elem_of_app in Hr' as [Hr'|Hr'].
  - left. destruct (isAwsChina s); [by apply elem_of_nil in Hr'|].
    apply elem_of_app in Hr' as [Hr'|Hr'];
      apply Hcatalog in Hr' as (service & quota & check & r & ? & ? & ? & ? & ?);
      exists service, quota, check, r.
    + split; [done|]. split; [by left|]. by split.
    + split; [done|]. split; [by right|]. by split.
  - right. unfold otherRecords in Hr'.
    apply list_elem_of_In in Hr'.
    apply in_flat_map in Hr' as (check & Hcheck & Hr').
    exists check. split; by apply list_elem_of_In.
Qed.

(** C3, as the code has it.  Every usage check of the package other than
    the subnet check and the send-quota check returns its records with
    [Quota] at its zero value.  The Aggregator assigns [Quota] after the
    check has returned: a record of a successful refresh is the record of
    the check registered for a listed quota with [Quota] set to the
    catalog's value and nothing else changed, or the record of a check
    without formal quota as the check returned it.  The send-quota check
    returns the account's 24-hour maximum as [Quota], and the subnet check
    returns one record per enumerated subnet whose [Quota] is two to the
    power of 32 minus the number at the end of the subnet's block. *)
Theorem Quota_left_to_the_aggregator :
  (forall (c : strategy) returned err,
     setsItsOwnQuota c = false ->
     strategy_Usage c = Returns (Some returned, err) ->
     quotaUnset returned)
  /\ (forall (s : ServiceQuotas) result err r',
        QuotasAndUsage s = Returns (Some result, err) ->
        r' ∈ result ->
        (exists service quota check r,
           service ∈ allServices
           /\ ((quota ∈ listedQuotas (servicequotas.ListServiceQuotasPages
                                        (quotasService s) service)
                /\ serviceQuotasUsageChecks s !! servicequotas.QuotaCode quota
                   = Some check)
               \/ (quota ∈ listedQuotas
                             (servicequotas.ListAWSDefaultServiceQuotasPages
                                (quotasService s) service)
                   /\ serviceDefaultUsageChecks s !! servicequotas.QuotaCode quota
                      = Some check))
           /\ r ∈ returnedRecords (usageOf check)
           /\ r' = setQuota (servicequotas.Value quota) r)
        \/ (exists check,
              check ∈ otherUsageChecks s
              /\ r' ∈ returnedRecords (usageOf check)))
  /\ (forall client response,
        sesv2.GetAccount client = Reply response ->
        exists r,
          strategy_Usage (MaxSendIn24HoursCheck client) = Returns (Some [r], None)
          /\ Quota r = sesv2.Max24HourSend (sesv2.output_SendQuota response))
  /\ (forall client returned err,
        strategy_Usage (AvailableIpsPerSubnetUsageCheck client)
        = Returns (Some returned, err) ->
        Forall2 (fun subnet info =>
                   ResourceName info = ec2.SubnetId subnet
                   /\ Quota info
                      = Pow2 (32 - (strconv.Atoi
                                      (lastTwoBytes (ec2.CidrBlock subnet))).1))
                (enumeratedSubnets client) returned).
Proof.
  split; [exact strategy_quota_unset|].
  split; [exact QuotasAndUsage_provenance|]. split.
  - intros client response Hreply. cbn. unfold MaxSendIn24HoursCheck_Usage.
    rewrite Hreply. by eexists.
  - exact AvailableIps_records.
Qed.

Lemma Quota_left_to_the_aggregator_witness :
  quotaUnset [ {| Name := userSnapshotsPerRegionName;
                  ResourceName := None;
                  Description := userSnapshotsPerRegionDescription;
                  Usage := 0;
                  Quota := 0;
                  Tags := None |} ]
  /\ quotaUnset [Sample.repositoriesPerRegion 2].
Proof.
  split.
  - apply (proj1 Quota_left_to_the_aggregator
             (UserSnapshotsPerRegionCheck SampleAccounts.redshiftEmpty) _ None);
      reflexivity.
  - apply (proj1 Quota_left_to_the_aggregator
             (RepositoriesPerRegionCheck Sample.ecr_one_page)
             [Sample.repositoriesPerRegion 2] None).
    + reflexivity.
    + vm_compute. reflexivity.
Defined.

(** C3, as stated, fails: the send-quota check and the subnet check return
    records whose [Quota] is not zero. *)
Lemma checks_that_set_Quota :
  (exists r,
     strategy_Usage (MaxSendIn24HoursCheck SampleAccounts.ses)
     = Returns (Some [r], None)
     /\ Quota r = 50000%float /\ float64_eq (Quota r) 0 = false)
  /\ (exists r,
        strategy_Usage (AvailableIpsPerSubnetUsageCheck SampleNetworks.ec2_slash24)
        = Returns (Some [r], None)
        /\ Quota r = 256%float /\ float64_eq (Quota r) 0 = false).
Proof. split; eexists; (split; [vm_compute; reflexivity|]); by split. Qed.

(* ===================================================================== *)
(** * Further properties of the package *)
(* ===================================================================== *)

(** ** What every check returns *)

Ltac open_check :=
  unfold RulesPerSecurityGroupUsageCheck_Usage,
    SecurityGroupsPerENIUsageCheck_Usage, SecurityGroupsPerRegionUsageCheck_Usage,
    StandardSpotInstanceRequestsUsageCheck_Usage,
    RunningOnDemandStandardInstancesUsageCheck_Usage, standardInstancesCPUs,
    AvailableIpsPerSubnetUsageCheck_Usage,
    MaxGP2StoragePerRegionCheck_Usage, MaxIo1StoragePerRegionCheck_Usage,
    MaxIo2StoragePerRegionCheck_Usage, MaxGP3StoragePerRegionCheck_Usage,
    MaxSt1StoragePerRegionCheck_Usage, MaxStandardStoragePerRegionCheck_Usage,
    MaxSc1StoragePerRegionCheck_Usage, storagePerRegion,
    EbsSnapshotsPerRegionCheck_Usage,
    MaxIo2IopsPerRegionCheck_Usage, MaxIo1IopsPerRegionCheck_Usage, iopsPerRegion,
    ENIsPerRegionCheck_Usage, RepositoriesPerRegionCheck_Usage,
    ImagesPerRepositoryCheck_Usage, LogGroupsPerRegionCheck_Usage,
    MaxSendIn24HoursCheck_Usage, ReadReplicasPerMasterCheck_Usage,
    MaxTotalStorageCheck_Usage, AppKPUUsageCheck_Usage, AppsPerRegionCheck_Usage,
    JobsPerTriggerCheck_Usage, JobsPerAccountCheck_Usage,
    ConcurrentRunsPerJobCheck_Usage, DPUsCheck_Usage, ConcurrentRunsCheck_Usage,
    UserSnapshotsPerRegionCheck_Usage.

Lemma finish_outcome err quotaUsages :
  finish err quotaUsages
  = Returns (match err with
             | Some err => (None, Some (failedToGetUsage err))
             | None => (Some quotaUsages, None)
             end).
Proof. by destruct err. Qed.

Lemma imagesPerRepository_oneOrTheOther client repos :
  forall quotaUsages,
    exists r, imagesPerRepository client repos quotaUsages = Returns r
              /\ oneOrTheOther r.
Proof.
  induction repos as [|repo rest IH]; intros quotaUsages.
  - eexists. split; [reflexivity|]. right. by split.
  - cbn [imagesPerRepository]. rewrite Pages_perPage. cbn [mbind outcome_bind].
    destruct (failure _); [|apply IH].
    eexists. split; [reflexivity|]. left. by split.
Qed.

Lemma appKPUs_loop_oneOrTheOther client apps :
  forall quotaUsages,
    match appKPUs_loop client apps quotaUsages with
    | Returns r => oneOrTheOther r
    | Panics _ => True
    end.
Proof.
  induction apps as [apps|apps next IH|listErr]; intros quotaUsages;
    cbn [appKPUs_loop].
  - destruct (appKPUs_page _ _ _) as [[collected|err]|v];
      cbn [mbind outcome_bind mret outcome_ret]; [right | left | done]; by split.
  - destruct (appKPUs_page _ _ _) as [[collected|err]|v];
      cbn [mbind outcome_bind mret outcome_ret]; [apply IH | | done].
    left. by split.
  - left. by split.
Qed.

(** X1: whenever a check returns, it returns records or an error, never both
    and never neither. *)
Theorem Usage_records_or_error (c : strategy)
  (r : option (list QuotaUsage) * option error) :
  strategy_Usage c = Returns r -> oneOrTheOther r.
Proof.
  intros Hcall.
  assert (match strategy_Usage c with
          | Returns r => oneOrTheOther r
          | Panics _ => True
          end) as Houtcome; [|by rewrite Hcall in Houtcome].
  clear Hcall r.
  destruct c; cbn [strategy_Usage]; open_check;
    rewrite ?Pages_perPage; cbn [mbind outcome_bind];
    try match goal with
        | |- context [let '(_, _) := ?st in _] => destruct st
        end;
    try (match goal with
         | |- context [failure ?l] => destruct (failure l)
         end;
         cbn [mbind outcome_bind mret outcome_ret finish];
         solve [left; by split | right; by split]).
  - (* the subnet check *)
    match goal with
    | |- context [Pages ?fn ?src ?st] =>
        destruct (Pages fn src st)
          as [[[availabilityInfos [conversionErr|]] [err|]]|v]
    end; cbn [mbind outcome_bind]; try done; try (left; by split).
    right. by split.
  - (* the image check *)
    destruct (failure _); [left; by split|].
    destruct (imagesPerRepository_oneOrTheOther client
                (foldl (visit (fun page listOfRepositories =>
                   foldl (fun listOfRepositories repo =>
                            listOfRepositories ++ [ecr.RepositoryName repo])
                         listOfRepositories (ecr.Repositories page)))
                   [] (pages (ecr.DescribeRepositoriesPages client))) [])
      as (r & -> & Hr). exact Hr.
  - (* the send-quota check *)
    destruct (sesv2.GetAccount client); [right | left]; by split.
  - (* the KPU check *)
    apply appKPUs_loop_oneOrTheOther.
  - (* the application count *)
    destruct (appsPerRegion_loop _ _); [right | left]; by split.
  - (* the jobs-per-trigger check *)
    destruct (failure _); [left; by split|].
    destruct (glue.BatchGetTriggers _ _) as [triggers|]; [|left; by split].
    destruct (jobsPerTrigger_triggers _ _); cbn [mbind outcome_bind]; [|done].
    right. by split.
  - (* the concurrent-runs check *)
    match goal with
    | |- context [Pages ?fn ?src ?st] =>
        destruct (Pages fn src st) as [[[concurrentJobsCount m'] listErr]|v]
    end; cbn [mbind outcome_bind]; [|done].
    destruct listErr; [left | right]; by split.
Qed.

Lemma Usage_records_or_error_witness :
  oneOrTheOther (None, Some (failedToGetUsage Sample.throttled))
  /\ oneOrTheOther
       (Some [ {| Name := maxSendIn24HoursName;
                  ResourceName := None;
                  Description := maxSendIn24HoursDescription;
                  Usage := 120;
                  Quota := 50000;
                  Tags := None |} ],
        None).
Proof.
  split.
  - apply (Usage_records_or_error (JobsPerTriggerCheck SampleAccounts.glue_down)).
    reflexivity.
  - apply (Usage_records_or_error (MaxSendIn24HoursCheck SampleAccounts.ses)).
    reflexivity.
Defined.

(** ** The error of a failed enumeration *)

(** A callback that answers [!lastPage] whenever it returns lets [Pages]
    report the provider's failure. *)
Lemma walkPages_reports_failure {P St}
  (fn : option P -> bool -> St -> outcome (bool * St)) failed ps :
  (forall page lastPage st continue st',
     fn page lastPage st = Returns (continue, st') -> continue = negb lastPage) ->
  forall st st' err,
    walkPages fn failed ps st = Returns (st', err) -> err = failed.
Proof.
  intros Hfn. induction ps as [|page rest IH]; intros st st' err.
  - cbn. by intros [= _ <-].
  - cbn [walkPages].
    set (lastPage := match rest with [] => _ | _ => _ end).
    destruct (fn page lastPage st) as [[continue st1]|v] eqn:Hpage;
      cbn [mbind outcome_bind]; [|done].
    rewrite (Hfn _ _ _ _ _ Hpage).
    destruct lastPage eqn:Hlast; cbn [negb]; [|apply IH].
    intros [= _ <-]. subst lastPage.
    destruct rest; [destruct failed|]; done.
Qed.

Lemma appsPerRegion_loop_failure apps err :
  repliesFailure apps = Some err ->
  forall totalAppsCount,
    appsPerRegion_loop apps totalAppsCount = inr (failedToGetUsage err).
Proof.
  induction apps as [apps|apps next IH|listErr]; cbn; intros Hfail n;
    [done | by apply IH | congruence].
Qed.

(** X2: when the enumeration a check starts with fails, the check returns no
    records and that failure wrapped in [ErrFailedToGetUsage] (for the subnet
    check even if a conversion error was recorded on the way), unless the
    subnet check or the concurrent-runs check panicked in its page callback
    first. *)
Theorem Usage_enumeration_failure (c : strategy) (err : error) :
  enumerationFailure c = Some err ->
  match strategy_Usage c with
  | Returns r => r = (None, Some (failedToGetUsage err))
  | Panics _ => panicsWhileListing c = true
  end.
Proof.
  destruct c; cbn [strategy_Usage panicsWhileListing enumerationFailure]; open_check;
    rewrite ?Pages_perPage; cbn [mbind outcome_bind];
    try match goal with
        | |- context [let '(_, _) := ?st in _] => destruct st
        end;
    intros Hfail; try (cbn [app] in *; rewrite Hfail; reflexivity).
  - (* the subnet check *)
    pose proof (walkPages_eachPage_spec ec2.Subnets availabilityInfo
                  (failure (ec2.DescribeSubnetsPages client))
                  (pages (ec2.DescribeSubnetsPages client)) [] None) as Hwalk.
    unfold Pages.
    destruct (walkPages _ _ _ _) as [[[availabilityInfos conversionErr] listErr]|v];
      cbn [mbind outcome_bind]; [|done].
    destruct Hwalk as [-> _]. by rewrite Hfail.
  - (* the send-quota check *)
    destruct (sesv2.GetAccount client); [done|]. by injection Hfail as ->.
  - (* the KPU check *)
    destruct (kinesisanalyticsv2.ListApplications client); try done.
    by injection Hfail as ->.
  - (* the application count *)
    by rewrite (appsPerRegion_loop_failure _ _ Hfail).
  - (* the concurrent-runs check *)
    unfold Pages.
    match goal with
    | |- context [walkPages ?fn ?failed ?ps ?st] =>
        pose proof (walkPages_reports_failure fn failed ps) as Hreport;
        destruct (walkPages fn failed ps st)
          as [[[concurrentJobsCount m'] listErr]|v] eqn:Hwalk
    end; cbn [mbind outcome_bind]; [|done].
    rewrite (Hreport) with (err := listErr) (st := (0, m)) (st' := (concurrentJobsCount, m'));
      [by rewrite Hfail | | done].
    intros [page|] lastPage st continue st'; [|by intros [= <- _]].
    destruct (concurrentRuns_jobs _ _ _); cbn [mbind outcome_bind]; [|done].
    by intros [= <- _].
Qed.

Lemma Usage_enumeration_failure_witness :
  strategy_Usage (JobsPerAccountCheck SampleAccounts.glue_down)
  = Returns (None, Some (failedToGetUsage Sample.throttled)).
Proof.
  pose proof (Usage_enumeration_failure
                (JobsPerAccountCheck SampleAccounts.glue_down)
                Sample.throttled eq_refl) as Hfails.
  destruct (strategy_Usage _) as [r|v]; [by rewrite Hfails | discriminate Hfails].
Defined.

(** ** Which error a walk with a captured error ends with *)

Section CapturedErrorLast.
Context {P A : Type}.
Variable items : P -> list A.
Variable step : A -> outcome (list QuotaUsage + error).

Local Ltac run := cbn [mret outcome_ret mbind outcome_bind].

Lemma eachItem_firstFailure xs :
  (forall x, x ∈ xs -> exists r, step x = Returns r) ->
  forall collected captured,
    exists collected',
      eachItem step xs (collected, captured)
      = Returns (match firstFailure step xs with
                 | Some err => (true, (collected', Some err))
                 | None => (false, (collected', captured))
                 end).
Proof.
  induction xs as [|x rest IH]; intros Hreturn collected captured.
  - by exists collected.
  - cbn [eachItem firstFailure].
    destruct (Hreturn x) as [[records|err] ->]; [apply elem_of_cons; by left| |]; run.
    + apply IH. intros y Hy. apply Hreturn, elem_of_cons. by right.
    + by exists collected.
Qed.

(** The walk goes on after a failure: the error it leaves is the one of the
    last page that has a failing item. *)
Lemma walkPages_lastFailure failed ps :
  (forall x, x ∈ itemsOf items ps -> exists r, step x = Returns r) ->
  forall collected captured,
    exists collected',
      walkPages (eachPage items step) failed ps (collected, captured)
      = Returns (collected', lastFailure items step captured ps, failed).
Proof.
  unfold lastFailure.
  induction ps as [|page rest IH]; intros Hreturn collected captured.
  - by exists collected.
  - rewrite itemsOf_cons in Hreturn. cbn [walkPages foldl].
    assert (Hrest : forall x, x ∈ itemsOf items rest -> exists r, step x = Returns r).
    { intros x Hx. apply Hreturn, elem_of_app. by right. }
    assert (Hend : forall st : list QuotaUsage * option error,
               exists collected',
                 (if negb match rest, failed with [], None => true | _, _ => false end
                  then walkPages (eachPage items step) failed rest st
                  else Returns (st, None))
                 = Returns (collected',
                            foldl (fun captured page =>
                                     match page with
                                     | Some page =>
                                         match firstFailure step (items page) with
                                         | Some err => Some err
                                         | None => captured
                                         end
                                     | None => captured
                                     end) st.2 rest, failed)).
    { intros [collected1 captured1]. destruct rest as [|next rest'].
      - destruct failed; cbn; by eexists.
      - cbn [negb]. apply IH, Hrest. }
    destruct page as [page|]; cbn [eachPage].
    + destruct (eachItem_firstFailure (items page)) with (collected := collected)
        (captured := captured) as [collected1 ->].
      { intros x Hx. apply Hreturn, elem_of_app. by left. }
      destruct (firstFailure step (items page)) as [err|]; run.
      * apply IH, Hrest.
      * apply (Hend (collected1, captured)).
    + run. apply (Hend (collected, captured)).
Qed.
End CapturedErrorLast.

(** ** The walk of one catalog *)

Lemma usagesOfQuota_returns checks quota :
  map_Forall (fun _ check => returns (usageOf check) = true) checks ->
  exists r, usagesOfQuota checks quota = Returns r.
Proof.
  intros Hreturn. unfold usagesOfQuota.
  destruct (checks !! servicequotas.QuotaCode quota) as [check|] eqn:Hcheck;
    [|by eexists].
  pose proof (Hreturn _ _ Hcheck) as Hcall. cbv beta in Hcall. unfold usageOf in Hcall.
  destruct (check_Usage check ()) as [[quotaUsages [err|]]|v];
    cbn [mbind outcome_bind]; [by eexists | by eexists | discriminate Hcall].
Qed.

(** X3: when checks fail in several pages of a catalog, [quotasForService]
    and [defaultsForService] return the error of the first failing check of
    the last such page: a failing check ends its page, not the walk. *)
Theorem usagesOfCatalog_reports_last_page (checks : gmap string UsageCheck)
  (catalog : listing servicequotas.ListServiceQuotasOutput) (err : error) :
  map_Forall (fun _ check => returns (usageOf check) = true) checks ->
  failure catalog = None ->
  lastFailure servicequotas.Quotas (usagesOfQuota checks) None (pages catalog)
  = Some err ->
  usagesOfCatalog checks catalog = Returns (None, Some err).
Proof.
  intros Hreturn Hlisting Hlast. unfold usagesOfCatalog, Pages.
  destruct (walkPages_lastFailure servicequotas.Quotas (usagesOfQuota checks)
              (failure catalog) (pages catalog)) with (collected := @nil QuotaUsage)
    (captured := @None error) as [collected ->].
  { intros quota _. by apply usagesOfQuota_returns. }
  cbn [mbind outcome_bind]. by rewrite Hlisting, Hlast.
Qed.

Lemma usagesOfCatalog_reports_last_page_witness :
  firstFailure (usagesOfQuota SampleCatalogs.registry) [SampleAccounts.jobsQuota]
  = Some (failedToGetUsage Sample.throttled)
  /\ usagesOfCatalog SampleCatalogs.registry SampleCatalogs.two_pages
     = Returns (None, Some (failedToGetUsage SampleCatalogs.accessDenied)).
Proof.
  split; [vm_compute; reflexivity|].
  apply usagesOfCatalog_reports_last_page.
  - apply (bool_decide_unpack _). vm_compute. exact I.
  - reflexivity.
  - vm_compute. reflexivity.
Defined.

(** X4: when the enumeration of a catalog fails, [quotasForService] and
    [defaultsForService] return no records and that failure wrapped in
    [ErrFailedToListQuotas], whatever the checks of the delivered pages
    returned; the only other outcome is the panic of such a check. *)
Theorem usagesOfCatalog_listing_failure (checks : gmap string UsageCheck)
  (catalog : listing servicequotas.ListServiceQuotasOutput) (err : error) :
  failure catalog = Some err ->
  match usagesOfCatalog checks catalog with
  | Returns r => r = (None, Some (Wrapf ErrFailedToListQuotas (Some err)))
  | Panics v =>
      exists quota check,
        quota ∈ listedQuotas catalog
        /\ checks !! servicequotas.QuotaCode quota = Some check
        /\ usageOf check = Panics v
  end.
Proof.
  intros Hlisting. unfold usagesOfCatalog, Pages, listedQuotas.
  pose proof (walkPages_eachPage_spec servicequotas.Quotas (usagesOfQuota checks)
                (failure catalog) (pages catalog) [] None) as Hwalk.
  destruct (walkPages _ (failure catalog) (pages catalog) ([], None))
    as [[[serviceQuotaUsages usageErr] listErr]|v]; cbn [mbind outcome_bind].
  - destruct Hwalk as [-> _]. by rewrite Hlisting.
  - destruct Hwalk as (quota & Hquota & Hpanic).
    pose proof (usagesOfQuota_outcome checks quota) as Hout.
    rewrite Hpanic in Hout. destruct Hout as (check & Hcheck & Hcall).
    by exists quota, check.
Qed.

Lemma usagesOfCatalog_listing_failure_witness :
  firstFailure (usagesOfQuota SampleCatalogs.registry)
               (listedQuotas SampleCatalogs.cut_short)
  = Some (failedToGetUsage Sample.throttled)
  /\ usagesOfCatalog SampleCatalogs.registry SampleCatalogs.cut_short
     = Returns (None, Some (Wrapf ErrFailedToListQuotas
                              (Some SampleCatalogs.accessDenied))).
Proof.
  split; [vm_compute; reflexivity|].
  pose proof (usagesOfCatalog_listing_failure SampleCatalogs.registry
                SampleCatalogs.cut_short SampleCatalogs.accessDenied eq_refl)
    as Hfails.
  destruct (usagesOfCatalog _ _) as [r|v] eqn:Hcall; [by rewrite Hfails|].
  vm_compute in Hcall. discriminate Hcall.
Defined.

(** X5: every record that [quotasForService] or [defaultsForService] returns
    is a record of the check registered for a listed quota, with [Quota]
    replaced by the catalog's value for that quota; a listed code without a
    check contributes nothing. *)
Theorem usagesOfCatalog_provenance (checks : gmap string UsageCheck)
  (catalog : listing servicequotas.ListServiceQuotasOutput)
  (quotaUsages : list QuotaUsage) (err : option error) :
  usagesOfCatalog checks catalog = Returns (Some quotaUsages, err) ->
  forall r', r' ∈ quotaUsages ->
    exists quota check r,
      quota ∈ listedQuotas catalog
      /\ checks !! servicequotas.QuotaCode quota = Some check
      /\ r ∈ returnedRecords (usageOf check)
      /\ r' = setQuota (servicequotas.Value quota) r.
Proof.
  intros Hcall r' Hr'.
  pose proof (usagesOfCatalog_outcome checks catalog) as Hout.
  rewrite Hcall in Hout.
  destruct (catalogFails checks catalog); [by destruct Hout|].
  destruct Hout as [[= ->] _]. unfold recordsOfCatalog in Hr'.
  apply list_elem_of_In, in_flat_map in Hr' as (quota & Hquota & Hr').
  apply list_elem_of_In in Hquota. exists quota.
  unfold recordsOfQuota in Hr'.
  destruct (checks !! servicequotas.QuotaCode quota) as [check|]; [|done].
  apply in_map_iff in Hr' as (r & <- & Hr). exists check, r.
  repeat split; [done|]. by apply list_elem_of_In.
Qed.

Lemma usagesOfCatalog_provenance_witness :
  exists quota check r,
    quota ∈ listedQuotas SampleCatalogs.vpc
    /\ SampleCatalogs.registry !! servicequotas.QuotaCode quota = Some check
    /\ r ∈ returnedRecords (usageOf check)
    /\ setQuota 2500
         {| Name := securityGroupsPerRegionName;
            ResourceName := None;
            Description := securityGroupsPerRegionDesc;
            Usage := 0; Quota := 0; Tags := None |}
       = setQuota (servicequotas.Value quota) r.
Proof.
  apply (usagesOfCatalog_provenance SampleCatalogs.registry SampleCatalogs.vpc
           [ setQuota 2500
               {| Name := securityGroupsPerRegionName;
                  ResourceName := None;
                  Description := securityGroupsPerRegionDesc;
                  Usage := 0; Quota := 0; Tags := None |} ] None).
  - vm_compute. reflexivity.
  - apply list_elem_of_singleton. reflexivity.
Defined.

(** ** The subnet check: which conversion error *)

(** X6: when several pages hold a subnet whose block does not end in a number,
    the subnet check returns the conversion error of the first such subnet
    of the last such page (blocks of two bytes or more, listing without
    failure). *)
Theorem AvailableIps_reports_last_page (client : ec2.EC2API) (err : error) :
  (forall subnet, subnet ∈ enumeratedSubnets client ->
     (2 <= String.length (ec2.CidrBlock subnet))%nat) ->
  failure (ec2.DescribeSubnetsPages client) = None ->
  lastFailure ec2.Subnets availabilityInfo None
              (pages (ec2.DescribeSubnetsPages client)) = Some err ->
  AvailableIpsPerSubnetUsageCheck_Usage client = Returns (None, Some err).
Proof.
  intros Hlen Hlisting Hlast. unfold AvailableIpsPerSubnetUsageCheck_Usage, Pages.
  destruct (walkPages_lastFailure ec2.Subnets availabilityInfo
              (failure (ec2.DescribeSubnetsPages client))
              (pages (ec2.DescribeSubnetsPages client)))
    with (collected := @nil QuotaUsage) (captured := @None error)
    as [collected ->].
  { intros subnet Hsubnet.
    pose proof (availabilityInfo_cases subnet (Hlen subnet Hsubnet)) as Hcases.
    destruct (validInteger _); destruct Hcases as [x ->]; by eexists. }
  cbn [mbind outcome_bind]. by rewrite Hlisting, Hlast.
Qed.

Lemma AvailableIps_reports_last_page_witness :
  AvailableIpsPerSubnetUsageCheck_Usage SampleCatalogs.ec2_two_malformed
  = Returns (None,
             Some (Wrapf ErrFailedToConvertCidr
                     (Some (NumError "Atoi" "zz" ErrSyntax)))).
Proof.
  apply AvailableIps_reports_last_page.
  - intros subnet Hsubnet. cbn in Hsubnet.
    repeat (apply elem_of_cons in Hsubnet as [->|Hsubnet]; [cbn; lia|]).
    by apply elem_of_nil in Hsubnet.
  - reflexivity.
  - vm_compute. reflexivity.
Defined.

(** ** tags.go: the names it produces *)

(** X7: [ToPrometheusNamingFormat] yields only bytes of [[a-z0-9_]], whatever
    the input, and the strings it leaves unchanged are exactly the strings
    made of such bytes. *)
Theorem ToPrometheusNamingFormat_fixed_points :
  (forall s, allBytes isNormalByte (ToPrometheusNamingFormat s) = true)
  /\ (forall s, ToPrometheusNamingFormat s = s
                <-> allBytes isNormalByte s = true).
Proof.
  split; [exact ToPrometheusNamingFormat_normal|].
  intros s. split.
  - intros Hfixed. rewrite <- Hfixed. apply ToPrometheusNamingFormat_normal.
  - apply ToPrometheusNamingFormat_fixes_normal.
Qed.

Lemma replaceInvalidFrom_dropBytes s :
  forall skip, replaceInvalidFrom skip s = replaceInvalidFrom 0 (dropBytes skip s).
Proof.
  induction s as [|c rest IH]; intros [|skip]; try reflexivity.
  cbn [replaceInvalidFrom dropBytes]. apply IH.
Qed.

(** X8: a byte outside [[a-zA-Z0-9_]] is replaced together with the rest of
    the rune it starts: the result is that of the string with one underscore
    in the place of the whole rune, so a multi-byte character gives a single
    underscore. *)
Theorem ToPrometheusNamingFormat_rune (c : ascii) (s : string) :
  isLabelChar c = false ->
  ToPrometheusNamingFormat (String c s)
  = ToPrometheusNamingFormat (String "_" (dropBytes (runeWidth c s - 1) s)).
Proof.
  intros Hc. unfold ToPrometheusNamingFormat, replaceInvalid. f_equal.
  cbn [replaceInvalidFrom]. rewrite Hc, underscore_label.
  f_equal. apply replaceInvalidFrom_dropBytes.
Qed.

Lemma ToPrometheusNamingFormat_rune_witness :
  runeWidth (ascii_of_nat 195) (String (ascii_of_nat 169) "t") = 2%nat
  /\ ToPrometheusNamingFormat SampleTags.accented
     = ToPrometheusNamingFormat "_t".
Proof.
  split; [reflexivity|].
  exact (ToPrometheusNamingFormat_rune (ascii_of_nat 195)
           (String (ascii_of_nat 169) "t") eq_refl).
Defined.

(** ** The tags of an EC2 resource *)

Lemma tags_lookup (tags : list ec2.Tag) (key : string) :
  forall (out : gmap string string),
    foldl (fun out tag =>
             <[ToPrometheusNamingFormat (ec2.Key tag) := ec2.Value tag]> out)
          out tags !! key
    = foldl (fun found tag =>
               if bool_decide (ToPrometheusNamingFormat (ec2.Key tag) = key)
               then Some (ec2.Value tag) else found)
            (out !! key) tags.
Proof.
  induction tags as [|tag rest IH]; intros out; [done|].
  cbn [foldl]. rewrite IH, lookup_insert. f_equal.
  destruct (decide _) as [Heq|Hne].
  - by rewrite bool_decide_eq_true_2.
  - by rewrite bool_decide_eq_false_2.
Qed.

Lemma lastTagValue_key (tags : list ec2.Tag) (key value : string) :
  forall found,
    foldl (fun found tag =>
             if bool_decide (ToPrometheusNamingFormat (ec2.Key tag) = key)
             then Some (ec2.Value tag) else found)
          found tags = Some value ->
    found = Some value
    \/ exists tag, tag ∈ tags /\ ToPrometheusNamingFormat (ec2.Key tag) = key.
Proof.
  induction tags as [|tag rest IH]; intros found; [by left|].
  cbn [foldl]. intros Hfound. apply IH in Hfound as [Hfound|(t & Ht & Hkey)].
  - destruct (bool_decide _) eqn:Hkey; [|by left].
    right. exists tag. split; [apply elem_of_cons; by left|].
    by apply bool_decide_eq_true in Hkey.
  - right. exists t. split; [apply elem_of_cons; by right | done].
Qed.

(** X9: [ec2TagsToQuotaUsageTags] returns nil for a resource without tags;
    otherwise it returns a map in which a name holds the value of the last
    tag whose key normalises to it (tags whose keys normalise to the same
    name overwrite each other) and every key is made of [[a-z0-9_]]. *)
Theorem ec2TagsToQuotaUsageTags_lookup :
  ec2TagsToQuotaUsageTags [] = None
  /\ forall tags : list ec2.Tag,
       tags <> [] ->
       exists out : gmap string string,
         ec2TagsToQuotaUsageTags tags = Some out
         /\ (forall key, out !! key = lastTagValue key tags)
         /\ (forall key value,
               out !! key = Some value -> allBytes isNormalByte key = true).
Proof.
  split; [reflexivity|]. intros tags Hsome.
  unfold ec2TagsToQuotaUsageTags, len.
  destruct tags as [|tag rest]; [done|]. cbn [length].
  destruct (Z.eqb_spec (Z.of_nat (S (length rest))) 0) as [Hzero|_]; [lia|].
  eexists. split; [reflexivity|].
  assert (Hlookup : forall key,
            foldl (fun out t =>
                     <[ToPrometheusNamingFormat (ec2.Key t) := ec2.Value t]> out)
                  (∅ : gmap string string) (tag :: rest) !! key
            = lastTagValue key (tag :: rest)).
  { intros key. rewrite tags_lookup. by rewrite lookup_empty. }
  split; [exact Hlookup|].
  intros key value. rewrite Hlookup. unfold lastTagValue.
  intros [[=]|(t & _ & <-)]%lastTagValue_key.
  apply ToPrometheusNamingFormat_normal.
Qed.

Lemma ec2TagsToQuotaUsageTags_lookup_witness :
  exists out : gmap string string,
    ec2TagsToQuotaUsageTags SampleTags.colliding = Some out
    /\ (forall key, out !! key = lastTagValue key SampleTags.colliding)
    /\ (forall key value,
          out !! key = Some value -> allBytes isNormalByte key = true).
Proof.
  apply (proj2 ec2TagsToQuotaUsageTags_lookup SampleTags.colliding).
  discriminate.
Defined.

(** ** service_quotas.go: the constructor *)

Lemma isValidRegion_spec (partitions : list Partition) (region : string) :
  match isValidRegion partitions region with
  | (true, isChina) =>
      exists partition,
        firstPartitionOf partitions region partition
        /\ isChina = bool_decide (ID partition = AwsCnPartitionID)
  | (false, isChina) => isChina = false /\ unknownRegion partitions region
  end.
Proof.
  induction partitions as [|partition rest IH]; cbn [isValidRegion].
  - split; [done | constructor].
  - destruct (bool_decide (region ∈ Regions partition)) eqn:Hin.
    + apply bool_decide_eq_true in Hin. exists partition. split; [|done].
      exists [], rest. repeat split; [done | constructor].
    + apply bool_decide_eq_false in Hin.
      destruct (isValidRegion rest region) as [[|] isChina].
      * destruct IH as (p & (before & after & -> & Hp & Hbefore) & ->).
        exists p. split; [|done].
        exists (partition :: before), after. repeat split; [done|].
        by constructor.
      * destruct IH as [-> Hrest]. split; [done | by constructor].
Qed.

(** X10: [NewServiceQuotas] returns a value or an error, never both and never
    neither.  It fails with [ErrInvalidRegion], before any session is made,
    exactly when no partition has the region; otherwise it passes on the
    session's error, or returns a value whose [isAwsChina] tells whether the
    first partition that has the region is the China partition, with the
    registries of [newUsageChecks]. *)
Theorem NewServiceQuotas_outcome (autoscalingAPI : Type)
  (ASGUsageCheck_Usage : autoscalingAPI -> usage_result)
  (sdk : SDK autoscalingAPI) (region profile : string) :
  match NewServiceQuotas autoscalingAPI ASGUsageCheck_Usage sdk region
          profile with
  | (Some s, None) =>
      exists partition awsSession,
        firstPartitionOf (DefaultPartitions _ sdk) region partition
        /\ isAwsChina s = bool_decide (ID partition = AwsCnPartitionID)
        /\ NewSessionWithOptions _ sdk profile = Reply awsSession
        /\ quotasService s = quotasClient _ (awsSession region)
        /\ (serviceQuotasUsageChecks s, serviceDefaultUsageChecks s,
            otherUsageChecks s)
           = newUsageChecks _ ASGUsageCheck_Usage (awsSession region)
  | (None, Some err) =>
      (unknownRegion (DefaultPartitions _ sdk) region
       /\ err = Wrapf ErrInvalidRegion None)
      \/ ((exists partition,
             firstPartitionOf (DefaultPartitions _ sdk) region partition)
          /\ NewSessionWithOptions _ sdk profile = Failure err)
  | _ => False
  end.
Proof.
  unfold NewServiceQuotas.
  pose proof (isValidRegion_spec (DefaultPartitions _ sdk) region) as Hregion.
  destruct (isValidRegion _ region) as [[|] isChina]; cbn [negb].
  - destruct Hregion as (partition & Hfirst & ->).
    destruct (NewSessionWithOptions _ sdk profile) as [awsSession|err].
    + by exists partition, awsSession.
    + right. split; [by exists partition | done].
  - destruct Hregion as [_ Hunknown]. by left.
Qed.

(** ** Walks that fold over the items *)

(** A callback whose body folds over the items of its page folds over all
    the items. *)
Lemma visit_foldl {P A St} (items : P -> list A) (f : St -> A -> St)
  (body : P -> St -> St) (ps : list (option P)) :
  (forall page st, body page st = foldl f st (items page)) ->
  forall st, foldl (visit body) st ps = foldl f st (itemsOf items ps).
Proof.
  intros Hbody. induction ps as [|page rest IH]; intros st; [done|].
  rewrite itemsOf_cons, foldl_app. cbn [foldl].
  destruct page as [page|]; cbn [visit foldl]; [rewrite Hbody|]; apply IH.
Qed.

Lemma foldl_snoc_map {A B} (g : A -> B) (xs : list A) :
  forall acc, foldl (fun acc x => acc ++ [g x]) acc xs = acc ++ map g xs.
Proof.
  induction xs as [|x rest IH]; intros acc; cbn; [by rewrite app_nil_r|].
  by rewrite IH, <- app_assoc.
Qed.

Lemma visit_append {P A} (items : P -> list A) (ps : list (option P)) :
  forall acc,
    foldl (visit (fun page acc => acc ++ items page)) acc ps
    = acc ++ itemsOf items ps.
Proof.
  induction ps as [|page rest IH]; intros acc; [by rewrite app_nil_r|].
  rewrite itemsOf_cons. cbn [foldl].
  destruct page as [page|]; cbn [visit app]; rewrite IH; [by rewrite app_assoc|done].
Qed.

Lemma foldl_int_add {A} (g : A -> Z) (xs : list A) :
  forall n, foldl (fun count x => int_add count (g x)) (wrap64 n) xs
            = wrap64 (n + total (map g xs)).
Proof.
  induction xs as [|x rest IH]; intros n; cbn [foldl map total foldr].
  - f_equal. lia.
  - rewrite int_add_wrap64_l, IH. fold (total (map g rest)). f_equal. lia.
Qed.

(** ** ecr_limits.go: the image check *)

(** X11: if the images of any listed repository cannot be listed, the image
    check returns no records, not even those of the repositories before it,
    and an error wrapped in [ErrFailedToGetUsage]. *)
Theorem ImagesPerRepositoryCheck_any_failure (client : ecr.ECRAPI) :
  (exists repo,
     repo ∈ itemsOf ecr.Repositories (pages (ecr.DescribeRepositoriesPages client))
     /\ failure (ecr.ListImagesPages client (ecr.RepositoryName repo)) <> None) ->
  exists err,
    ImagesPerRepositoryCheck_Usage client
    = Returns (None, Some (failedToGetUsage err)).
Proof.
  intros (repo & Hrepo & Hfails). unfold ImagesPerRepositoryCheck_Usage.
  rewrite Pages_perPage. cbn [mbind outcome_bind].
  destruct (failure (ecr.DescribeRepositoriesPages client)) as [err|];
    [by exists err|].
  apply imagesPerRepository_failure.
  exists (ecr.RepositoryName repo). split; [|done].
  rewrite (visit_foldl ecr.Repositories
             (fun names r => names ++ [ecr.RepositoryName r])) by done.
  rewrite foldl_snoc_map. cbn [app].
  apply list_elem_of_In, in_map, list_elem_of_In, Hrepo.
Qed.

Lemma ImagesPerRepositoryCheck_any_failure_witness :
  exists err,
    ImagesPerRepositoryCheck_Usage Sample.ecr_images_fail
    = Returns (None, Some (failedToGetUsage err)).
Proof.
  apply ImagesPerRepositoryCheck_any_failure.
  exists (Sample.repository "web"). split.
  - cbn. apply elem_of_cons. right. apply list_elem_of_singleton. reflexivity.
  - discriminate.
Defined.

(** ** glue_limits.go: the trigger check *)

(** X12: the trigger check asks [BatchGetTriggers] for all the listed trigger
    names at once, in listing order; if that call fails it returns no records
    and [ErrFailedToGetUsage] wrapped around a nil cause: the error of the
    call itself is not part of what is returned. *)
Theorem JobsPerTriggerCheck_batch_failure (client : glue.GlueAPI) (err : error) :
  failure (glue.ListTriggersPages client) = None ->
  glue.BatchGetTriggers client
    (itemsOf glue.TriggerNames (pages (glue.ListTriggersPages client)))
  = Failure err ->
  JobsPerTriggerCheck_Usage client
  = Returns (None, Some (Wrapf ErrFailedToGetUsage None)).
Proof.
  intros Hlisting Hbatch. unfold JobsPerTriggerCheck_Usage.
  rewrite Pages_perPage, Hlisting. cbn [mbind outcome_bind].
  rewrite (visit_append glue.TriggerNames). cbn [app]. by rewrite Hbatch.
Qed.

Lemma JobsPerTriggerCheck_batch_failure_witness :
  JobsPerTriggerCheck_Usage SampleVolumes.glue_batch_fails
  = Returns (None, Some (Wrapf ErrFailedToGetUsage None)).
Proof.
  apply (JobsPerTriggerCheck_batch_failure SampleVolumes.glue_batch_fails
           Sample.throttled); reflexivity.
Defined.

(** ** The storage checks *)

(** X13: each of the seven storage checks adds up the sizes of the listed
    volumes of its type as integers, divides by 1024 with truncation and
    only then converts: one record, whose usage is the whole number of TiB;
    listed volumes of less than 1024 GiB in total give usage 0. *)
Theorem storagePerRegion_whole_TiB (volumeType name description : string)
  (client : ec2.EC2API) :
  failure (ec2.DescribeVolumesPages client (volumeTypeFilter volumeType)) = None ->
  storagePerRegion volumeType name description client
  = Returns
      (Some [ {| Name := name;
                 ResourceName := None;
                 Description := description;
                 Usage :=
                   float64_of_int
                     (int_div
                        (wrap64 (total (map ec2.Size (listedVolumes client volumeType))))
                        1024);
                 Quota := 0;
                 Tags := None |} ],
       None)
  /\ (0 <= total (map ec2.Size (listedVolumes client volumeType)) < 1024 ->
      float64_of_int
        (int_div (wrap64 (total (map ec2.Size (listedVolumes client volumeType))))
                 1024)
      = 0%float).
Proof.
  intros Hlisting. unfold storagePerRegion, listedVolumes. split.
  - rewrite Pages_perPage, Hlisting. cbn [mbind outcome_bind finish app].
    rewrite (visit_foldl ec2.Volumes
               (fun count vol => int_add count (ec2.Size vol))) by done.
    change 0 with (wrap64 0) at 1. rewrite foldl_int_add. reflexivity.
  - intros Hsmall. rewrite wrap64_small by lia. unfold int_div.
    rewrite Z.quot_small by lia. reflexivity.
Qed.

Lemma storagePerRegion_whole_TiB_witness :
  MaxGP2StoragePerRegionCheck_Usage SampleVolumes.ec2_volumes
  = Returns (Some [ {| Name := maxGp2StoragePerRegionName;
                       ResourceName := None;
                       Description := maxGp2StoragePerRegionDescription;
                       Usage := 1;
                       Quota := 0;
                       Tags := None |} ],
             None)
  /\ MaxIo1StoragePerRegionCheck_Usage SampleVolumes.ec2_volumes
     = Returns (Some [ {| Name := maxIo1StoragePerRegionName;
                          ResourceName := None;
                          Description := maxIo1StoragePerRegionDescription;
                          Usage := 0;
                          Quota := 0;
                          Tags := None |} ],
                None).
Proof.
  split.
  - exact (proj1 (storagePerRegion_whole_TiB "gp2" maxGp2StoragePerRegionName
                    maxGp2StoragePerRegionDescription SampleVolumes.ec2_volumes
                    eq_refl)).
  - exact (proj1 (storagePerRegion_whole_TiB "io1" maxIo1StoragePerRegionName
                    maxIo1StoragePerRegionDescription SampleVolumes.ec2_volumes
                    eq_refl)).
Defined.

(** ** The security-group rules *)

Lemma foldl_append_each {A B} (F : list B -> A -> list B) (g : A -> list B)
  (xs : list A) :
  (forall acc x, F acc x = acc ++ g x) ->
  forall acc, foldl F acc xs = acc ++ flat_map g xs.
Proof.
  intros HF. induction xs as [|x rest IH]; intros acc; cbn [foldl flat_map].
  - by rewrite app_nil_r.
  - by rewrite HF, IH, <- app_assoc.
Qed.

Lemma total_cons z zs : total (z :: zs) = z + total zs.
Proof. reflexivity. Qed.

Lemma ingress_fold (perms : list ec2.IpPermission) :
  forall n,
    foldl (fun inboundRules rule =>
             let inboundRules :=
               int_add inboundRules (len (ec2.IpRanges rule)) in
             int_add inboundRules (len (ec2.UserIdGroupPairs rule)))
          (wrap64 n) perms
    = wrap64 (n + total (map (fun rule => len (ec2.IpRanges rule)
                                          + len (ec2.UserIdGroupPairs rule))
                             perms)).
Proof.
  induction perms as [|rule rest IH]; intros n; cbn [foldl map].
  - f_equal. cbn. lia.
  - cbv zeta. rewrite !int_add_wrap64_l, IH, total_cons. f_equal. lia.
Qed.

Lemma egress_fold (perms : list ec2.IpPermission) :
  forall n inboundRules,
    (foldl (fun '(outboundRules, inboundRules) rule =>
              (int_add outboundRules (len (ec2.IpRanges rule)),
               int_add inboundRules (len (ec2.UserIdGroupPairs rule))))
           (wrap64 n, inboundRules) perms).1
    = wrap64 (n + total (map (fun rule => len (ec2.IpRanges rule)) perms)).
Proof.
  induction perms as [|rule rest IH]; intros n inboundRules; cbn [foldl map].
  - cbn [fst]. f_equal. cbn. lia.
  - rewrite int_add_wrap64_l, IH, total_cons. f_equal. lia.
Qed.

(** X14: when the listing succeeds, the rules check returns two records per
    listed security group, in listing order and whatever the paging: the
    inbound one counts the IP ranges and the group pairs of the ingress
    rules, the outbound one counts the IP ranges of the egress rules only;
    the group pairs of the egress rules are in neither count. *)
Theorem RulesPerSecurityGroupUsageCheck_records (client : ec2.EC2API) :
  failure (ec2.DescribeSecurityGroupsPages client) = None ->
  RulesPerSecurityGroupUsageCheck_Usage client
  = Returns (Some (flat_map rulesOf (listedSecurityGroups client)), None).
Proof.
  intros Hlisting. unfold RulesPerSecurityGroupUsageCheck_Usage, listedSecurityGroups.
  rewrite Pages_perPage, Hlisting. cbn [mbind outcome_bind finish].
  erewrite (visit_foldl ec2.SecurityGroups); [|intros; reflexivity].
  rewrite (foldl_append_each _ rulesOf); [reflexivity|].
  intros acc group. cbv beta zeta. unfold rulesOf.
  pose proof (ingress_fold (ec2.IpPermissions group) 0) as Hin.
  rewrite Z.add_0_l in Hin. change (wrap64 0) with 0 in Hin.
  cbv zeta in Hin. rewrite Hin.
  match goal with
  | |- context [foldl ?f (0, ?i) (ec2.IpPermissionsEgress group)] =>
      pose proof (egress_fold (ec2.IpPermissionsEgress group) 0 i) as Hout;
      change (wrap64 0) with 0 in Hout;
      destruct (foldl f (0, i) (ec2.IpPermissionsEgress group))
        as [outboundRules inboundRules]
  end.
  cbn [fst] in Hout. rewrite Z.add_0_l in Hout. by rewrite Hout.
Qed.

Lemma RulesPerSecurityGroupUsageCheck_records_witness :
  RulesPerSecurityGroupUsageCheck_Usage SampleGroups.ec2_groups
  = Returns (Some [ {| Name := inboundRulesPerSecGrpName;
                       ResourceName := Some "sg-1"%string;
                       Description := inboundRulesPerSecGrpDesc;
                       Usage := 3;
                       Quota := 0;
                       Tags := None |};
                    {| Name := outboundRulesPerSecGrpName;
                       ResourceName := Some "sg-1"%string;
                       Description := outboundRulesPerSecGrpDesc;
                       Usage := 1;
                       Quota := 0;
                       Tags := None |} ],
             None).
Proof.
  exact (RulesPerSecurityGroupUsageCheck_records SampleGroups.ec2_groups eq_refl).
Defined.

(** ** The vCPUs of the standard instances *)

Lemma total_app xs ys : total (xs ++ ys) = total xs + total ys.
Proof.
  induction xs as [|x rest IH]; [done|].
  cbn [app]. rewrite !total_cons, IH. lia.
Qed.

Lemma countedInstances_app spotInstances (xs ys : list ec2.Instance) :
  countedInstances spotInstances (xs ++ ys)
  = countedInstances spotInstances xs ++ countedInstances spotInstances ys.
Proof. destruct spotInstances; [done|]. apply List.filter_app. Qed.

Lemma vCPUs_fold (spotInstances : bool) (instances : list ec2.Instance) :
  forall n,
    foldl (fun totalvCPUs instance =>
             if negb spotInstances
                && bool_decide (ec2.InstanceLifecycle instance ≠ None)
             then totalvCPUs
             else
               let cpuOptions := ec2.instance_CpuOptions instance in
               match ec2.CoreCount cpuOptions, ec2.ThreadsPerCore cpuOptions with
               | Some coreCount, Some threadsPerCore =>
                   let numvCPUs := int_mul coreCount threadsPerCore in
                   int_add totalvCPUs numvCPUs
               | _, _ => totalvCPUs
               end)
          (wrap64 n) instances
    = wrap64 (n + total (map vCPUs (countedInstances spotInstances instances))).
Proof.
  match goal with |- forall n, foldl ?f _ _ = _ => set (F := f) end.
  induction instances as [|instance rest IH]; intros n; cbn [foldl].
  - destruct spotInstances; cbn; f_equal; lia.
  - change (instance :: rest) with ([instance] ++ rest).
    rewrite countedInstances_app, map_app, total_app, Z.add_assoc, <- IH.
    f_equal. subst F. cbv beta zeta.
    assert (wrap64 n = wrap64 (n + total [])) as Hskip by (f_equal; cbn; lia).
    assert (forall z, wrap64 (n + z) = wrap64 (n + total [z])) as Hcount
      by (intros z; f_equal; cbn; lia).
    unfold countedInstances, onDemand, vCPUs.
    destruct instance as [lifecycle [coreCount threadsPerCore]].
    cbn [ec2.InstanceLifecycle ec2.instance_CpuOptions ec2.CoreCount
         ec2.ThreadsPerCore].
    destruct spotInstances, lifecycle as [lifecycle|];
      cbn [negb andb List.filter map];
      rewrite ?(bool_decide_eq_true_2 (Some lifecycle ≠ None)) by done;
      rewrite ?(bool_decide_eq_false_2 (Some lifecycle = None)) by done;
      rewrite ?(bool_decide_eq_false_2 (None ≠ None)) by (by intros ?);
      rewrite ?(bool_decide_eq_true_2 (None = None)) by done;
      cbn [map ec2.InstanceLifecycle ec2.instance_CpuOptions ec2.CoreCount
           ec2.ThreadsPerCore];
      try exact Hskip;
      destruct coreCount as [coreCount|], threadsPerCore as [threadsPerCore|];
      rewrite ?int_add_wrap64_l; first [apply Hcount | rewrite Hskip; apply Hcount].
Qed.

Lemma reservations_fold (spotInstances : bool)
  (reservations : list ec2.Reservation) :
  forall n,
    foldl (fun totalvCPUs reservation =>
             foldl (fun totalvCPUs instance =>
                      if negb spotInstances
                         && bool_decide (ec2.InstanceLifecycle instance ≠ None)
                      then totalvCPUs
                      else
                        let cpuOptions := ec2.instance_CpuOptions instance in
                        match ec2.CoreCount cpuOptions,
                              ec2.ThreadsPerCore cpuOptions with
                        | Some coreCount, Some threadsPerCore =>
                            let numvCPUs := int_mul coreCount threadsPerCore in
                            int_add totalvCPUs numvCPUs
                        | _, _ => totalvCPUs
                        end)
                   totalvCPUs (ec2.Instances reservation))
          (wrap64 n) reservations
    = wrap64 (n + total (map vCPUs
                           (countedInstances spotInstances
                              (flat_map ec2.Instances reservations)))).
Proof.
  induction reservations as [|reservation rest IH]; intros n;
    cbn [foldl flat_map].
  - destruct spotInstances; cbn; f_equal; lia.
  - rewrite vCPUs_fold, IH, countedInstances_app, map_app, total_app.
    f_equal. lia.
Qed.

(** X15: when the listing succeeds, [standardInstancesCPUs] returns the sum of
    cores times threads over the listed instances that report both, whatever
    the paging and the grouping into reservations; instances that lack
    either figure add nothing.  Without the spot flag the instances with a
    lifecycle are left out; with it every instance the provider returns under
    the spot filter is counted. *)
Theorem standardInstancesCPUs_sum (client : ec2.EC2API) (spotInstances : bool) :
  failure (ec2.DescribeInstancesPages client (instanceFilters spotInstances))
  = None ->
  standardInstancesCPUs client spotInstances
  = Returns
      (wrap64
         (total
            (map vCPUs
               (countedInstances spotInstances
                  (listedInstances client (instanceFilters spotInstances))))),
       None).
Proof.
  intros Hlisting. unfold standardInstancesCPUs, listedInstances.
  assert ((if spotInstances
           then [standardInstanceTypeFilter; activeInstanceFilter]
                ++ [ {| ec2.Name := "instance-lifecycle";
                        ec2.Values := ["spot"%string] |} ]
           else [standardInstanceTypeFilter; activeInstanceFilter])
          = instanceFilters spotInstances) as Hfilters
    by (by destruct spotInstances).
  cbv zeta. rewrite Hfilters, Pages_perPage, Hlisting.
  cbn [mbind outcome_bind mret outcome_ret].
  erewrite (visit_foldl ec2.Reservations); [|intros; reflexivity].
  pose proof (reservations_fold spotInstances
                (itemsOf ec2.Reservations
                   (pages (ec2.DescribeInstancesPages client
                             (instanceFilters spotInstances)))) 0) as Hsum.
  rewrite Z.add_0_l in Hsum. change (wrap64 0) with 0 in Hsum.
  cbv zeta in Hsum. by rewrite Hsum.
Qed.

Lemma standardInstancesCPUs_sum_witness :
  standardInstancesCPUs SampleGroups.ec2_groups false = Returns (4, None)
  /\ standardInstancesCPUs SampleGroups.ec2_groups true = Returns (8, None).
Proof.
  split.
  - exact (standardInstancesCPUs_sum SampleGroups.ec2_groups false eq_refl).
  - exact (standardInstancesCPUs_sum SampleGroups.ec2_groups true eq_refl).
Defined.
